(** * EmailScope: crawler, extractor and verifier

    A shallow embedding of the three core modules of the EmailScope
    pipeline ([emailscope/crawler.py], [emailscope/extractor.py],
    [emailscope/verifier.py]) with the properties of its specification.

    Conventions of the embedding.
    - A Python [str] is a Rocq [string]; a character is a code point below
      256 (ASCII and the Latin-1 supplement), which covers every literal
      of the source. On that range [str.lower] is a map from character to
      character; beyond it (the final sigma, the Kelvin sign) it is not,
      and every statement about letter case speaks of strings of that
      range only.
    - A Python [int] is a [Z].
    - A Python [set] of strings is a [gset string], a [dict] a [gmap].
    - The network (HTTP fetches, robots.txt, DNS) and the functions
      [urljoin] and [urlparse] of [urllib.parse] are explicit parameters
      of the functions that use them.
    - Patterns of the [re] module are terms of [Re.regex], run by a
      backtracking matcher that lists the matches in the order in which
      Python's engine tries them. *)

From Stdlib Require Import ZArith Ascii String List Bool Lia Sorting.Sorted
  Numbers.DecimalString.
From stdpp Require Import gmap strings.

#[local] Set Warnings "-clear-no-such-hyp".
Open Scope string_scope.

(** ** Python string operations *)

Module Str.

Definition code (c : ascii) : N := N_of_ascii c.

Definition between (lo hi : N) (c : ascii) : bool :=
  ((lo <=? code c) && (code c <=? hi))%N.

(** [str.isspace] on one character, which is also the class [\s] of [re]
    and the default character set of [str.strip]. *)
Definition is_space (c : ascii) : bool :=
  between 9 13 c || between 28 32 c || (code c =? 133)%N || (code c =? 160)%N.

Definition is_upper (c : ascii) : bool :=
  between 65 90 c || (between 192 222 c && negb (code c =? 215)%N).

(** [str.lower] on one character. *)
Definition lower_char (c : ascii) : ascii :=
  if is_upper c then ascii_of_N (code c + 32) else c.

(** The upper-case partner of a character, when it has one below 256. *)
Definition upper_char (c : ascii) : ascii :=
  if between 97 122 c || (between 224 254 c && negb (code c =? 247)%N)
  then ascii_of_N (code c - 32) else c.

(** [s.lower()] *)
Fixpoint lower (s : string) : string :=
  match s with
  | "" => ""
  | String c s' => String (lower_char c) (lower s')
  end.

(** [s.lstrip(chars)], [s.rstrip(chars)] and [s.strip(chars)], the
    character set given as a predicate. *)
Fixpoint lstrip_by (p : ascii -> bool) (s : string) : string :=
  match s with
  | "" => ""
  | String c s' => if p c then lstrip_by p s' else s
  end.

Fixpoint rstrip_by (p : ascii -> bool) (s : string) : string :=
  match s with
  | "" => ""
  | String c s' =>
      match rstrip_by p s' with
      | "" => if p c then "" else String c ""
      | r => String c r
      end
  end.

Definition strip_by (p : ascii -> bool) (s : string) : string :=
  rstrip_by p (lstrip_by p s).

(** [s.strip()] *)
Definition strip (s : string) : string := strip_by is_space s.

(** [s.startswith(p)] *)
Fixpoint startswith (p s : string) : bool :=
  match p, s with
  | "", _ => true
  | String a p', String b s' => Ascii.eqb a b && startswith p' s'
  | String _ _, "" => false
  end.

(** [sub in s] *)
Fixpoint contains (sub s : string) : bool :=
  startswith sub s ||
  match s with
  | "" => false
  | String _ s' => contains sub s'
  end.

(** [s.endswith(suf)] *)
Fixpoint endswith (suf s : string) : bool :=
  String.eqb s suf ||
  match s with
  | "" => false
  | String _ s' => endswith suf s'
  end.

(** [s[n:]] and [s[:n]] for [n >= 0] *)
Fixpoint drop (n : nat) (s : string) : string :=
  match n, s with
  | S k, String _ s' => drop k s'
  | _, _ => s
  end.

Fixpoint take (n : nat) (s : string) : string :=
  match n, s with
  | S k, String c s' => String c (take k s')
  | _, _ => ""
  end.

(** [len(s)] *)
Definition len (s : string) : Z := Z.of_nat (String.length s).

(** [s.count(c)] for a one-character [c] *)
Fixpoint count (c : ascii) (s : string) : Z :=
  match s with
  | "" => 0
  | String a s' => ((if Ascii.eqb a c then 1 else 0) + count c s')%Z
  end.

(** [c in s] for a one-character [c] *)
Definition has_char (c : ascii) (s : string) : bool :=
  contains (String c "") s.

(** [s.split(c)] for a one-character separator: never empty. *)
Fixpoint split (c : ascii) (s : string) : list string :=
  match s with
  | "" => [""]
  | String a s' =>
      if Ascii.eqb a c then "" :: split c s'
      else match split c s' with
           | h :: t => String a h :: t
           | [] => [String a ""]
           end
  end.

(** [l[i]] on a list of strings; the callers only index within range. *)
Definition item (l : list string) (i : nat) : string := nth i l "".

(** [l[-1]] *)
Definition last_item (l : list string) : string := List.last l "".

(** [s.replace(old, new)]: the occurrences of [old] are replaced from
    left to right, [skip] counting the characters of the occurrence that
    is being passed over. *)
Fixpoint replace_from (old new : string) (skip : nat) (s : string) : string :=
  match s with
  | "" => ""
  | String a s' =>
      match skip with
      | S k => replace_from old new k s'
      | O =>
          if startswith old s
          then new ++ replace_from old new (String.length old - 1) s'
          else String a (replace_from old new 0 s')
      end
  end.

Definition replace (old new s : string) : string := replace_from old new 0 s.

(** [str(n)] for an integer *)
Definition of_Z (n : Z) : string := NilZero.string_of_int (Z.to_int n).

(** [sep.join(l)] *)
Fixpoint join (sep : string) (l : list string) : string :=
  match l with
  | [] => ""
  | [x] => x
  | x :: l' => x ++ sep ++ join sep l'
  end.

(** [any(f(x) for x in l)] *)
Definition any {A} (f : A -> bool) (l : list A) : bool := existsb f l.

(** [x in l] for a list (or a set literal) of strings *)
Definition mem (x : string) (l : list string) : bool :=
  existsb (String.eqb x) l.

End Str.

(** ** The fragment of [re] the program uses *)

Module Re.

Inductive regex : Type :=
| Chr (c : ascii)                 (* a literal character *)
| Set_ (p : ascii -> bool)        (* a character class [...] or \s *)
| Dot                             (* . : any character but a newline *)
| Seq (r1 r2 : regex)
| Star (r : regex)                (* r*  greedy *)
| LazyStar (r : regex)            (* r*? *)
| Opt (r : regex)                 (* r?  greedy *)
| Bol                             (* ^ *)
| Eol                             (* $ *)
| WordB                           (* \b *)
| Group (r : regex).              (* ( r ), capturing *)

(** r+, r{2,}, r{3,}, r{4,} and r{1,2} *)
Definition Plus (r : regex) : regex := Seq r (Star r).
Definition AtLeast2 (r : regex) : regex := Seq r (Seq r (Star r)).
Definition AtLeast3 (r : regex) : regex := Seq r (AtLeast2 r).
Definition AtLeast4 (r : regex) : regex := Seq r (AtLeast3 r).
Definition OneOrTwo (r : regex) : regex := Seq r (Opt r).

(** A literal string *)
Fixpoint Lit (s : string) : regex :=
  match s with
  | "" => Star (Set_ (fun _ => false))
  | String c "" => Chr c
  | String c s' => Seq (Chr c) (Lit s')
  end.

(** Character classes of the source *)
Definition alpha (c : ascii) : bool :=
  Str.between 65 90 c || Str.between 97 122 c.
Definition digit (c : ascii) : bool := Str.between 48 57 c.
Definition lower_az (c : ascii) : bool := Str.between 97 122 c.
Definition alnum (c : ascii) : bool := alpha c || digit c.
Definition one_of (s : string) (c : ascii) : bool := Str.has_char c s.

(** The class \w of a [str] pattern, below 256: letters, digits and
    numeric characters, and the underscore. *)
Definition is_word (c : ascii) : bool :=
  alnum c || Ascii.eqb c "_" ||
  one_of (String (ascii_of_N 170) (String (ascii_of_N 178)
         (String (ascii_of_N 179) (String (ascii_of_N 181)
         (String (ascii_of_N 185) (String (ascii_of_N 186) "")))))) c ||
  Str.between 188 190 c || Str.between 192 214 c ||
  Str.between 216 246 c || Str.between 248 255 c.

(** A position of the matcher: the character before it, the text after
    it, and the groups captured so far. *)
Record mstate : Type := MState {
  prev : option ascii;
  rest : string;
  caps : list string
}.

Definition advance (st : mstate) : option (ascii * mstate) :=
  match rest st with
  | "" => None
  | String c s' => Some (c, MState (Some c) s' (caps st))
  end.

Definition shorter (st st' : mstate) : bool :=
  Nat.ltb (String.length (rest st')) (String.length (rest st)).

(** Greedy and lazy iteration; an iteration that consumes nothing ends
    the loop, so the length of the remaining text bounds the depth. *)
Fixpoint greedy (step : mstate -> list mstate) (fuel : nat) (st : mstate)
  : list mstate :=
  match fuel with
  | O => [st]
  | S f => flat_map (greedy step f) (List.filter (shorter st) (step st)) ++ [st]
  end.

Fixpoint lazy (step : mstate -> list mstate) (fuel : nat) (st : mstate)
  : list mstate :=
  match fuel with
  | O => [st]
  | S f => st :: flat_map (lazy step f) (List.filter (shorter st) (step st))
  end.

Definition at_word (o : option ascii) : bool :=
  match o with Some c => is_word c | None => false end.

Definition next_char (st : mstate) : option ascii :=
  match rest st with "" => None | String c _ => Some c end.

Section Matcher.
(** [re.IGNORECASE] *)
Variable ignorecase : bool.

Definition chr_matches (c d : ascii) : bool :=
  if ignorecase
  then Ascii.eqb (Str.lower_char c) (Str.lower_char d)
  else Ascii.eqb c d.

Definition set_matches (p : ascii -> bool) (d : ascii) : bool :=
  if ignorecase
  then p d || p (Str.lower_char d) || p (Str.upper_char d)
  else p d.

Definition single (ok : ascii -> bool) (st : mstate) : list mstate :=
  match advance st with
  | Some (d, st') => if ok d then [st'] else []
  | None => []
  end.

(** The positions at which a match of [r] started at [st] can end, in
    the order of the backtracking search. *)
Fixpoint run (r : regex) (st : mstate) : list mstate :=
  match r with
  | Chr c => single (chr_matches c) st
  | Set_ p => single (set_matches p) st
  | Dot => single (fun d => negb (Ascii.eqb d "010")) st
  | Seq r1 r2 => flat_map (run r2) (run r1 st)
  | Star r' => greedy (run r') (String.length (rest st)) st
  | LazyStar r' => lazy (run r') (String.length (rest st)) st
  | Opt r' => run r' st ++ [st]
  | Bol => match prev st with None => [st] | Some _ => [] end
  | Eol =>
      match rest st with
      | "" => [st]
      | String "010" "" => [st]
      | _ => []
      end
  | WordB =>
      if xorb (at_word (prev st)) (at_word (next_char st)) then [st] else []
  | Group r' =>
      map (fun st' =>
             MState (prev st') (rest st')
               (caps st' ++
                [Str.take (String.length (rest st) - String.length (rest st'))
                   (rest st)]))
          (run r' st)
  end.

(** The first match at a position: its length and its groups. *)
Definition match_at (r : regex) (p : option ascii) (s : string)
  : option (nat * list string) :=
  match run r (MState p s []) with
  | st :: _ => Some (String.length s - String.length (rest st), caps st)
  | [] => None
  end.

(** [pattern.match(s)] as a truth value *)
Definition matches (r : regex) (s : string) : bool :=
  match match_at r None s with Some _ => true | None => false end.

(** [pattern.search(s)] as a truth value *)
Fixpoint search_from (r : regex) (p : option ascii) (s : string) : bool :=
  match match_at r p s with
  | Some _ => true
  | None =>
      match s with
      | "" => false
      | String c s' => search_from r (Some c) s'
      end
  end.

Definition search (r : regex) (s : string) : bool := search_from r None s.

(** [pattern.findall(s)]: the matches from left to right, each as the
    matched text followed by its groups; the scan resumes where a
    match ended. *)
Fixpoint findall_from (r : regex) (p : option ascii) (skip : nat)
    (s : string) : list (string * list string) :=
  match skip with
  | S k =>
      match s with
      | "" => []
      | String c s' => findall_from r (Some c) k s'
      end
  | O =>
      match match_at r p s, s with
      | Some (n, g), String c s' =>
          (Str.take n s, g) :: findall_from r (Some c) (n - 1) s'
      | Some (n, g), "" => [(Str.take n s, g)]
      | None, String c s' => findall_from r (Some c) 0 s'
      | None, "" => []
      end
  end.

Definition findall (r : regex) (s : string) : list (string * list string) :=
  findall_from r None 0 s.

(** [pattern.sub(repl, s)] for a replacement without group references *)
Fixpoint sub_from (r : regex) (repl : string) (p : option ascii)
    (skip : nat) (s : string) : string :=
  match skip with
  | S k =>
      match s with
      | "" => ""
      | String c s' => sub_from r repl (Some c) k s'
      end
  | O =>
      match match_at r p s, s with
      | Some (S n, _), String c s' => repl ++ sub_from r repl (Some c) n s'
      | Some (O, _), String c s' =>
          repl ++ String c (sub_from r repl (Some c) 0 s')
      | Some _, "" => repl
      | None, String c s' => String c (sub_from r repl (Some c) 0 s')
      | None, "" => ""
      end
  end.

Definition sub (r : regex) (repl s : string) : string :=
  sub_from r repl None 0 s.

End Matcher.

End Re.


(** ** emailscope/extractor.py *)

Module Extractor.
Import Re.

(** The classes [A-Za-z0-9._%+-], [A-Za-z0-9.-] and [A-Z|a-z] *)
Definition local_char (c : ascii) : bool := alnum c || one_of "._%+-" c.
Definition domain_char (c : ascii) : bool := alnum c || one_of ".-" c.
Definition tld_char (c : ascii) : bool := alpha c || Ascii.eqb c "|".
Definition ws : regex := Set_ Str.is_space.

(** local@domain.tld, the core of the patterns:
    [A-Za-z0-9._%+-]+@[A-Za-z0-9.-]+\.[A-Z|a-z]{2,} *)
Definition plain_email : regex :=
  Seq (Plus (Set_ local_char))
  (Seq (Chr "@")
  (Seq (Plus (Set_ domain_char))
  (Seq (Chr ".") (AtLeast2 (Set_ tld_char))))).

(** [self.email_patterns]: each pattern with its [re.I] flag *)
Definition email_patterns : list (bool * regex) :=
  [ (* \b[A-Za-z0-9._%+-]+@[A-Za-z0-9.-]+\.[A-Z|a-z]{2,}\b *)
    (false, Seq WordB (Seq plain_email WordB));
    (* \b[A-Za-z0-9._%+-]+\s*@\s*[A-Za-z0-9.-]+\.[A-Z|a-z]{2,}\b *)
    (false,
     Seq WordB (Seq (Plus (Set_ local_char))
     (Seq (Star ws) (Seq (Chr "@") (Seq (Star ws)
     (Seq (Plus (Set_ domain_char))
     (Seq (Chr ".") (Seq (AtLeast2 (Set_ tld_char)) WordB))))))));
    (* \([A-Za-z0-9._%+-]+@[A-Za-z0-9.-]+\.[A-Z|a-z]{2,}\) *)
    (false, Seq (Chr "(") (Seq plain_email (Chr ")")));
    (* \b[A-Za-z0-9._%+-]+\s+at\s+[A-Za-z0-9.-]+\s+dot\s+[A-Z|a-z]{2,}\b *)
    (true,
     Seq WordB (Seq (Plus (Set_ local_char))
     (Seq (Plus ws) (Seq (Lit "at") (Seq (Plus ws)
     (Seq (Plus (Set_ domain_char))
     (Seq (Plus ws) (Seq (Lit "dot") (Seq (Plus ws)
     (Seq (AtLeast2 (Set_ tld_char)) WordB))))))))));
    (* \b[A-Za-z0-9._%+-]+\s*\[at\]\s*[A-Za-z0-9.-]+\s*\[dot\]\s*[A-Z|a-z]{2,}\b *)
    (true,
     Seq WordB (Seq (Plus (Set_ local_char))
     (Seq (Star ws) (Seq (Lit "[at]") (Seq (Star ws)
     (Seq (Plus (Set_ domain_char))
     (Seq (Star ws) (Seq (Lit "[dot]") (Seq (Star ws)
     (Seq (AtLeast2 (Set_ tld_char)) WordB)))))))))) ].

(** [self.common_formats] *)
Definition common_formats : list string :=
  [ "info@{domain}"; "contact@{domain}"; "hello@{domain}"; "support@{domain}";
    "sales@{domain}"; "admin@{domain}"; "team@{domain}"; "office@{domain}";
    "help@{domain}"; "service@{domain}"; "inquiry@{domain}";
    "general@{domain}"; "main@{domain}"; "primary@{domain}" ].

(** [self.industry_patterns], a dictionary read by key *)
Definition industry_patterns (industry : string) : option (list string) :=
  if String.eqb industry "tech" then
    Some ["dev@{domain}"; "tech@{domain}"; "engineering@{domain}";
          "developers@{domain}"]
  else if String.eqb industry "media" then
    Some ["press@{domain}"; "media@{domain}"; "news@{domain}";
          "editor@{domain}"]
  else if String.eqb industry "finance" then
    Some ["finance@{domain}"; "accounting@{domain}"; "billing@{domain}";
          "payments@{domain}"]
  else if String.eqb industry "healthcare" then
    Some ["medical@{domain}"; "health@{domain}"; "patient@{domain}";
          "clinic@{domain}"]
  else if String.eqb industry "education" then
    Some ["academic@{domain}"; "education@{domain}"; "student@{domain}";
          "faculty@{domain}"]
  else if String.eqb industry "retail" then
    Some ["store@{domain}"; "shop@{domain}"; "orders@{domain}";
          "customers@{domain}"]
  else None.

(** [self.email_context_keywords] *)
Definition email_context_keywords : list string :=
  [ "email"; "contact"; "reach"; "get in touch"; "write to"; "send to";
    "mail"; "message"; "inquiry"; "question"; "support"; "help" ].

(** [template.format(domain=d)] for a template whose only field is
    [{domain}] *)
Definition format_domain (template d : string) : string :=
  Str.replace "{domain}" d template.

Definition _is_valid_email (email : string) : bool :=
  if String.eqb email "" || negb (Str.has_char "@" email) then false
  else
    let parts := Str.split "@" email in
    if negb (Nat.eqb (List.length parts) 2) then false
    else
      let local := Str.item parts 0 in
      let domain := Str.item parts 1 in
      if String.eqb local "" || (64 <? Str.len local)%Z then false
      else if String.eqb domain "" || (255 <? Str.len domain)%Z then false
      else if negb (matches false
                      (Seq Bol (Seq (Plus (Set_ local_char)) Eol)) local)
      then false
      else if negb (matches false
                      (Seq Bol (Seq (Plus (Set_ domain_char))
                         (Seq (Chr ".") (Seq (AtLeast2 (Set_ alpha)) Eol))))
                      domain)
      then false
      else true.

Definition _normalize_email (email : string) : string :=
  if String.eqb email "" then ""
  else
    (* Remove parentheses *)
    let email := Str.strip_by (one_of "()") email in
    (* Clean spaces around @ symbol *)
    let email := sub false (Seq (Star ws) (Seq (Chr "@") (Star ws))) "@" email in
    (* Clean spaces around dots *)
    let email := sub false (Seq (Star ws) (Seq (Chr ".") (Star ws))) "." email in
    (* Remove extra spaces *)
    let email := Str.strip email in
    Str.lower email.

(** [emails.add(clean_email)] under the guard both scanning loops share *)
Definition add_clean (emails : gset string) (email : string) : gset string :=
  let clean_email := _normalize_email email in
  if negb (String.eqb clean_email "") && _is_valid_email clean_email
  then {[clean_email]} ∪ emails
  else emails.

(** The loop over the (user, domain, tld) tuples of an obfuscation pattern *)
Definition add_obfuscated (emails : gset string) (m : string * list string)
  : gset string :=
  match snd m with
  | [user; domain; tld] =>
      let email := user ++ "@" ++ domain ++ "." ++ tld in
      if _is_valid_email email then {[Str.lower email]} ∪ emails else emails
  | _ => emails
  end.

Definition _extract_obfuscated_emails (content : string) : gset string :=
  let emails : gset string := ∅ in
  (* \b([A-Za-z0-9._%+-]+)\s+at\s+([A-Za-z0-9.-]+)\s+dot\s+([A-Z|a-z]{2,})\b *)
  let at_dot_pattern :=
    Seq WordB (Seq (Group (Plus (Set_ local_char)))
    (Seq (Plus ws) (Seq (Lit "at") (Seq (Plus ws)
    (Seq (Group (Plus (Set_ domain_char)))
    (Seq (Plus ws) (Seq (Lit "dot") (Seq (Plus ws)
    (Seq (Group (AtLeast2 (Set_ tld_char))) WordB))))))))) in
  let emails := fold_left add_obfuscated (findall true at_dot_pattern content) emails in
  (* \b([A-Za-z0-9._%+-]+)\s*\[at\]\s*([A-Za-z0-9.-]+)\s*\[dot\]\s*([A-Z|a-z]{2,})\b *)
  let bracket_pattern :=
    Seq WordB (Seq (Group (Plus (Set_ local_char)))
    (Seq (Star ws) (Seq (Lit "[at]") (Seq (Star ws)
    (Seq (Group (Plus (Set_ domain_char)))
    (Seq (Star ws) (Seq (Lit "[dot]") (Seq (Star ws)
    (Seq (Group (AtLeast2 (Set_ tld_char))) WordB))))))))) in
  fold_left add_obfuscated (findall true bracket_pattern content) emails.

(** The pattern built for one context keyword:
    (?:keyword[^@]*?)([A-Za-z0-9._%+-]+@[A-Za-z0-9.-]+\.[A-Z|a-z]{2,}) *)
Definition context_pattern (keyword : string) : regex :=
  Seq (Seq (Lit keyword) (LazyStar (Set_ (fun c => negb (Ascii.eqb c "@")))))
      (Group plain_email).

(** With one group, [findall] yields the text of the group. *)
Definition group1 (m : string * list string) : string :=
  match snd m with g :: _ => g | [] => fst m end.

Definition _extract_emails_from_context (content : string) : gset string :=
  fold_left
    (fun emails keyword =>
       fold_left add_clean
         (map group1 (findall true (context_pattern keyword) content)) emails)
    email_context_keywords ∅.

Definition extract_emails_from_content (content : string) : gset string :=
  let emails : gset string := ∅ in
  if String.eqb content "" then emails
  else
    (* Try all email patterns *)
    let emails :=
      fold_left
        (fun emails pattern =>
           fold_left add_clean
             (map fst (findall (fst pattern) (snd pattern) content)) emails)
        email_patterns emails in
    (* Handle obfuscated emails *)
    let emails := emails ∪ _extract_obfuscated_emails content in
    (* Extract emails from context *)
    emails ∪ _extract_emails_from_context content.

(** The markup, as far as the extractor reads it: the [href] values of the
    anchor elements that carry one, in document order. *)
Definition soup : Type := list string.

Definition extract_emails_from_links (page : soup) : gset string :=
  (* Find mailto links: href matches ^mailto: case-insensitively *)
  let mailto_links := List.filter (fun href => search true (Seq Bol (Lit "mailto:")) href) page in
  fold_left
    (fun emails href =>
       if Str.startswith "mailto:" href then
         let email := Str.drop 7 href in
         (* Remove query parameters *)
         let email := Str.item (Str.split "?" email) 0 in
         let clean_email := Str.lower (Str.strip email) in
         if _is_valid_email clean_email then {[clean_email]} ∪ emails else emails
       else emails)
    mailto_links ∅.

Definition _detect_industry (domain : string) : string :=
  let tech_keywords := ["tech"; "software"; "app"; "dev"; "code"; "digital"; "it"; "computer"] in
  let media_keywords := ["media"; "news"; "press"; "blog"; "content"; "publishing"] in
  let finance_keywords := ["bank"; "finance"; "financial"; "investment"; "capital"; "money"] in
  let healthcare_keywords := ["health"; "medical"; "clinic"; "hospital"; "doctor"; "care"] in
  let education_keywords := ["edu"; "university"; "college"; "school"; "academy"; "institute"] in
  let retail_keywords := ["shop"; "store"; "market"; "commerce"; "retail"; "buy"] in
  if Str.any (fun keyword => Str.contains keyword domain) tech_keywords then "tech"
  else if Str.any (fun keyword => Str.contains keyword domain) media_keywords then "media"
  else if Str.any (fun keyword => Str.contains keyword domain) finance_keywords then "finance"
  else if Str.any (fun keyword => Str.contains keyword domain) healthcare_keywords then "healthcare"
  else if Str.any (fun keyword => Str.contains keyword domain) education_keywords then "education"
  else if Str.any (fun keyword => Str.contains keyword domain) retail_keywords then "retail"
  else "general".

Definition _generate_industry_emails (domain : string) : list string :=
  let domain_lower := Str.lower domain in
  (* Detect industry based on domain keywords *)
  let industry := _detect_industry domain_lower in
  match industry_patterns industry with
  | Some patterns => map (fun pattern => format_domain pattern domain) patterns
  | None => []
  end.

Definition _generate_company_emails (domain : string) : list string :=
  let emails : list string := [] in
  (* Extract company name from domain *)
  let company_name := Str.item (Str.split "." domain) 0 in
  (* Generate emails based on company name *)
  let company_emails :=
    [ company_name ++ "@" ++ domain;
      "info@" ++ company_name ++ ".com";
      "contact@" ++ company_name ++ ".com";
      "hello@" ++ company_name ++ ".com" ] in
  (* Add company-specific patterns: they go to [emails] *)
  let emails :=
    if (3 <? Str.len company_name)%Z then
      let short_name := Str.take 3 company_name in
      List.app emails [ short_name ++ "@" ++ domain; "info@" ++ short_name ++ ".com" ]
    else emails in
  (* and the function returns [company_emails] *)
  company_emails.

Definition generate_common_emails (domain : string) : list string :=
  (* Clean domain *)
  let clean_domain := Str.strip (Str.lower domain) in
  let clean_domain :=
    if Str.startswith "www." clean_domain then Str.drop 4 clean_domain
    else clean_domain in
  (* Generate standard common emails *)
  let emails := map (fun format_template => format_domain format_template clean_domain)
                    common_formats in
  (* Generate industry-specific emails *)
  let emails := List.app emails (_generate_industry_emails clean_domain) in
  (* Generate company-specific emails *)
  List.app emails (_generate_company_emails clean_domain).

(** The three loops that fill [email_sources]: a later assignment to a key
    overwrites an earlier one. *)
Definition tag_all (source : string) (emails : list string)
    (email_sources : gmap string string) : gmap string string :=
  fold_left (fun m email => <[email := source]> m) emails email_sources.

Definition extract_all_emails (content : string) (page : option soup)
    (domain : option string)
  : gset string * gset string * gmap string string :=
  let found_emails : gset string := ∅ in
  let generated_emails : gset string := ∅ in
  let email_sources : gmap string string := ∅ in
  (* Extract from content *)
  let content_emails := extract_emails_from_content content in
  let found_emails := found_emails ∪ content_emails in
  let email_sources := tag_all "found" (elements content_emails) email_sources in
  (* Extract from links *)
  let '(found_emails, email_sources) :=
    match page with
    | Some page =>
        let link_emails := extract_emails_from_links page in
        (found_emails ∪ link_emails,
         tag_all "mailto_link" (elements link_emails) email_sources)
    | None => (found_emails, email_sources)
    end in
  (* Generate common emails if domain provided *)
  let '(generated_emails, email_sources) :=
    match domain with
    | Some domain =>
        if String.eqb domain "" then (generated_emails, email_sources)
        else
          let generated_emails_list := generate_common_emails domain in
          (generated_emails ∪ list_to_set generated_emails_list,
           tag_all "generated" generated_emails_list email_sources)
    | None => (generated_emails, email_sources)
    end in
  (found_emails, generated_emails, email_sources).

Definition get_email_confidence_score (email source domain : string) : Z :=
  let base_score := 0%Z in
  (* Source-based scoring *)
  let base_score :=
    if String.eqb source "mailto_link" then 90%Z
    else if String.eqb source "found" then 70%Z
    else if String.eqb source "generated" then 30%Z
    else base_score in
  (* Domain matching bonus *)
  let email_domain :=
    if Str.has_char "@" email then Str.item (Str.split "@" email) 1 else "" in
  let base_score :=
    if String.eqb (Str.lower email_domain) (Str.lower domain)
    then (base_score + 10)%Z else base_score in
  (* Common email patterns bonus *)
  let common_patterns := ["info"; "contact"; "hello"; "support"; "sales"; "admin"] in
  let email_local :=
    if Str.has_char "@" email then Str.item (Str.split "@" email) 0 else "" in
  let base_score :=
    if Str.any (fun pattern => Str.contains pattern (Str.lower email_local))
               common_patterns
    then (base_score + 5)%Z else base_score in
  Z.min base_score 100.

End Extractor.


(** ** emailscope/verifier.py *)

Module Verifier.
Import Re.

(** The fields of [self] that the verifier reads. *)
Record EmailVerifier : Type := {
  timeout : Z;
  mock_dns : bool
}.

(** [self.email_pattern]:
    ^[a-zA-Z0-9]([a-zA-Z0-9._+-]*[a-zA-Z0-9])?@[a-zA-Z0-9]([a-zA-Z0-9.-]*[a-zA-Z0-9])?\.[a-zA-Z]{2,}$ *)
Definition email_pattern : regex :=
  Seq Bol
  (Seq (Set_ alnum)
  (Seq (Opt (Group (Seq (Star (Set_ (fun c => alnum c || one_of "._+-" c)))
                        (Set_ alnum))))
  (Seq (Chr "@")
  (Seq (Set_ alnum)
  (Seq (Opt (Group (Seq (Star (Set_ (fun c => alnum c || one_of ".-" c)))
                        (Set_ alnum))))
  (Seq (Chr ".")
  (Seq (AtLeast2 (Set_ alpha)) Eol))))))).

(** [self.disposable_domains] *)
Definition disposable_domains : list string :=
  [ "10minutemail.com"; "tempmail.org"; "guerrillamail.com"; "mailinator.com";
    "throwaway.email"; "temp-mail.org"; "getnada.com"; "maildrop.cc";
    "yopmail.com"; "tempail.com"; "sharklasers.com"; "guerrillamailblock.com" ].

(** [self.reputable_domains] *)
Definition reputable_domains : list string :=
  [ "gmail.com"; "yahoo.com"; "outlook.com"; "hotmail.com"; "icloud.com";
    "aol.com"; "protonmail.com"; "zoho.com"; "fastmail.com" ].

Definition _validate_email_format (email : string) : bool * string :=
  if String.eqb email "" then (false, "Empty or invalid input")
  (* Basic structure check *)
  else if negb (Str.has_char "@" email) || negb (Str.count "@" email =? 1)%Z
  then (false, "Invalid email structure")
  else
    let local := Str.item (Str.split "@" email) 0 in
    let domain := Str.item (Str.split "@" email) 1 in
    (* Check local part *)
    if String.eqb local "" || (64 <? Str.len local)%Z
    then (false, "Invalid local part")
    (* Check domain part *)
    else if String.eqb domain "" || (253 <? Str.len domain)%Z
    then (false, "Invalid domain part")
    (* Check for consecutive dots *)
    else if Str.contains ".." email
    then (false, "Consecutive dots not allowed")
    (* Check for invalid characters *)
    else if negb (matches false email_pattern email)
    then (false, "Invalid characters or format")
    (* Check domain has at least one dot *)
    else if negb (Str.has_char "." domain)
    then (false, "Domain must have TLD")
    (* Check TLD is at least 2 characters *)
    else
      let tld := Str.last_item (Str.split "." domain) in
      if (Str.len tld <? 2)%Z then (false, "TLD too short")
      else (true, "Valid format").

(** The patterns of [_check_disposable_email], searched with
    [re.IGNORECASE] *)
Definition disposable_patterns : list regex :=
  [ (* temp.*mail *)  Seq (Lit "temp") (Seq (Star Dot) (Lit "mail"));
    (* throw.*away *) Seq (Lit "throw") (Seq (Star Dot) (Lit "away"));
    (* fake.*mail *)  Seq (Lit "fake") (Seq (Star Dot) (Lit "mail"));
    (* test.*mail *)  Seq (Lit "test") (Seq (Star Dot) (Lit "mail"));
    (* no.*reply *)   Seq (Lit "no") (Seq (Star Dot) (Lit "reply"));
    (* noreply *)     Lit "noreply";
    (* do.*not.*reply *)
    Seq (Lit "do") (Seq (Star Dot) (Seq (Lit "not") (Seq (Star Dot) (Lit "reply")))) ].

Definition _check_disposable_email (domain : string) : bool * string :=
  if Str.mem domain disposable_domains
  then (true, "Known disposable domain: " ++ domain)
  (* Check for common disposable patterns *)
  else if Str.any (fun pattern => search true pattern domain) disposable_patterns
  then (true, "Disposable pattern detected: " ++ domain)
  else (false, "Not disposable").

(** The patterns of [_check_domain_reputation] *)
Definition suspicious_patterns : list regex :=
  [ (* [0-9]{4,} *)            AtLeast4 (Set_ digit);
    (* [a-z]{1,2}[0-9]{3,} *)  Seq (OneOrTwo (Set_ lower_az)) (AtLeast3 (Set_ digit));
    (* [0-9]{3,}[a-z]{1,2} *)  Seq (AtLeast3 (Set_ digit)) (OneOrTwo (Set_ lower_az)) ].

Definition _check_domain_reputation (domain : string) : Z * string :=
  (* High reputation domains *)
  if Str.mem domain reputable_domains
  then (90%Z, "High reputation domain: " ++ domain)
  (* Check for suspicious patterns *)
  else if Str.any (fun pattern => search false pattern domain) suspicious_patterns
  then (20%Z, "Suspicious pattern: " ++ domain)
  (* Check domain length *)
  else if (Str.len domain <? 5)%Z then (30%Z, "Very short domain: " ++ domain)
  else if (30 <? Str.len domain)%Z then (40%Z, "Very long domain: " ++ domain)
  (* Default reputation for unknown domains *)
  else (60%Z, "Unknown domain: " ++ domain).

Definition _calculate_enhanced_confidence (format_valid mx_valid smtp_valid : bool)
    (reputation_score : Z) (domain : string) : Z :=
  let base_score := 0%Z in
  (* Format validation (required) *)
  if negb format_valid then 0%Z
  else
    let base_score := (base_score + 20)%Z in
    (* MX record check (required) *)
    if negb mx_valid then 0%Z
    else
      let base_score := (base_score + 30)%Z in
      (* SMTP check (bonus) *)
      let base_score := if smtp_valid then (base_score + 20)%Z else base_score in
      (* Domain reputation *)
      let base_score := (base_score + Z.min reputation_score 30)%Z in
      (* Domain-specific bonuses *)
      let base_score :=
        if Str.mem domain reputable_domains then (base_score + 10)%Z
        else base_score in
      (* Penalty for suspicious domains *)
      let base_score :=
        if (Str.len domain <? 5)%Z || (30 <? Str.len domain)%Z
        then (base_score - 10)%Z else base_score in
      Z.min (Z.max base_score 0) 100.

Section Verify.

(** The answer of the resolver to the MX query of [_check_mx_record]: the
    verdict and the reason the method reports with it. *)
Variable _check_mx_record : string -> bool * string.

Definition verify_email (self : EmailVerifier) (email : string)
  : bool * Z * string :=
  (* Enhanced format validation *)
  let '(format_valid, format_reason) := _validate_email_format email in
  if negb format_valid then (false, 0%Z, "Format invalid: " ++ format_reason)
  else
    let domain := Str.lower (Str.item (Str.split "@" email) 1) in
    (* Check for disposable email *)
    let '(disposable_check, disposable_reason) := _check_disposable_email domain in
    if disposable_check
    then (false, 10%Z, "Disposable email: " ++ disposable_reason)
    else
      (* Check domain reputation *)
      let '(reputation_score, reputation_reason) := _check_domain_reputation domain in
      (* Check MX record *)
      let '(mx_valid, mx_reason) :=
        if mock_dns self then (true, "Mock DNS - assumed valid")
        else _check_mx_record domain in
      if negb mx_valid then (false, 0%Z, "MX check failed: " ++ mx_reason)
      else
        (* Enhanced SMTP check (optional for speed) *)
        let smtp_valid := true in
        (* Calculate enhanced confidence score *)
        let confidence :=
          _calculate_enhanced_confidence format_valid mx_valid smtp_valid
            reputation_score domain in
        (* Determine overall validity with enhanced criteria *)
        let is_valid :=
          format_valid && mx_valid && (30 <? confidence)%Z && negb disposable_check in
        (* Enhanced reason reporting *)
        let reasons : list string :=
          List.app (if format_valid then ["Format: OK"] else [])
          (List.app (if mx_valid then ["MX: OK"] else [])
          (List.app (if smtp_valid then ["SMTP: OK"] else [])
          (List.app (if (0 <? reputation_score)%Z
                     then ["Reputation: " ++ Str.of_Z reputation_score ++ "/100"]
                     else [])
                    (if negb disposable_check then ["Not disposable"] else [])))) in
        (is_valid, confidence, Str.join ", " reasons).

End Verify.

End Verifier.


(** ** emailscope/crawler.py *)

Module Crawler.

(** The configuration held by [self] that decides what a crawl returns;
    [delay], [timeout] and [rate_limit] only pace the requests. *)
Record WebCrawler : Type := {
  bypass_robots : bool;
  max_depth : Z;
  max_pages : Z
}.

(** What one request of the crawl loop yields: a page, given by the
    [href] attributes of its [a] elements in the order of the document
    (what [soup.find_all('a', href=True)] runs through), no page
    ([_fetch_page] returned [None]), or an exception that leaves the
    loop. *)
Inductive fetched : Type :=
| Page (hrefs : list string)
| NoPage
| Raises.

(** What [urlparse] reads in a URL, as far as the crawler looks at it *)
Record ParseResult : Type := {
  scheme : string;
  netloc : string;
  path : string;
  query : string
}.

(** What lies outside the crawler as one crawl sees it: the site, and the
    answers of [urljoin] and [urlparse] of [urllib.parse], [None] standing
    for a call that raises. *)
Record Web : Type := {
  robots_allows : string -> bool;   (* the robots.txt check when it is made *)
  fetch : string -> fetched;
  urljoin : string -> string -> option string;
  urlparse : string -> option ParseResult
}.

(** The variables of a crawl: the three sets of [self], the two locals of
    [crawl_company_website], and [trace], the successive values taken by
    [discovered_urls], recorded so that properties of every step of the
    crawl can be stated. *)
Record vars : Type := Vars {
  visited_urls : gset string;
  crawled_urls : gset string;
  failed_urls : gset string;
  urls_to_crawl : list string;
  discovered_urls : gset string;
  trace : list (gset string)
}.

Definition priority_keywords : list string :=
  [ "contact"; "about"; "team"; "staff"; "people"; "leadership"; "management";
    "support"; "help"; "info"; "news"; "press"; "media"; "company";
    "services"; "products"; "solutions"; "careers"; "jobs"; "hiring" ].

Definition link_priority (link : string) : Z :=
  let score := 0%Z in
  let link_lower := Str.lower link in
  (* High priority for contact-related pages *)
  let score :=
    fold_left (fun score keyword =>
                 if Str.contains keyword link_lower then (score + 10)%Z else score)
              priority_keywords score in
  (* Medium priority for main sections *)
  let score :=
    if Str.any (fun section => Str.contains section link_lower)
               ["/"; "/home"; "/index"]
    then (score + 5)%Z else score in
  (* Lower priority for deep paths *)
  let path_depth := (Str.count "/" link - 2)%Z in
  (score - path_depth)%Z.

(** [sorted(l, key=key, reverse=True)]: the order is by decreasing key and
    elements with equal keys stay in their order of arrival. *)
Fixpoint insert_desc {A} (key : A -> Z) (x : A) (l : list A) : list A :=
  match l with
  | [] => [x]
  | y :: l' => if (key x <? key y)%Z then y :: insert_desc key x l' else x :: l
  end.

Definition sorted_desc {A} (key : A -> Z) (l : list A) : list A :=
  fold_right (insert_desc key) [] l.

Definition _prioritize_links_by_relevance (links : list string) (domain : string)
  : list string :=
  sorted_desc link_priority links.

Definition skip_patterns : list string :=
  [ "/wp-admin/"; "/admin/"; "/login/"; "/register/"; "/signup/";
    "/logout/"; "/api/"; "/ajax/"; "/static/"; "/assets/"; "/css/";
    "/js/"; "/images/"; "/img/"; "/photos/"; "/videos/"; "/media/";
    "/download/"; "/files/"; "/documents/"; "/pdf/"; "/doc/";
    "/search/"; "/filter/"; "/sort/"; "/page/"; "/tag/"; "/category/";
    "/archive/"; "/feed/"; "/rss/"; "/sitemap"; "/robots.txt";
    "/favicon.ico"; "/apple-touch-icon"; "/manifest.json" ].

Definition skip_extensions : list string :=
  [ ".pdf"; ".doc"; ".docx"; ".xls"; ".xlsx"; ".ppt"; ".pptx";
    ".zip"; ".rar"; ".tar"; ".gz"; ".jpg"; ".jpeg"; ".png"; ".gif";
    ".svg"; ".ico"; ".css"; ".js"; ".xml"; ".json"; ".txt" ].

(** [domain.replace('https://', '').replace('http://', '').split('/')[0]] *)
Definition domain_parts (domain : string) : string :=
  Str.item (Str.split "/" (Str.replace "http://" "" (Str.replace "https://" "" domain))) 0.

(** The test one link passes to be kept by [_filter_and_prioritize_links] *)
Definition keeps (v : vars) (domain link : string) : bool :=
  (* Skip if already visited or failed *)
  if bool_decide (link ∈ visited_urls v) || bool_decide (link ∈ failed_urls v) then false
  (* Must be from same domain *)
  else if negb (Str.contains (domain_parts domain) link) then false
  (* Skip common non-content URLs *)
  else if Str.any (fun pattern => Str.contains pattern (Str.lower link)) skip_patterns then false
  (* Skip file extensions *)
  else if Str.any (fun ext => Str.endswith ext (Str.lower link)) skip_extensions then false
  else true.

Definition _filter_and_prioritize_links (v : vars) (links : list string)
    (domain : string) : list string :=
  let filtered_links := List.filter (keeps v domain) links in
  (* Prioritize by relevance *)
  _prioritize_links_by_relevance filtered_links domain.

(** [l[:n]] for an integer [n] of either sign *)
Definition slice_to {A} (n : Z) (l : list A) : list A :=
  if (0 <=? n)%Z then firstn (Z.to_nat n) l
  else firstn (List.length l - Z.to_nat (- n)) l.

(** Remove duplicates while preserving order *)
Fixpoint unique_from (seen : gset string) (urls : list string) : list string :=
  match urls with
  | [] => []
  | url :: urls' =>
      if bool_decide (url ∈ seen) then unique_from seen urls'
      else url :: unique_from ({[url]} ∪ seen) urls'
  end.

Definition _prioritize_urls (self : WebCrawler) (urls : list string)
    (domain : string) : list string :=
  let unique_urls := unique_from ∅ urls in
  (* Apply final prioritization *)
  let prioritized := _prioritize_links_by_relevance unique_urls domain in
  (* Limit to max pages *)
  slice_to (max_pages self) prioritized.

Section Crawl.

Variable self : WebCrawler.
Variable web : Web.

Definition _check_robots_txt (domain : string) : bool :=
  if bypass_robots self then true else robots_allows web domain.

Definition size_Z (s : gset string) : Z := Z.of_nat (size s).

(** Add new links for next depth: one turn of the innermost loop *)
Definition add_link (depth : Z) (v : vars) (link : string) : vars :=
  if negb (bool_decide (link ∈ discovered_urls v))
     && (size_Z (discovered_urls v) <? max_pages self)%Z
  then
    let discovered := {[link]} ∪ discovered_urls v in
    Vars (visited_urls v) (crawled_urls v) (failed_urls v)
         (if (depth <? max_depth self)%Z
          then List.app (urls_to_crawl v) [link] else urls_to_crawl v)
         discovered
         (List.app (trace v) [discovered])
  else v.

(** How a loop of the crawl ends: normally (or by [break]), or by an
    exception; the variables are those reached at that point. *)
Inductive outcome : Type :=
| Completed (v : vars)
| Raised (v : vars).

Definition vars_of (o : outcome) : vars :=
  match o with Completed v => v | Raised v => v end.

(** Check if URL is internal to the domain; [except: return False] *)
Definition _is_internal_link (url base_url : string) : bool :=
  match urlparse web url with
  | Some parsed_url =>
      match urlparse web base_url with
      | Some parsed_base => String.eqb (netloc parsed_url) (netloc parsed_base)
      | None => false
      end
  | None => false
  end.

(** Clean URL by removing fragments; [None] when [urlparse] raises *)
Definition _clean_url (url : string) : option string :=
  match urlparse web url with
  | Some parsed =>
      let clean_url := scheme parsed ++ "://" ++ netloc parsed ++ path parsed in
      Some (if String.eqb (query parsed) "" then clean_url
            else clean_url ++ "?" ++ query parsed)
  | None => None
  end.

(** [links.add(x)]: the set [links] is kept as the list of its elements
    in their order of arrival. The language does not fix the order in
    which a set is run through; the crawl below runs through it in this
    one. *)
Definition set_add (x : string) (links : list string) : list string :=
  if Str.mem x links then links else List.app links [x].

(** [for link in soup.find_all('a', href=True): ...], [links] being the
    set built so far; [None] when a call raises *)
Fixpoint extract_links_from (soup : list string) (base_url : string)
    (links : list string) : option (list string) :=
  match soup with
  | [] => Some links
  | href :: soup' =>
      match urljoin web base_url href with
      | Some full_url =>
          (* Only include internal links *)
          if _is_internal_link full_url base_url then
            match _clean_url full_url with
            | Some clean_url =>
                extract_links_from soup' base_url (set_add clean_url links)
            | None => None
            end
          else extract_links_from soup' base_url links
      | None => None
      end
  end.

Definition _extract_links (soup : list string) (base_url : string)
  : option (list string) :=
  extract_links_from soup base_url [].

(** [for url in current_batch: ...] *)
Fixpoint process_batch (domain : string) (depth : Z) (current_batch : list string)
    (v : vars) : outcome :=
  match current_batch with
  | [] => Completed v
  | url :: batch' =>
      if (max_pages self <=? size_Z (discovered_urls v))%Z then Completed v
      else if bool_decide (url ∈ visited_urls v)
      then process_batch domain depth batch' v
      else
        (* Fetch page content *)
        match fetch web url with
        | Raises => Raised v
        | NoPage =>
            process_batch domain depth batch'
              (Vars (visited_urls v) (crawled_urls v) ({[url]} ∪ failed_urls v)
                    (urls_to_crawl v) (discovered_urls v) (trace v))
        | Page content =>
            let v := Vars ({[url]} ∪ visited_urls v) ({[url]} ∪ crawled_urls v)
                          (failed_urls v) (urls_to_crawl v) (discovered_urls v)
                          (trace v) in
            (* Extract links from current page *)
            match _extract_links content domain with
            | None => Raised v
            | Some page_links =>
                (* Filter and prioritize links *)
                let filtered_links :=
                  _filter_and_prioritize_links v page_links domain in
                (* Add new links for next depth *)
                process_batch domain depth batch'
                  (fold_left (add_link depth) filtered_links v)
            end
        end
  end.

(** [for depth in range(self.max_depth + 1): ...], [levels] counting the
    depths that remain *)
Fixpoint crawl_levels (domain : string) (levels : nat) (depth : Z) (v : vars)
  : outcome :=
  match levels with
  | O => Completed v
  | S levels' =>
      if match urls_to_crawl v with [] => true | _ => false end
         || (max_pages self <=? size_Z (discovered_urls v))%Z
      then Completed v
      else
        let current_batch := urls_to_crawl v in
        let v := Vars (visited_urls v) (crawled_urls v) (failed_urls v)
                      [] (discovered_urls v) (trace v) in
        match process_batch domain depth current_batch v with
        | Completed v' => crawl_levels domain levels' (depth + 1) v'
        | Raised v' => Raised v'
        end
  end.

(** Ensure domain has protocol *)
Definition with_protocol (domain : string) : string :=
  if Str.startswith "http://" domain || Str.startswith "https://" domain
  then domain else "https://" ++ domain.

(** The traversal, from the homepage on: [domain] has its protocol. *)
Definition crawl_frontier (domain : string) : outcome :=
  (* Start with homepage *)
  let v := Vars ∅ ∅ ∅ [domain] {[domain]} [ {[domain]} ] in
  crawl_levels domain (Z.to_nat (max_depth self + 1)) 0 v.

Definition crawl_company_website (domain : string) : list string :=
  let domain := with_protocol domain in
  (* Check robots.txt first *)
  if negb (_check_robots_txt domain) then []
  else
    match crawl_frontier domain with
    | Completed v =>
        (* Final URL list with prioritization *)
        _prioritize_urls self (elements (discovered_urls v)) domain
    | Raised _ => []
    end.

End Crawl.

End Crawler.

(** ** emailscope/dashboard.py *)

Module Dashboard.

(** The source under which [_verify_email_concurrent] stores an address:
    "generated" if email.startswith(('info@', 'contact@', ...)) else
    "found" *)
Definition stored_source (email : string) : string :=
  if Str.any (fun prefix => Str.startswith prefix email)
       ["info@"; "contact@"; "hello@"; "support@"; "sales@"; "admin@";
        "team@"; "office@"]
  then "generated" else "found".

(** What [_process_page_concurrent] makes of the text of a page: the
    extraction runs without the markup, on the original domain, and the
    tags are dropped. A page without text gives two empty sets. *)
Definition _process_page_concurrent (content : option string)
    (original_domain : string) : gset string * gset string :=
  match content with
  | None => (∅, ∅)
  | Some content =>
      if String.eqb content "" then (∅, ∅)
      else
        let '(found_emails, generated_emails, email_sources) :=
          Extractor.extract_all_emails content None (Some original_domain) in
        (found_emails, generated_emails)
  end.

End Dashboard.

(** * Notions of the specification *)

(** The domain that [verify_email] examines: the text after the [@],
    lower-cased *)
Definition domain_of (email : string) : string :=
  Str.lower (Str.item (Str.split "@" email) 1).

(** The confidence the specification gives to an address that passed
    every stage: 20 + 30 + 20 + min(reputation, 30), plus 10 on the
    allowlist, minus 10 for a domain shorter than 5 or longer than 30,
    clamped to [0, 100] *)
Definition final_confidence (domain : string) : Z :=
  let reputation := fst (Verifier._check_domain_reputation domain) in
  (Z.min
    (Z.max
       (20 + 30 + 20 + Z.min reputation 30
        + (if Str.mem domain Verifier.reputable_domains then 10 else 0)
        - (if (Str.len domain <? 5) || (30 <? Str.len domain) then 10 else 0))
       0)
    100)%Z.

(** The addresses of the mailto links of a page, when markup is given *)
Definition from_links (page : option Extractor.soup) : gset string :=
  match page with
  | Some page => Extractor.extract_emails_from_links page
  | None => ∅
  end.

(** The candidates generated for a target domain, when one is given *)
Definition candidates_for (domain : option string) : gset string :=
  match domain with
  | Some domain =>
      if String.eqb domain "" then ∅
      else list_to_set (Extractor.generate_common_emails domain)
  | None => ∅
  end.

(** The same-domain test of the link filter: the host of the seed occurs in
    the link *)
Definition same_domain (seed url : string) : bool :=
  Str.contains (Crawler.domain_parts seed) url.

(** A link that matches a denylisted path pattern or file extension *)
Definition denylisted (url : string) : bool :=
  Str.any (fun pattern => Str.contains pattern (Str.lower url)) Crawler.skip_patterns
  || Str.any (fun ext => Str.endswith ext (Str.lower url)) Crawler.skip_extensions.

(** The text that [_clean_url] makes of a parsed URL *)
Definition unparse (parsed : Crawler.ParseResult) : string :=
  let clean_url :=
    Crawler.scheme parsed ++ "://" ++ Crawler.netloc parsed ++ Crawler.path parsed in
  if String.eqb (Crawler.query parsed) "" then clean_url
  else clean_url ++ "?" ++ Crawler.query parsed.

(** [url] is a cleaned URL of the site of [seed]: it reads
    scheme://netloc/path?query, the netloc being the one that [urlparse]
    reads in [seed]. *)
Definition on_site (web : Crawler.Web) (seed url : string) : Prop :=
  exists full_url parsed parsed_seed,
    Crawler.urlparse web full_url = Some parsed /\
    Crawler.urlparse web seed = Some parsed_seed /\
    Crawler.netloc parsed = Crawler.netloc parsed_seed /\
    url = unparse parsed.

(** The library of the sample webs: a reading of the absolute URLs
    scheme://netloc/path?query#fragment, and a join for pages whose hrefs
    are all absolute *)
Definition read_url (url : string) : option Crawler.ParseResult :=
  let scheme := Str.item (Str.split ":" url) 0 in
  let rest := Str.item (Str.split "#" (Str.drop (String.length scheme + 3) url)) 0 in
  let before_query := Str.item (Str.split "?" rest) 0 in
  let netloc := Str.item (Str.split "/" before_query) 0 in
  Some {| Crawler.scheme := scheme;
          Crawler.netloc := netloc;
          Crawler.path := Str.drop (String.length netloc) before_query;
          Crawler.query := Str.drop (String.length before_query + 1) rest |}.

Definition join_absolute (base_url href : string) : option string := Some href.


Definition small_web : Crawler.Web :=
  {| Crawler.robots_allows := fun _ => true;
     Crawler.fetch := fun url =>
       if String.eqb url "https://example.com" then
         Crawler.Page ["https://example.com/contact"; "https://example.com/a.pdf";
                       "https://other.org/x"; "https://example.com/admin/x";
                       "http://evil.org/?u=example.com";
                       "https://example.com.attacker.net/contact";
                       "https://example.com/about";
                       "https://example.com/about#history"]
       else if String.eqb url "https://example.com/contact" then
         Crawler.Page ["https://example.com/team"; "https://example.com/jobs"]
       else Crawler.NoPage;
     Crawler.urljoin := join_absolute;
     Crawler.urlparse := read_url |}.

(** The pattern \s*c\s* of the two substitutions of [_normalize_email],
    and the substitution itself *)
Definition around (c : ascii) : Re.regex :=
  Re.Seq (Re.Star Extractor.ws) (Re.Seq (Re.Chr c) (Re.Star Extractor.ws)).

Definition squeeze (c : ascii) (s : string) : string :=
  Re.sub false (around c) (String c "") s.

(** The first character of a string *)
Definition hd_char (s : string) : option ascii :=
  match s with "" => None | String a _ => Some a end.

(** [a] followed by [b] puts white space next to a [c] *)
Definition loose (c a : ascii) (b : option ascii) : bool :=
  match b with
  | Some b => (Str.is_space a && Ascii.eqb b c) || (Ascii.eqb a c && Str.is_space b)
  | None => false
  end.

(** No white space stands next to a [c] in [s] *)
Fixpoint tight (c : ascii) (s : string) : bool :=
  match s with
  | "" => true
  | String a s' => negb (loose c a (hd_char s')) && tight c s'
  end.

(** [strip('()')] *)
Definition strip_parens (s : string) : string :=
  Str.strip_by (Re.one_of "()") s.

(** The order of a descending sort by [key] *)
Definition ge_key {A} (key : A -> Z) (a b : A) : Prop := (key b <= key a)%Z.

(** What every step of a crawl from [seed] keeps true of its variables:
    the seed apart, a discovered URL is a cleaned URL of the site of the
    seed that passed the same-domain test and the denylists; no value of
    the discovered set was larger than [max_pages] (when that is at least
    1); and the trace ends with the current value. *)
Record crawl_inv (self : Crawler.WebCrawler) (web : Crawler.Web) (seed : string)
    (v : Crawler.vars) : Prop := {
  inv_member : forall url, url ∈ Crawler.discovered_urls v ->
               url = seed \/
               (on_site web seed url /\
                same_domain seed url = true /\ denylisted url = false);
  inv_trace : (1 <= Crawler.max_pages self)%Z ->
              Forall (fun discovered =>
                        (Crawler.size_Z discovered <= Crawler.max_pages self)%Z)
                     (Crawler.trace v);
  inv_last : List.last (Crawler.trace v) ∅ = Crawler.discovered_urls v
}.

(** The last character of a string *)
Fixpoint last_char (s : string) : option ascii :=
  match s with
  | "" => None
  | String a s' => match last_char s' with None => Some a | o => o end
  end.

(** A string that neither begins nor ends with a character of the class
    [p] *)
Definition clear_ends (p : ascii -> bool) (s : string) : Prop :=
  match hd_char s with Some a => p a = false | None => True end /\
  match last_char s with Some b => p b = false | None => True end.

(** A pattern that does not tell a letter from its lower-case form: its
    literal characters are no letters and its classes hold a letter in
    both cases or in none *)
Fixpoint case_blind (r : Re.regex) : Prop :=
  match r with
  | Re.Chr c => forall d, Ascii.eqb c (Str.lower_char d) = Ascii.eqb c d
  | Re.Set_ p => forall d, p (Str.lower_char d) = p d
  | Re.Seq r1 r2 => case_blind r1 /\ case_blind r2
  | Re.Star r' | Re.LazyStar r' | Re.Opt r' | Re.Group r' => case_blind r'
  | Re.Dot | Re.Bol | Re.Eol | Re.WordB => True
  end.

(** A position of the matcher, in lower case *)
Definition lower_state (st : Re.mstate) : Re.mstate :=
  Re.MState (option_map Str.lower_char (Re.prev st)) (Str.lower (Re.rest st))
            (map Str.lower (Re.caps st)).

(** A character that is not the lower-case form of another one *)
Definition blind (c : ascii) : Prop :=
  forall d, Ascii.eqb (Str.lower_char d) c = Ascii.eqb d c.

(** An address as the extractor hands it on: accepted by its validator and
    in lower case *)
Definition well_formed (email : string) : Prop :=
  Extractor._is_valid_email email = true /\ Str.lower email = email.

(** The domain as [generate_common_emails] cleans it: lower case, no
    surrounding white space, no leading "www." *)
Definition cleaned (domain : string) : string :=
  let clean_domain := Str.strip (Str.lower domain) in
  if Str.startswith "www." clean_domain then Str.drop 4 clean_domain
  else clean_domain.

(** The company token of a domain: its first label *)
Definition first_label (domain : string) : string :=
  Str.item (Str.split "." domain) 0.

(** What every step of a crawl from [seed] keeps true of its sets, [batch]
    being the part of the current batch still to be processed: no URL is
    both visited and failed; visited and failed URLs are discovered ones;
    [crawled_urls] is [visited_urls]; the URLs still queued are distinct,
    discovered, and neither visited nor failed; and the i-th value taken
    by the discovered set has i elements. *)
Record crawl_sets (seed : string) (batch : list string) (v : Crawler.vars)
  : Prop := {
  cs_disjoint : Crawler.visited_urls v ## Crawler.failed_urls v;
  cs_visited : Crawler.visited_urls v ⊆ Crawler.discovered_urls v;
  cs_failed : Crawler.failed_urls v ⊆ Crawler.discovered_urls v;
  cs_crawled : Crawler.crawled_urls v = Crawler.visited_urls v;
  cs_seed : seed ∈ Crawler.discovered_urls v;
  cs_nodup : NoDup (List.app batch (Crawler.urls_to_crawl v));
  cs_queue : forall u, u ∈ List.app batch (Crawler.urls_to_crawl v) ->
             u ∈ Crawler.discovered_urls v /\
             (u ∉ Crawler.visited_urls v) /\ (u ∉ Crawler.failed_urls v);
  cs_sizes : map size (Crawler.trace v) = seq 1 (List.length (Crawler.trace v));
  cs_last : List.last (Crawler.trace v) ∅ = Crawler.discovered_urls v
}.

(** A web whose robots.txt forbids every crawl *)
Definition blocked_web : Crawler.Web :=
  {| Crawler.robots_allows := fun _ => false;
     Crawler.fetch := fun _ => Crawler.NoPage;
     Crawler.urljoin := join_absolute;
     Crawler.urlparse := read_url |}.

(** Every character of [s] is in the class [p] *)
Fixpoint all_in (p : ascii -> bool) (s : string) : bool :=
  match s with
  | "" => true
  | String c s' => p c && all_in p s'
  end.

(** The character [c] does not occur in [s] *)
Definition free (c : ascii) (s : string) : bool :=
  all_in (fun d => negb (Ascii.eqb d c)) s.

(** The position [st] of the matcher, in a text that goes on with [t] *)
Definition ext (t : string) (st : Re.mstate) : Re.mstate :=
  Re.MState (Re.prev st) (Re.rest st ++ t) (Re.caps st).

(** A pattern whose matches depend on nothing after the text they
    consume: no [$] and no [\b] *)
Fixpoint plain (r : Re.regex) : bool :=
  match r with
  | Re.Chr _ | Re.Set_ _ | Re.Dot | Re.Bol => true
  | Re.Seq r1 r2 => plain r1 && plain r2
  | Re.Star r' | Re.LazyStar r' | Re.Opt r' | Re.Group r' => plain r'
  | Re.Eol | Re.WordB => false
  end.

(** A sequence of plain patterns closed by [$] *)
Fixpoint ends_eol (r : Re.regex) : bool :=
  match r with
  | Re.Eol => true
  | Re.Seq r1 r2 => plain r1 && ends_eol r2
  | _ => false
  end.

(** The character before the position reached when the text [w] has been
    consumed from a position that follows [p] *)
Fixpoint prev_after (p : option ascii) (w : string) : option ascii :=
  match w with
  | "" => p
  | String c w' => prev_after (Some c) w'
  end.

(** * Properties *)

(** ** Candidate generation *)

Section Generation.
Import Extractor.

(** Whatever the domain, [_generate_company_emails] returns the four
    addresses built on the whole company token and nothing else. *)
Lemma company_emails_four (domain : string) :
  exists a b c d, _generate_company_emails domain = [a; b; c; d].
Proof. unfold _generate_company_emails. eauto. Qed.

(** C1. The company token of [example.com] is [example], longer than three
    characters, and yet the candidates for that domain contain neither
    [exa@example.com] nor [info@exa.com]: the truncated-token variants are
    built but not returned. *)
Theorem short_token_variants_missing :
  let domain := "example.com" in
  let token := Str.item (Str.split "." domain) 0 in
  let short := Str.take 3 token in
  (3 < Str.len token)%Z /\
  ~ In (short ++ "@" ++ domain) (generate_common_emails domain) /\
  ~ In ("info@" ++ short ++ ".com") (generate_common_emails domain).
Proof.
  cbv zeta. split; [reflexivity |].
  split; intros H; vm_compute in H; intuition discriminate.
Qed.

End Generation.

(** ** Link ranking *)

Section Ranking.
Import Crawler.

(** C2. The link [https://example.com/xyz/abc] holds no priority keyword
    and lies two segments below the root; its path is neither the root
    nor a home or index page, and its score is 3 = 0 + 5 - 2: the bonus of
    5 is granted all the same. *)
Theorem deep_link_gets_section_bonus :
  let link := "https://example.com/xyz/abc" in
  forallb (fun keyword => negb (Str.contains keyword (Str.lower link)))
          priority_keywords = true /\
  (Str.count "/" link - 2 = 2)%Z /\
  link_priority link = 3%Z.
Proof. cbv zeta. repeat split. Qed.

(** The bonus goes to every link that has a slash. *)
Lemma section_bonus_of_any_slash (link : string) :
  Str.contains "/" (Str.lower link) = true ->
  Str.any (fun section => Str.contains section (Str.lower link))
          ["/"; "/home"; "/index"] = true.
Proof. intros H. unfold Str.any. simpl. rewrite H. reflexivity. Qed.

Section Sorting.
Context {A : Type} (key : A -> Z).

Lemma insert_desc_Forall (P : A -> Prop) x l :
  P x -> Forall P l -> Forall P (insert_desc key x l).
Proof.
  intros Hx Hl. induction Hl as [| y l Hy Hl IH]; simpl.
  - constructor; [exact Hx | constructor].
  - destruct (key x <? key y)%Z.
    + constructor; assumption.
    + constructor; [exact Hx |]. constructor; assumption.
Qed.

Lemma insert_desc_sorted x l :
  StronglySorted (ge_key key) l -> StronglySorted (ge_key key) (insert_desc key x l).
Proof.
  induction 1 as [| y l Hl IH Hy]; simpl.
  - constructor; constructor.
  - destruct (key x <? key y)%Z eqn:E.
    + constructor; [exact IH |].
      apply insert_desc_Forall; [| exact Hy].
      unfold ge_key. apply Z.ltb_lt in E. lia.
    + apply Z.ltb_ge in E.
      constructor; [constructor; assumption |].
      constructor; [exact E |].
      eapply Forall_impl; [exact Hy |].
      unfold ge_key. intros z Hz. lia.
Qed.

Lemma sorted_desc_sorted l : StronglySorted (ge_key key) (sorted_desc key l).
Proof.
  induction l as [| x l IH]; simpl.
  - constructor.
  - apply insert_desc_sorted, IH.
Qed.

Lemma insert_desc_filter k x l :
  List.filter (fun a => key a =? k)%Z (insert_desc key x l)
  = List.filter (fun a => key a =? k)%Z (x :: l).
Proof.
  induction l as [| y l IH]; [reflexivity |].
  cbn [insert_desc]. destruct (key x <? key y)%Z eqn:E; [| reflexivity].
  apply Z.ltb_lt in E.
  cbn [List.filter] in *. rewrite IH.
  destruct (key x =? k)%Z eqn:Ex, (key y =? k)%Z eqn:Ey; try reflexivity.
  apply Z.eqb_eq in Ex, Ey. lia.
Qed.

Lemma sorted_desc_stable k l :
  List.filter (fun a => key a =? k)%Z (sorted_desc key l)
  = List.filter (fun a => key a =? k)%Z l.
Proof.
  induction l as [| x l IH]; [reflexivity |].
  cbn [sorted_desc fold_right]. rewrite insert_desc_filter.
  cbn [List.filter]. fold (sorted_desc key l). rewrite IH. reflexivity.
Qed.

Lemma insert_desc_perm x l : Permutation (x :: l) (insert_desc key x l).
Proof.
  induction l as [| y l IH]; simpl; [reflexivity |].
  destruct (key x <? key y)%Z; [| reflexivity].
  rewrite perm_swap. constructor. exact IH.
Qed.

Lemma sorted_desc_perm l : Permutation l (sorted_desc key l).
Proof.
  induction l as [| x l IH]; simpl; [reflexivity |].
  rewrite <- insert_desc_perm. constructor. exact IH.
Qed.

End Sorting.

(** C6. Link prioritization is a stable descending sort by [link_priority]:
    the output is a rearrangement of the input along which the score never
    increases, and for every score the links of that score come out in the
    order in which they came in. *)
Theorem prioritize_stable_descending (links : list string) (domain : string) :
  let out := _prioritize_links_by_relevance links domain in
  Permutation links out /\
  StronglySorted (fun a b => (link_priority b <= link_priority a)%Z) out /\
  forall score : Z,
    List.filter (fun l => link_priority l =? score)%Z out
    = List.filter (fun l => link_priority l =? score)%Z links.
Proof.
  cbv zeta. unfold _prioritize_links_by_relevance. split; [| split].
  - apply sorted_desc_perm.
  - apply (sorted_desc_sorted link_priority).
  - intros score. apply sorted_desc_stable.
Qed.

End Ranking.

(** ** Verification *)

Section Verification.
Import Verifier.

Variable _check_mx_record : string -> bool * string.

Lemma validate_true_reason (email : string) :
  fst (_validate_email_format email) = true ->
  _validate_email_format email = (true, "Valid format").
Proof.
  unfold _validate_email_format.
  repeat match goal with
         | |- context [if ?b then _ else _] => destruct b; simpl; try discriminate
         end.
  reflexivity.
Qed.

(** C4. An address that passes the format stage, whose domain is not
    disposable and whose MX stage succeeds (the resolver finds records, or
    mock DNS is on) gets the confidence
    clamp(20 + 30 + 20 + min(reputation, 30) + allowlist bonus - length
    penalty, 0, 100), and is valid exactly when that confidence exceeds
    30. *)
Theorem verify_email_confidence (self : EmailVerifier) (email : string) :
  fst (_validate_email_format email) = true ->
  fst (_check_disposable_email (domain_of email)) = false ->
  mock_dns self = true \/ fst (_check_mx_record (domain_of email)) = true ->
  let confidence := final_confidence (domain_of email) in
  let result := verify_email _check_mx_record self email in
  snd (fst result) = confidence /\
  fst (fst result) = (true && true && (30 <? confidence)%Z && negb false).
Proof.
  intros Hf Hd Hmx. cbv zeta. unfold verify_email.
  rewrite (validate_true_reason _ Hf). cbn [negb].
  fold (domain_of email).
  destruct (_check_disposable_email (domain_of email)) as [dc dr].
  simpl in Hd. subst dc.
  destruct (_check_domain_reputation (domain_of email)) as [rep rr] eqn:Hrep.
  assert (Hmx' : exists why,
    (if mock_dns self then (true, "Mock DNS - assumed valid")
     else _check_mx_record (domain_of email)) = (true, why)).
  { destruct Hmx as [Hm | Hr].
    - rewrite Hm. eauto.
    - destruct (mock_dns self); [eauto |].
      destruct (_check_mx_record (domain_of email)) as [b why].
      simpl in Hr. subst b. eauto. }
  destruct Hmx' as [why ->]. cbn [negb fst snd andb].
  unfold final_confidence, _calculate_enhanced_confidence.
  rewrite Hrep. cbn [negb fst snd]. split.
  - repeat match goal with
           | |- context [if ?b then _ else _] => destruct b
           end; f_equal; lia.
  - rewrite !andb_true_r. f_equal.
    repeat match goal with
           | |- context [if ?b then _ else _] => destruct b
           end; f_equal; lia.
Qed.

(** C8. An address that passes the format stage and whose domain is on the
    disposable denylist, or matches one of the disposable patterns, is
    rejected with confidence 10 and a reason that starts with
    "Disposable email: ". *)
Theorem verify_email_disposable (self : EmailVerifier) (email : string) :
  fst (_validate_email_format email) = true ->
  In (domain_of email) disposable_domains \/
  (exists pattern, In pattern disposable_patterns /\
                   Re.search true pattern (domain_of email) = true) ->
  verify_email _check_mx_record self email
  = (false, 10%Z,
     "Disposable email: " ++ snd (_check_disposable_email (domain_of email))).
Proof.
  intros Hf Hd. unfold verify_email.
  rewrite (validate_true_reason _ Hf). cbn [negb].
  fold (domain_of email).
  assert (Hc : fst (_check_disposable_email (domain_of email)) = true).
  { unfold _check_disposable_email.
    destruct (Str.mem (domain_of email) disposable_domains) eqn:Hm; [reflexivity |].
    destruct Hd as [Hin | (p & Hin & Hs)].
    - exfalso. unfold Str.mem in Hm.
      assert (existsb (String.eqb (domain_of email)) disposable_domains = true).
      { apply existsb_exists. exists (domain_of email).
        split; [exact Hin | apply String.eqb_refl]. }
      congruence.
    - assert (Str.any (fun pattern => Re.search true pattern (domain_of email))
                disposable_patterns = true) as ->.
      { apply existsb_exists. exists p. split; assumption. }
      reflexivity. }
  destruct (_check_disposable_email (domain_of email)) as [dc dr].
  simpl in Hc. subst dc. reflexivity.
Qed.

(** The example of the specification, for any resolver and any settings *)
Lemma verify_email_10minutemail (self : EmailVerifier) :
  verify_email _check_mx_record self "x@10minutemail.com"
  = (false, 10%Z, "Disposable email: Known disposable domain: 10minutemail.com").
Proof. reflexivity. Qed.

End Verification.

Lemma verify_email_confidence_witness :
  let self := {| Verifier.timeout := 1; Verifier.mock_dns := true |} in
  let result := Verifier.verify_email (fun _ => (false, "Domain does not exist"))
                  self "info@gmail.com" in
  snd (fst result) = 100%Z /\ fst (fst result) = true.
Proof.
  cbv zeta.
  apply (verify_email_confidence (fun _ => (false, "Domain does not exist"))
           {| Verifier.timeout := 1; Verifier.mock_dns := true |} "info@gmail.com");
    [reflexivity | reflexivity | left; reflexivity].
Defined.

Lemma verify_email_disposable_witness :
  Verifier.verify_email (fun _ => (true, "Found 1 MX records"))
    {| Verifier.timeout := 1; Verifier.mock_dns := false |} "x@10minutemail.com"
  = (false, 10%Z, "Disposable email: Known disposable domain: 10minutemail.com").
Proof.
  apply (verify_email_disposable (fun _ => (true, "Found 1 MX records"))
           {| Verifier.timeout := 1; Verifier.mock_dns := false |}
           "x@10minutemail.com");
    [reflexivity | left; vm_compute; tauto].
Defined.

(** ** Strings *)

Section Strings.

Ltac each_char c :=
  destruct c as [[] [] [] [] [] [] [] []]; vm_compute; try reflexivity; try discriminate.

Lemma lower_char_idem (c : ascii) :
  Str.lower_char (Str.lower_char c) = Str.lower_char c.
Proof. each_char c. Qed.

Lemma is_space_lower_char (c : ascii) :
  Str.is_space (Str.lower_char c) = Str.is_space c.
Proof. each_char c. Qed.

Lemma lower_idem (s : string) : Str.lower (Str.lower s) = Str.lower s.
Proof.
  induction s as [| c s IH]; simpl; [reflexivity |].
  rewrite lower_char_idem, IH. reflexivity.
Qed.


Lemma lower_length (s : string) :
  String.length (Str.lower s) = String.length s.
Proof. induction s as [| c s IH]; simpl; congruence. Qed.

Lemma rstrip_by_cons_keep (p : ascii -> bool) (c : ascii) (s : string) :
  p c = false -> Str.rstrip_by p (String c s) = String c (Str.rstrip_by p s).
Proof.
  intros H. simpl. rewrite H. destruct (Str.rstrip_by p s); reflexivity.
Qed.

Lemma rstrip_by_prefix (p : ascii -> bool) (s : string) :
  exists t, s = Str.rstrip_by p s ++ t.
Proof.
  induction s as [| c s [t IH]]; [exists ""; reflexivity |].
  simpl. destruct (Str.rstrip_by p s) eqn:E.
  - destruct (p c).
    + exists (String c s). reflexivity.
    + exists s. reflexivity.
  - exists t. rewrite IH at 1. reflexivity.
Qed.

Lemma startswith_app (p a t : string) :
  Str.startswith p a = true -> Str.startswith p (a ++ t) = true.
Proof.
  revert a. induction p as [| c p IH]; intros a H; [reflexivity |].
  destruct a as [| d a]; [discriminate |].
  simpl in *. apply andb_true_iff in H as [H1 H2].
  rewrite H1. simpl. apply IH, H2.
Qed.


End Strings.

(** ** Invariance of candidate generation *)

Section GenerationInvariance.
Import Extractor.





(** Neither is the prefix ignored in front of a domain that starts with
    white space, which is then no longer stripped. *)
Lemma generate_www_space :
  generate_common_emails ("www." ++ " example.com")
  <> generate_common_emails " example.com".
Proof. vm_compute. discriminate. Qed.

End GenerationInvariance.

(** ** Source tags *)

Section Sources.
Import Extractor.

Lemma tag_all_lookup (source : string) (emails : list string)
    (m : gmap string string) (email : string) :
  tag_all source emails m !! email
  = if decide (email ∈ emails) then Some source else m !! email.
Proof.
  unfold tag_all. revert m.
  induction emails as [| x emails IH]; intros m; simpl.
  - destruct (decide (email ∈ [])) as [H | H]; [| reflexivity].
    inversion H.
  - rewrite IH.
    destruct (decide (email ∈ emails)) as [H | H].
    + rewrite decide_True by (right; exact H). reflexivity.
    + destruct (decide (email = x)) as [-> | Hne].
      * rewrite lookup_insert_eq.
        rewrite decide_True by left. reflexivity.
      * rewrite lookup_insert_ne by congruence.
        destruct (decide (email ∈ x :: emails)) as [H' | H']; [| reflexivity].
        apply elem_of_cons in H'. tauto.
Qed.

(** C3. The extraction returns the set of the addresses seen (in the text
    or in a mailto link), the set of the candidates generated, and one
    source tag for each address of either set: "generated" for a
    candidate, else "mailto_link" for an address of a link, else "found".
    No address has two tags. *)
Theorem extract_all_emails_tags (content : string) (page : option soup)
    (domain : option string) :
  let observed := extract_emails_from_content content in
  let links := from_links page in
  let candidates := candidates_for domain in
  let result := extract_all_emails content page domain in
  fst (fst result) = observed ∪ links /\
  snd (fst result) = candidates /\
  forall email,
    snd result !! email
    = if decide (email ∈ candidates) then Some "generated"
      else if decide (email ∈ links) then Some "mailto_link"
      else if decide (email ∈ observed) then Some "found"
      else None.
Proof.
  cbv zeta. unfold extract_all_emails, from_links, candidates_for.
  generalize (extract_emails_from_content content). intros observed.
  assert (Hpage : forall (links : gset string) (email : string),
    tag_all "mailto_link" (elements links)
      (tag_all "found" (elements observed) ∅) !! email
    = if decide (email ∈ links) then Some "mailto_link"
      else if decide (email ∈ observed) then Some "found" else None).
  { intros links email. rewrite !tag_all_lookup, lookup_empty.
    repeat case_decide; try reflexivity; exfalso; set_solver. }
  assert (Hnone : forall email : string,
    tag_all "found" (elements observed) ∅ !! email
    = if decide (email ∈ (∅ : gset string)) then Some "mailto_link"
      else if decide (email ∈ observed) then Some "found" else None).
  { intros email. rewrite tag_all_lookup, lookup_empty.
    repeat case_decide; try reflexivity; exfalso; set_solver. }
  assert (Hgen : forall (l : list string) (m : gmap string string) (email : string),
    tag_all "generated" l m !! email
    = if decide (email ∈ (list_to_set l : gset string)) then Some "generated"
      else m !! email).
  { intros l m email. rewrite tag_all_lookup.
    repeat case_decide; try reflexivity; exfalso; set_solver. }
  assert (Hempty : forall (m : gmap string string) (email : string),
    m !! email
    = if decide (email ∈ (∅ : gset string)) then Some "generated" else m !! email).
  { intros m email. rewrite decide_False by set_solver. reflexivity. }
  assert (Hu : forall X : gset string, ∅ ∪ X = X) by (intros X; set_solver).
  assert (Hr : forall X : gset string, X ∪ ∅ = X) by (intros X; set_solver).
  destruct page as [page |].
  - generalize (extract_emails_from_links page). intros links.
    destruct domain as [domain |]; [destruct (String.eqb domain "") |];
      cbn [fst snd]; rewrite ?Hu;
      (split; [reflexivity | split; [reflexivity |]]); intros email.
    + rewrite Hempty at 1. rewrite Hpage. reflexivity.
    + rewrite Hgen, Hpage. reflexivity.
    + rewrite Hempty at 1. rewrite Hpage. reflexivity.
  - destruct domain as [domain |]; [destruct (String.eqb domain "") |];
      cbn [fst snd]; rewrite ?Hu, ?Hr;
      (split; [reflexivity | split; [reflexivity |]]); intros email.
    + rewrite Hempty at 1. rewrite Hnone. reflexivity.
    + rewrite Hgen, Hnone. reflexivity.
    + rewrite Hempty at 1. rewrite Hnone. reflexivity.
Qed.

(** An address read in the text and generated as a candidate too is in
    both returned sets. *)
Lemma found_and_generated_overlap :
  let result :=
    extract_all_emails "Write to info@example.com" None (Some "example.com") in
  "info@example.com" ∈ fst (fst result) ∩ snd (fst result).
Proof.
  cbv zeta. apply elem_of_intersection.
  split; apply (bool_decide_unpack _); vm_compute; exact I.
Qed.

(** So is an address of a mailto link. *)
Lemma mailto_and_generated_overlap :
  let result :=
    extract_all_emails "" (Some ["mailto:info@example.com"]) (Some "example.com") in
  "info@example.com" ∈ fst (fst result) ∩ snd (fst result).
Proof.
  cbv zeta. apply elem_of_intersection.
  split; apply (bool_decide_unpack _); vm_compute; exact I.
Qed.

End Sources.

(** ** The crawl *)

Section CrawlBounds.
Import Crawler.

Variable self : WebCrawler.
Variable web : Web.
Variable seed : string.

Lemma keeps_admissible (v : vars) (link : string) :
  keeps v seed link = true ->
  same_domain seed link = true /\ denylisted link = false.
Proof.
  unfold keeps, same_domain, denylisted.
  destruct (bool_decide (link ∈ visited_urls v) || bool_decide (link ∈ failed_urls v));
    [discriminate |].
  destruct (Str.contains (domain_parts seed) link); [| discriminate].
  cbn [negb].
  destruct (Str.any (fun pattern => Str.contains pattern (Str.lower link)) skip_patterns);
    [discriminate |].
  destruct (Str.any (fun ext => Str.endswith ext (Str.lower link)) skip_extensions);
    [discriminate |].
  intros _. split; reflexivity.
Qed.

Lemma filtered_admissible (v : vars) (links : list string) (link : string) :
  In link (_filter_and_prioritize_links v links seed) ->
  same_domain seed link = true /\ denylisted link = false.
Proof.
  unfold _filter_and_prioritize_links, _prioritize_links_by_relevance.
  intros H.
  apply (Permutation_in _ (Permutation_sym (sorted_desc_perm link_priority _))) in H.
  apply filter_In in H as [_ H]. apply (keeps_admissible v), H.
Qed.

Lemma last_snoc {A} (l : list A) (x d : A) : List.last (l ++ [x]) d = x.
Proof. apply last_last. Qed.

Lemma set_add_In (x : string) (links : list string) (link : string) :
  In link (set_add x links) -> link = x \/ In link links.
Proof.
  unfold set_add. destruct (Str.mem x links); [auto |].
  intros H. apply in_app_or in H as [H | [H | []]]; auto.
Qed.

(** Every extracted link is a cleaned URL with the netloc of the base. *)
Lemma extract_links_from_on_site (soup : list string) (links out : list string) :
  extract_links_from web soup seed links = Some out ->
  (forall link, In link links -> on_site web seed link) ->
  forall link, In link out -> on_site web seed link.
Proof.
  revert links. induction soup as [| href soup IH]; intros links E Hl;
    cbn [extract_links_from] in E.
  - injection E as <-. exact Hl.
  - destruct (urljoin web seed href) as [full_url |]; [| discriminate].
    destruct (_is_internal_link web full_url seed) eqn:Ei; [| apply (IH _ E Hl)].
    unfold _is_internal_link, _clean_url in *.
    destruct (urlparse web full_url) as [parsed |] eqn:Ep; [| discriminate].
    destruct (urlparse web seed) as [parsed_seed |] eqn:Es; [| discriminate].
    apply String.eqb_eq in Ei.
    apply (IH _ E). intros link H. apply set_add_In in H as [-> | H];
      [| apply Hl, H].
    exists full_url, parsed, parsed_seed. repeat split; assumption.
Qed.

Lemma extract_links_on_site (soup : list string) (page_links : list string)
    (link : string) :
  _extract_links web soup seed = Some page_links ->
  In link page_links -> on_site web seed link.
Proof.
  intros E. apply (extract_links_from_on_site soup [] page_links E).
  intros l [].
Qed.

Lemma add_link_inv (depth : Z) (v : vars) (link : string) :
  on_site web seed link /\
  same_domain seed link = true /\ denylisted link = false ->
  crawl_inv self web seed v -> crawl_inv self web seed (add_link self depth v link).
Proof.
  intros Hok [Hm Ht Hl]. unfold add_link.
  destruct (bool_decide (link ∈ discovered_urls v)) eqn:Hin; cbn [negb andb];
    [constructor; assumption |].
  destruct (size_Z (discovered_urls v) <? max_pages self)%Z eqn:Hsz;
    [| constructor; assumption].
  apply bool_decide_eq_false in Hin. apply Z.ltb_lt in Hsz.
  constructor; cbn [discovered_urls trace].
  - intros url Hu. apply elem_of_union in Hu as [Hu | Hu].
    + apply elem_of_singleton in Hu. subst url. right. exact Hok.
    + apply Hm, Hu.
  - intros Hp. apply Forall_app. split; [apply Ht, Hp |].
    constructor; [| constructor].
    unfold size_Z in *. rewrite size_union by set_solver.
    rewrite size_singleton. lia.
  - apply last_snoc.
Qed.

Lemma add_links_inv (depth : Z) (links : list string) (v : vars) :
  (forall link, In link links ->
     on_site web seed link /\
     same_domain seed link = true /\ denylisted link = false) ->
  crawl_inv self web seed v ->
  crawl_inv self web seed (fold_left (add_link self depth) links v).
Proof.
  revert v. induction links as [| link links IH]; intros v Hall Hv; [exact Hv |].
  simpl. apply IH.
  - intros l Hl. apply Hall. right. exact Hl.
  - apply add_link_inv; [apply Hall; left; reflexivity | exact Hv].
Qed.

Lemma filtered_In (v : vars) (links : list string) (link : string) :
  In link (_filter_and_prioritize_links v links seed) -> In link links.
Proof.
  unfold _filter_and_prioritize_links, _prioritize_links_by_relevance.
  intros H.
  apply (Permutation_in _ (Permutation_sym (sorted_desc_perm link_priority _))) in H.
  apply filter_In in H as [H _]. exact H.
Qed.

Lemma process_batch_inv (depth : Z) (batch : list string) (v : vars) :
  crawl_inv self web seed v ->
  crawl_inv self web seed (vars_of (process_batch self web seed depth batch v)).
Proof.
  revert v. induction batch as [| url batch IH]; intros v Hv; [exact Hv |].
  cbn [process_batch].
  destruct (max_pages self <=? size_Z (discovered_urls v))%Z; [exact Hv |].
  destruct (bool_decide (url ∈ visited_urls v)); [apply IH, Hv |].
  destruct (fetch web url) as [content | |].
  - destruct (_extract_links web content seed) as [page_links |] eqn:Ex.
    + apply IH. apply add_links_inv.
      * intros link Hl. split.
        -- apply (extract_links_on_site content page_links link Ex).
           eapply filtered_In, Hl.
        -- eapply filtered_admissible. exact Hl.
      * destruct Hv as [Hm Ht Hl]. constructor; assumption.
    + destruct Hv as [Hm Ht Hl]. constructor; assumption.
  - apply IH. destruct Hv as [Hm Ht Hl]. constructor; assumption.
  - exact Hv.
Qed.

Lemma crawl_levels_inv (levels : nat) (depth : Z) (v : vars) :
  crawl_inv self web seed v ->
  crawl_inv self web seed (vars_of (crawl_levels self web seed levels depth v)).
Proof.
  revert depth v. induction levels as [| levels IH]; intros depth v Hv; [exact Hv |].
  cbn [crawl_levels].
  destruct (match urls_to_crawl v with [] => true | _ => false end
            || (max_pages self <=? size_Z (discovered_urls v))%Z); [exact Hv |].
  match goal with
  | |- context [process_batch self web seed depth ?b ?v0] =>
      assert (Hb : crawl_inv self web seed
                     (vars_of (process_batch self web seed depth b v0)))
  end.
  { apply process_batch_inv. destruct Hv as [Hm Ht Hl]. constructor; assumption. }
  match type of Hb with
  | crawl_inv self web seed (vars_of ?o) => destruct o as [v' | v']
  end.
  - apply IH, Hb.
  - exact Hb.
Qed.

Lemma crawl_frontier_inv :
  crawl_inv self web seed (vars_of (crawl_frontier self web seed)).
Proof.
  unfold crawl_frontier. apply crawl_levels_inv.
  constructor; cbn [discovered_urls trace].
  - intros url Hu. apply elem_of_singleton in Hu. left. exact Hu.
  - intros Hp. constructor; [| constructor].
    unfold size_Z. rewrite size_singleton. lia.
  - reflexivity.
Qed.

Lemma unique_from_In (seen : gset string) (urls : list string) (url : string) :
  In url (unique_from seen urls) -> In url urls.
Proof.
  revert seen. induction urls as [| u urls IH]; intros seen H; [exact H |].
  simpl in H. destruct (bool_decide (u ∈ seen)).
  - right. eapply IH, H.
  - destruct H as [H | H]; [left; exact H | right; eapply IH, H].
Qed.

Lemma slice_to_In {A} (n : Z) (l : list A) (x : A) :
  In x (slice_to n l) -> In x l.
Proof.
  unfold slice_to.
  destruct (0 <=? n)%Z; intros H;
    match type of H with
    | In _ (firstn ?k _) => rewrite <- (firstn_skipn k l)
    end; apply in_or_app; left; exact H.
Qed.

Lemma slice_to_length {A} (n : Z) (l : list A) :
  (0 <= n)%Z -> (Z.of_nat (List.length (slice_to n l)) <= n)%Z.
Proof.
  intros Hn. unfold slice_to.
  destruct (0 <=? n)%Z eqn:E; [| apply Z.leb_gt in E; lia].
  rewrite length_firstn. lia.
Qed.


End CrawlBounds.



(** The discovered set is the last value of the trace: the trace misses
    no step. *)
Lemma crawl_trace_last (self : Crawler.WebCrawler) (web : Crawler.Web)
    (seed : string) :
  let v := Crawler.vars_of (Crawler.crawl_frontier self web seed) in
  List.last (Crawler.trace v) ∅ = Crawler.discovered_urls v.
Proof. cbv zeta. apply (crawl_frontier_inv self web seed). Qed.

(** The links of a page that lead to another host are not returned, also
    when they hold the name of the seed's host; a fragment is cut off,
    and the link comes once. *)
Example small_web_crawl :
  Crawler.crawl_company_website
    {| Crawler.bypass_robots := true; Crawler.max_depth := 0;
       Crawler.max_pages := 10 |} small_web "example.com"
  = ["https://example.com/contact"; "https://example.com/about";
     "https://example.com"].
Proof. vm_compute. reflexivity. Qed.


(** ** The substitutions of the normalization *)

Section Squeeze.
Import Re.

#[local] Abbreviation lstrip := (Str.lstrip_by Str.is_space).

Lemma drop_drop (j k : nat) (s : string) :
  Str.drop j (Str.drop k s) = Str.drop (k + j) s.
Proof.
  revert s. induction k as [| k IH]; intros s; [reflexivity |].
  destruct s as [| a s]; simpl.
  - destruct j; reflexivity.
  - apply IH.
Qed.

Lemma drop_length (k : nat) (s : string) :
  String.length (Str.drop k s) = String.length s - k.
Proof.
  revert s. induction k as [| k IH]; intros s; simpl.
  - destruct s; simpl; lia.
  - destruct s as [| a s]; simpl; [reflexivity | apply IH].
Qed.

Lemma lstrip_by_drop (p : ascii -> bool) (s : string) :
  exists k, k <= String.length s /\ Str.lstrip_by p s = Str.drop k s.
Proof.
  induction s as [| a s (k & Hk & IH)].
  - exists 0. split; [lia | reflexivity].
  - simpl. destruct (p a).
    + exists (S k). split; [lia | exact IH].
    + exists 0. split; [lia | reflexivity].
Qed.

Lemma lstrip_by_length (p : ascii -> bool) (s : string) :
  String.length (Str.lstrip_by p s) <= String.length s.
Proof.
  destruct (lstrip_by_drop p s) as (k & _ & ->). rewrite drop_length. lia.
Qed.

Lemma lstrip_by_idem (p : ascii -> bool) (s : string) :
  Str.lstrip_by p (Str.lstrip_by p s) = Str.lstrip_by p s.
Proof.
  induction s as [| a s IH]; [reflexivity |].
  simpl. destruct (p a) eqn:E; [exact IH |]. simpl. rewrite E. reflexivity.
Qed.

Lemma lstrip_by_hd (p : ascii -> bool) (s : string) (b : ascii) :
  hd_char (Str.lstrip_by p s) = Some b -> p b = false.
Proof.
  induction s as [| a s IH]; [discriminate |].
  simpl. destruct (p a) eqn:E; [exact IH |].
  simpl. intros [= <-]. exact E.
Qed.

Lemma lstrip_by_fixed (p : ascii -> bool) (s : string) :
  match hd_char s with Some a => p a = false | None => True end ->
  Str.lstrip_by p s = s.
Proof.
  destruct s as [| a s]; simpl; [reflexivity |]. intros ->. reflexivity.
Qed.

Lemma drop_cons (k : nat) (s : string) (d : ascii) (t : string) :
  Str.drop k s = String d t -> k < String.length s /\ t = Str.drop (S k) s.
Proof.
  intros H. split.
  - pose proof (drop_length k s) as Hl. rewrite H in Hl. simpl in Hl. lia.
  - replace (S k) with (k + 1) by lia. rewrite <- drop_drop, H. reflexivity.
Qed.

(** *** The matcher on \s*c\s* *)

Lemma run_ws (st : mstate) :
  run false Extractor.ws st
  = match rest st with
    | String w s' =>
        if Str.is_space w then [MState (Some w) s' (caps st)] else []
    | "" => []
    end.
Proof.
  unfold Extractor.ws. cbn [run]. unfold single, advance, set_matches.
  destruct (rest st); reflexivity.
Qed.

Lemma greedy_ws_flat_map {B} (g : mstate -> list B) :
  (forall p w s c, Str.is_space w = true -> g (MState p (String w s) c) = []) ->
  forall fuel p s c, String.length s <= fuel ->
    exists p', flat_map g (greedy (run false Extractor.ws) fuel (MState p s c))
               = g (MState p' (lstrip s) c).
Proof.
  intros Hg. induction fuel as [| fuel IH]; intros p s c Hlen.
  - destruct s; [| simpl in Hlen; lia].
    exists p. simpl. apply app_nil_r.
  - cbn [greedy]. rewrite run_ws. cbn [rest caps].
    destruct s as [| w s'].
    + exists p. simpl. apply app_nil_r.
    + cbn [Str.lstrip_by]. destruct (Str.is_space w) eqn:Ew.
      * cbn [List.filter]. unfold shorter at 1. cbn [rest].
        replace (Nat.ltb (String.length s') (String.length (String w s'))) with true
          by (symmetry; apply Nat.ltb_lt; simpl; lia).
        cbn [flat_map]. rewrite app_nil_r, flat_map_app.
        cbn [flat_map]. rewrite (Hg _ _ _ _ Ew). rewrite !app_nil_r.
        apply IH. simpl in Hlen. lia.
      * exists p. simpl. apply app_nil_r.
Qed.

Lemma greedy_ws_head (fuel : nat) (p : option ascii) (s : string) (c : list string) :
  String.length s <= fuel ->
  exists p' tl, greedy (run false Extractor.ws) fuel (MState p s c)
                = MState p' (lstrip s) c :: tl.
Proof.
  revert p s. induction fuel as [| fuel IH]; intros p s Hlen.
  - destruct s; [| simpl in Hlen; lia]. exists p, []. reflexivity.
  - cbn [greedy]. rewrite run_ws. cbn [rest caps].
    destruct s as [| w s'].
    + exists p, []. reflexivity.
    + cbn [Str.lstrip_by]. destruct (Str.is_space w) eqn:Ew.
      * cbn [List.filter]. unfold shorter at 1. cbn [rest].
        replace (Nat.ltb (String.length s') (String.length (String w s'))) with true
          by (symmetry; apply Nat.ltb_lt; simpl; lia).
        cbn [flat_map]. rewrite app_nil_r.
        destruct (IH (Some w) s') as (p' & tl & ->); [simpl in Hlen; lia |].
        exists p', (tl ++ [MState p (String w s') c])%list. reflexivity.
      * exists p, []. reflexivity.
Qed.

Lemma match_at_around (c : ascii) (p : option ascii) (s : string) :
  Str.is_space c = false ->
  match_at false (around c) p s
  = match lstrip s with
    | String d t =>
        if Ascii.eqb c d
        then Some (String.length s - String.length (lstrip t), [])
        else None
    | "" => None
    end.
Proof.
  intros Hc. unfold match_at, around. cbn [run rest].
  destruct (greedy_ws_flat_map
              (fun st1 => flat_map (fun st2 => greedy (run false Extractor.ws)
                                                 (String.length (rest st2)) st2)
                            (single (chr_matches false c) st1)))
    with (fuel := String.length s) (p := p) (s := s) (c := @nil string)
    as [p' ->]; [| lia |].
  - intros q w u cs Hw. unfold single, advance, chr_matches. cbn [rest].
    destruct (Ascii.eqb c w) eqn:E; [| reflexivity].
    apply Ascii.eqb_eq in E. subst w. congruence.
  - unfold single, advance, chr_matches. cbn [rest caps].
    destruct (lstrip s) as [| d t]; [reflexivity |].
    destruct (Ascii.eqb c d); [| reflexivity].
    cbn [flat_map rest]. rewrite app_nil_r.
    destruct (greedy_ws_head (String.length t) (Some d) t [])
      as (p'' & tl & ->); [lia |].
    reflexivity.
Qed.


(** *** The substitution, unfolded *)

Section OneChar.
Variable c : ascii.
Hypothesis c_not_space : Str.is_space c = false.

Lemma sub_from_prev (p p' : option ascii) (k : nat) (s : string) :
  sub_from false (around c) (String c "") p k s
  = sub_from false (around c) (String c "") p' k s.
Proof.
  destruct k as [| k]; [| destruct s; reflexivity].
  destruct s; cbn [sub_from];
    rewrite !(match_at_around c _ _ c_not_space); reflexivity.
Qed.

Lemma sub_from_skip (k : nat) (s : string) (p : option ascii) :
  k <= String.length s ->
  sub_from false (around c) (String c "") p k s = squeeze c (Str.drop k s).
Proof.
  revert s p. induction k as [| k IH]; intros s p Hk.
  - destruct s; apply sub_from_prev.
  - destruct s as [| a s]; [simpl in Hk; lia |].
    cbn [sub_from Str.drop]. apply IH. simpl in Hk. lia.
Qed.

Lemma squeeze_nil : squeeze c "" = "".
Proof.
  unfold squeeze, sub. cbn [sub_from].
  rewrite (match_at_around c _ _ c_not_space). reflexivity.
Qed.

(** At a [c], or at white space that runs up to a [c]: the run, the [c]
    and the white space after it give one [c]. *)
Lemma squeeze_hit (a : ascii) (s t : string) :
  lstrip (String a s) = String c t ->
  squeeze c (String a s) = String c (squeeze c (lstrip t)).
Proof.
  intros H. unfold squeeze at 1, sub. cbn [sub_from].
  rewrite (match_at_around c _ _ c_not_space), H, Ascii.eqb_refl.
  destruct (lstrip_by_drop Str.is_space (String a s)) as (k & Hk & Ek).
  rewrite H in Ek. symmetry in Ek. apply drop_cons in Ek as [Hk' ->].
  destruct (lstrip_by_drop Str.is_space (Str.drop (S k) (String a s)))
    as (j & Hj & ->).
  rewrite drop_drop, !drop_length in *.
  replace (String.length (String a s) - (String.length (String a s) - (S k + j)))
    with (S (k + j)) by lia.
  change (String c "" ++ ?x) with (String c x). f_equal.
  rewrite sub_from_skip by (simpl in *; lia). reflexivity.
Qed.

(** Elsewhere the character is kept. *)
Lemma squeeze_miss (a : ascii) (s : string) :
  hd_char (lstrip (String a s)) <> Some c ->
  squeeze c (String a s) = String a (squeeze c s).
Proof.
  intros H. unfold squeeze at 1, sub. cbn [sub_from].
  rewrite (match_at_around c _ _ c_not_space).
  destruct (lstrip (String a s)) as [| d t].
  - f_equal. apply sub_from_prev.
  - destruct (Ascii.eqb c d) eqn:E.
    + apply Ascii.eqb_eq in E. subst d. exfalso. apply H. reflexivity.
    + f_equal. apply sub_from_prev.
Qed.

Lemma squeeze_cases (a : ascii) (s : string) :
  (exists t, lstrip (String a s) = String c t /\
             squeeze c (String a s) = String c (squeeze c (lstrip t)) /\
             String.length (lstrip t) <= String.length s) \/
  (hd_char (lstrip (String a s)) <> Some c /\
   squeeze c (String a s) = String a (squeeze c s)).
Proof.
  destruct (lstrip (String a s)) as [| d t] eqn:E.
  - right. split; [discriminate |]. apply squeeze_miss. rewrite E. discriminate.
  - destruct (Ascii.eqb d c) eqn:Ed.
    + apply Ascii.eqb_eq in Ed. subst d. left. exists t.
      split; [reflexivity |]. split; [apply squeeze_hit, E |].
      pose proof (lstrip_by_length Str.is_space (String a s)) as H1.
      pose proof (lstrip_by_length Str.is_space t) as H2.
      rewrite E in H1. simpl in H1. lia.
    + apply Ascii.eqb_neq in Ed. right.
      split; [simpl; congruence |].
      apply squeeze_miss. rewrite E. simpl. congruence.
Qed.

Lemma squeeze_length (s : string) :
  String.length (squeeze c s) <= String.length s.
Proof.
  remember (String.length s) as n eqn:Hn.
  assert (Hle : String.length s <= n) by lia. clear Hn.
  revert s Hle. induction n as [| n IH]; intros s Hle.
  - destruct s; [| simpl in Hle; lia]. rewrite squeeze_nil. simpl. lia.
  - destruct s as [| a s]; [rewrite squeeze_nil; simpl; lia |].
    simpl in Hle.
    destruct (squeeze_cases a s) as [(t & _ & -> & Ht) | [_ ->]]; simpl.
    + specialize (IH (lstrip t)). lia.
    + specialize (IH s). lia.
Qed.

Lemma squeeze_hd (s : string) :
  hd_char (squeeze c s)
  = if match hd_char (lstrip s) with Some d => Ascii.eqb d c | None => false end
    then Some c else hd_char s.
Proof.
  destruct s as [| a s]; [rewrite squeeze_nil; reflexivity |].
  destruct (squeeze_cases a s) as [(t & E & -> & _) | [H ->]].
  - rewrite E. simpl. rewrite Ascii.eqb_refl. reflexivity.
  - destruct (hd_char (lstrip (String a s))) as [d |]; [| reflexivity].
    destruct (Ascii.eqb d c) eqn:E; [| reflexivity].
    apply Ascii.eqb_eq in E. congruence.
Qed.

End OneChar.

(** *** White space next to a character *)

Lemma tight_drop (c : ascii) (k : nat) (s : string) :
  tight c s = true -> tight c (Str.drop k s) = true.
Proof.
  revert s. induction k as [| k IH]; intros s H.
  - destruct s; exact H.
  - destruct s as [| a s]; [exact H |].
    cbn [Str.drop]. apply IH. cbn [tight] in H.
    apply andb_true_iff in H. tauto.
Qed.

Lemma tight_lstrip (c : ascii) (p : ascii -> bool) (s : string) :
  tight c s = true -> tight c (Str.lstrip_by p s) = true.
Proof.
  destruct (lstrip_by_drop p s) as (k & _ & ->). apply tight_drop.
Qed.

Lemma hd_char_app (a b : string) :
  hd_char (a ++ b) = match hd_char a with Some x => Some x | None => hd_char b end.
Proof. destruct a; reflexivity. Qed.

Lemma tight_prefix (c : ascii) (a b : string) :
  tight c (a ++ b) = true -> tight c a = true.
Proof.
  induction a as [| x a IH]; [reflexivity |].
  change (String x a ++ b) with (String x (a ++ b)). cbn [tight].
  rewrite hd_char_app. intros H. apply andb_true_iff in H as [H1 H2].
  rewrite (IH H2), andb_true_r.
  destruct (hd_char a); [exact H1 | reflexivity].
Qed.

Lemma tight_rstrip (c : ascii) (p : ascii -> bool) (s : string) :
  tight c s = true -> tight c (Str.rstrip_by p s) = true.
Proof.
  destruct (rstrip_by_prefix p s) as [t Ht]. intros H.
  rewrite Ht in H. eapply tight_prefix, H.
Qed.

Lemma hd_char_lower (s : string) :
  hd_char (Str.lower s) = option_map Str.lower_char (hd_char s).
Proof. destruct s; reflexivity. Qed.

Lemma tight_lower (c : ascii) (s : string) :
  (forall a, Ascii.eqb (Str.lower_char a) c = Ascii.eqb a c) ->
  tight c s = true -> tight c (Str.lower s) = true.
Proof.
  intros Hc. induction s as [| a s IH]; [reflexivity |].
  cbn [tight Str.lower]. intros H. apply andb_true_iff in H as [H1 H2].
  rewrite (IH H2), andb_true_r, hd_char_lower.
  destruct (hd_char s) as [b |]; [| reflexivity].
  cbn [option_map loose] in *.
  rewrite !Hc, !is_space_lower_char. exact H1.
Qed.

(** White space that runs up to a [c] makes a string loose. *)
Lemma tight_space_run (c a : ascii) (s t : string) :
  Str.is_space a = true -> tight c (String a s) = true ->
  lstrip (String a s) <> String c t.
Proof.
  revert a. induction s as [| b s IH]; intros a Ha H.
  - simpl. rewrite Ha. discriminate.
  - cbn [tight hd_char loose] in H.
    apply andb_true_iff in H as [H1 H2].
    rewrite Ha in H1. cbn [andb] in H1.
    cbn [Str.lstrip_by]. rewrite Ha.
    destruct (Str.is_space b) eqn:Eb.
    + pose proof (IH b Eb H2) as IH'. cbn [Str.lstrip_by] in IH'.
      rewrite Eb in IH'. exact IH'.
    + intros [= -> _]. rewrite Ascii.eqb_refl in H1. discriminate.
Qed.

Section OneCharTight.
Variable c : ascii.
Hypothesis c_not_space : Str.is_space c = false.

Lemma space_is_not_c (a : ascii) :
  Str.is_space a = true -> Ascii.eqb a c = false.
Proof. intros Ha. apply Ascii.eqb_neq. congruence. Qed.

(** The substitution leaves no white space next to its character. *)
Lemma squeeze_tight (s : string) : tight c (squeeze c s) = true.
Proof.
  remember (String.length s) as n eqn:Hn.
  assert (Hle : String.length s <= n) by lia. clear Hn.
  revert s Hle. induction n as [| n IH]; intros s Hle.
  - destruct s; [| simpl in Hle; lia]. rewrite squeeze_nil by assumption. reflexivity.
  - destruct s as [| a s]; [rewrite squeeze_nil by assumption; reflexivity |].
    simpl in Hle.
    destruct (squeeze_cases c c_not_space a s) as [(t & E & -> & Ht) | [H ->]];
      cbn [tight].
    + rewrite IH by lia. rewrite andb_true_r.
      rewrite (squeeze_hd c c_not_space), lstrip_by_idem.
      destruct (hd_char (lstrip t)) as [d |] eqn:Ed; [| reflexivity].
      destruct (Ascii.eqb d c); cbn [loose].
      * rewrite c_not_space, !andb_false_r. reflexivity.
      * apply lstrip_by_hd in Ed. rewrite Ed, c_not_space, andb_false_r. reflexivity.
    + rewrite IH by lia. rewrite andb_true_r.
      rewrite (squeeze_hd c c_not_space).
      destruct (Str.is_space a) eqn:Ea.
      * (* the run goes on in [s], and does not end at a [c] *)
        cbn [Str.lstrip_by] in H. rewrite Ea in H.
        destruct (hd_char (lstrip s)) as [d |] eqn:Ed.
        -- destruct (Ascii.eqb d c) eqn:E.
           ++ apply Ascii.eqb_eq in E. congruence.
           ++ destruct s as [| b s']; [reflexivity |].
              cbn [hd_char loose]. rewrite Ea. cbn [andb].
              destruct (Ascii.eqb b c) eqn:Eb.
              ** apply Ascii.eqb_eq in Eb. subst b. exfalso.
                 cbn [Str.lstrip_by] in Ed. rewrite c_not_space in Ed.
                 cbn [hd_char] in Ed. injection Ed as <-.
                 rewrite Ascii.eqb_refl in E. discriminate.
              ** rewrite (space_is_not_c a Ea). reflexivity.
        -- destruct s as [| b s']; [reflexivity |].
           cbn [hd_char loose]. rewrite Ea. cbn [andb].
           destruct (Ascii.eqb b c) eqn:Eb.
           ** apply Ascii.eqb_eq in Eb. subst b. exfalso.
              cbn [Str.lstrip_by] in Ed. rewrite c_not_space in Ed. discriminate.
           ** rewrite (space_is_not_c a Ea). reflexivity.
      * (* [a] is kept and is not [c] *)
        cbn [Str.lstrip_by] in H. rewrite Ea in H. cbn [hd_char] in H.
        assert (Eac : Ascii.eqb a c = false).
        { apply Ascii.eqb_neq. congruence. }
        destruct (if match hd_char (lstrip s) with
                     | Some d => Ascii.eqb d c | None => false end
                  then Some c else hd_char s) as [b |]; [| reflexivity].
        cbn [loose]. rewrite Ea, Eac. reflexivity.
Qed.

(** It changes nothing in a string that has no white space next to its
    character. *)
Lemma squeeze_fixed (s : string) : tight c s = true -> squeeze c s = s.
Proof.
  induction s as [| a s IH]; intros H; [apply squeeze_nil; assumption |].
  pose proof H as H0. cbn [tight] in H. apply andb_true_iff in H as [H1 H2].
  destruct (squeeze_cases c c_not_space a s) as [(t & E & -> & Ht) | [_ ->]].
  - destruct (Str.is_space a) eqn:Ea.
    + exfalso. exact (tight_space_run c a s t Ea H0 E).
    + cbn [Str.lstrip_by] in E. rewrite Ea in E. injection E as Hac Hst.
      subst a t.
      f_equal. rewrite lstrip_by_fixed; [apply IH, H2 |].
      destruct (hd_char s) as [b |]; [| exact I].
      cbn [loose] in H1. rewrite Ascii.eqb_refl in H1.
      destruct (Str.is_space b); [| reflexivity].
      rewrite orb_true_r in H1. discriminate.
  - f_equal. apply IH, H2.
Qed.

(** It puts no white space next to another character. *)
Lemma squeeze_keeps_tight (d : ascii) (s : string) :
  d <> c -> tight d s = true -> tight d (squeeze c s) = true.
Proof.
  intros Hdc.
  assert (Ecd : Ascii.eqb c d = false) by (apply Ascii.eqb_neq; congruence).
  remember (String.length s) as n eqn:Hn.
  assert (Hle : String.length s <= n) by lia. clear Hn.
  revert s Hle. induction n as [| n IH]; intros s Hle H.
  - destruct s; [| simpl in Hle; lia]. rewrite squeeze_nil by assumption. reflexivity.
  - destruct s as [| a s]; [rewrite squeeze_nil by assumption; reflexivity |].
    simpl in Hle.
    destruct (squeeze_cases c c_not_space a s) as [(t & E & -> & Ht) | [_ ->]];
      cbn [tight].
    + rewrite IH; [| lia |].
      * rewrite andb_true_r.
        destruct (hd_char (squeeze c (lstrip t))) as [b |]; [| reflexivity].
        cbn [loose]. rewrite c_not_space, Ecd. reflexivity.
      * apply tight_lstrip.
        destruct (lstrip_by_drop Str.is_space (String a s)) as (k & _ & Ek).
        rewrite E in Ek. symmetry in Ek. apply drop_cons in Ek as [_ ->].
        apply tight_drop, H.
    + cbn [tight] in H. apply andb_true_iff in H as [H1 H2].
      rewrite IH by (assumption || lia). rewrite andb_true_r.
      rewrite (squeeze_hd c c_not_space).
      destruct (match hd_char (lstrip s) with
                | Some x => Ascii.eqb x c | None => false end); [| exact H1].
      cbn [loose]. rewrite Ecd, c_not_space, !andb_false_r. reflexivity.
Qed.

End OneCharTight.

End Squeeze.

(** ** Stripping *)

Section Stripping.

Lemma rstrip_by_length (p : ascii -> bool) (s : string) :
  String.length (Str.rstrip_by p s) <= String.length s.
Proof.
  induction s as [| a s IH]; simpl; [lia |].
  destruct (Str.rstrip_by p s); [destruct (p a) |]; simpl in *; lia.
Qed.

Lemma strip_by_length (p : ascii -> bool) (s : string) :
  String.length (Str.strip_by p s) <= String.length s.
Proof.
  unfold Str.strip_by.
  pose proof (rstrip_by_length p (Str.lstrip_by p s)).
  pose proof (lstrip_by_length p s). lia.
Qed.

Lemma append_length (a b : string) :
  String.length (a ++ b) = String.length a + String.length b.
Proof.
  induction a as [| x a IH]; [reflexivity |].
  change (String x a ++ b) with (String x (a ++ b)). simpl. rewrite IH. reflexivity.
Qed.

Lemma append_nil_r (a : string) : a ++ "" = a.
Proof.
  induction a as [| x a IH]; [reflexivity |].
  change (String x a ++ "") with (String x (a ++ "")). rewrite IH. reflexivity.
Qed.

(** What [strip] leaves unchanged in length it leaves unchanged. *)
Lemma strip_by_same_length (p : ascii -> bool) (s : string) :
  String.length (Str.strip_by p s) = String.length s -> Str.strip_by p s = s.
Proof.
  unfold Str.strip_by. intros H.
  pose proof (rstrip_by_length p (Str.lstrip_by p s)) as H1.
  pose proof (lstrip_by_length p s) as H2.
  assert (El : Str.lstrip_by p s = s).
  { destruct (lstrip_by_drop p s) as (k & Hk & Ek).
    assert (Hk0 : k = 0).
    { pose proof (drop_length k s) as Hd. rewrite <- Ek in Hd. lia. }
    subst k. rewrite Ek. destruct s; reflexivity. }
  rewrite El in *.
  destruct (rstrip_by_prefix p s) as [t Ht].
  assert (Et : String.length t = 0).
  { pose proof (f_equal String.length Ht) as Hl.
    rewrite append_length in Hl. lia. }
  destruct t; [| discriminate].
  rewrite append_nil_r in Ht. congruence.
Qed.

Lemma lstrip_lower_comm (s : string) :
  Str.lstrip_by Str.is_space (Str.lower s) = Str.lower (Str.lstrip_by Str.is_space s).
Proof.
  induction s as [| a s IH]; [reflexivity |].
  simpl. rewrite is_space_lower_char.
  destruct (Str.is_space a); [exact IH | reflexivity].
Qed.

Lemma rstrip_lower_comm (s : string) :
  Str.rstrip_by Str.is_space (Str.lower s)
  = Str.lower (Str.rstrip_by Str.is_space s).
Proof.
  induction s as [| a s IH]; [reflexivity |].
  simpl. rewrite IH, is_space_lower_char.
  destruct (Str.rstrip_by Str.is_space s); simpl;
    [destruct (Str.is_space a) |]; reflexivity.
Qed.

Lemma rstrip_by_idem (p : ascii -> bool) (s : string) :
  Str.rstrip_by p (Str.rstrip_by p s) = Str.rstrip_by p s.
Proof.
  induction s as [| a s IH]; [reflexivity |].
  simpl. destruct (Str.rstrip_by p s) as [| b r] eqn:E.
  - destruct (p a) eqn:Ea; [reflexivity |]. simpl. rewrite Ea. reflexivity.
  - change (Str.rstrip_by p (String a (String b r)))
      with (match Str.rstrip_by p (String b r) with
            | "" => if p a then "" else String a ""
            | r' => String a r'
            end).
    rewrite IH. reflexivity.
Qed.

Lemma lstrip_rstrip (p : ascii -> bool) (s : string) :
  Str.lstrip_by p s = s -> Str.lstrip_by p (Str.rstrip_by p s) = Str.rstrip_by p s.
Proof.
  destruct s as [| a s]; [reflexivity |].
  intros H. destruct (p a) eqn:Ea.
  - exfalso. cbn [Str.lstrip_by] in H. rewrite Ea in H.
    pose proof (lstrip_by_length p s) as Hl. rewrite H in Hl. simpl in Hl. lia.
  - rewrite rstrip_by_cons_keep by exact Ea. simpl. rewrite Ea. reflexivity.
Qed.

Lemma strip_idem (s : string) : Str.strip (Str.strip s) = Str.strip s.
Proof.
  unfold Str.strip, Str.strip_by.
  rewrite lstrip_rstrip by apply lstrip_by_idem.
  apply rstrip_by_idem.
Qed.

Lemma strip_lower_comm (s : string) :
  Str.strip (Str.lower s) = Str.lower (Str.strip s).
Proof.
  unfold Str.strip, Str.strip_by.
  rewrite lstrip_lower_comm. apply rstrip_lower_comm.
Qed.

End Stripping.

(** ** Normalization *)

Section Normalization.
Import Extractor.

Lemma normalize_unfold (x : string) :
  _normalize_email x
  = if String.eqb x "" then ""
    else Str.lower (Str.strip (squeeze "." (squeeze "@" (strip_parens x)))).
Proof. reflexivity. Qed.

Lemma lower_char_at (a : ascii) :
  Ascii.eqb (Str.lower_char a) "@" = Ascii.eqb a "@".
Proof. destruct a as [[] [] [] [] [] [] [] []]; reflexivity. Qed.

Lemma lower_char_dot (a : ascii) :
  Ascii.eqb (Str.lower_char a) "." = Ascii.eqb a ".".
Proof. destruct a as [[] [] [] [] [] [] [] []]; reflexivity. Qed.

(** A normalized string is tight at [@] and at the dot, stripped, and in
    lower case. *)
Lemma normalized_shape (x : string) :
  let y := _normalize_email x in
  tight "@" y = true /\ tight "." y = true /\ Str.strip y = y /\ Str.lower y = y.
Proof.
  cbv zeta. rewrite normalize_unfold.
  destruct (String.eqb x ""); [repeat split |].
  split; [| split; [| split]].
  - apply (tight_lower "@"); [exact lower_char_at |].
    apply tight_rstrip, tight_lstrip.
    apply squeeze_keeps_tight; [reflexivity | discriminate |].
    apply squeeze_tight. reflexivity.
  - apply (tight_lower "."); [exact lower_char_dot |].
    apply tight_rstrip, tight_lstrip.
    apply squeeze_tight. reflexivity.
  - rewrite strip_lower_comm, strip_idem. reflexivity.
  - apply lower_idem.
Qed.

Lemma normalize_length (x : string) :
  String.length (_normalize_email x) <= String.length (strip_parens x).
Proof.
  rewrite normalize_unfold. destruct (String.eqb x ""); [simpl; lia |].
  rewrite lower_length.
  pose proof (strip_by_length Str.is_space
                (squeeze "." (squeeze "@" (strip_parens x)))) as H1.
  pose proof (squeeze_length "." eq_refl (squeeze "@" (strip_parens x))) as H2.
  pose proof (squeeze_length "@" eq_refl (strip_parens x)) as H3.
  unfold Str.strip. lia.
Qed.

(** Normalizing a second time changes nothing exactly when the normalized
    string neither begins nor ends with a parenthesis, that is when
    [strip('()')] leaves it as it is. *)
Lemma normalize_fixed_iff (x : string) :
  _normalize_email (_normalize_email x) = _normalize_email x
  <-> strip_parens (_normalize_email x) = _normalize_email x.
Proof.
  destruct (normalized_shape x) as (Hat & Hdot & Hstrip & Hlow).
  set (y := _normalize_email x) in *. split.
  - intros H.
    apply strip_by_same_length.
    pose proof (normalize_length y) as H1.
    pose proof (strip_by_length (Re.one_of "()") y) as H2.
    rewrite H in H1. unfold strip_parens in *. lia.
  - intros H. rewrite (normalize_unfold y), H.
    destruct (String.eqb y "") eqn:E.
    + apply String.eqb_eq in E. congruence.
    + rewrite (squeeze_fixed "@" eq_refl y Hat).
      rewrite (squeeze_fixed "." eq_refl y Hdot).
      rewrite Hstrip. exact Hlow.
Qed.

(** The input [" (a)"] normalizes to ["(a"], and that to ["a"]. *)
Lemma normalize_not_idempotent :
  _normalize_email (_normalize_email " (a)") <> _normalize_email " (a)".
Proof. vm_compute. discriminate. Qed.

End Normalization.

(** ** Inputs on which normalization is idempotent *)

Section CleanInputs.
Import Extractor.

Lemma last_char_none (s : string) : last_char s = None -> s = "".
Proof.
  destruct s as [| a s]; [reflexivity |].
  simpl. destruct (last_char s); discriminate.
Qed.

Lemma rstrip_by_fixed (p : ascii -> bool) (s : string) :
  match last_char s with Some b => p b = false | None => True end ->
  Str.rstrip_by p s = s.
Proof.
  induction s as [| a s IH]; [reflexivity |].
  cbn [last_char Str.rstrip_by]. destruct (last_char s) as [b |] eqn:E.
  - intros H. rewrite (IH H). destruct s; [discriminate | reflexivity].
  - apply last_char_none in E. subst s. intros ->. reflexivity.
Qed.

Lemma rstrip_by_last (p : ascii -> bool) (s : string) :
  Str.rstrip_by p s = s ->
  match last_char s with Some b => p b = false | None => True end.
Proof.
  induction s as [| a s IH]; [intros _; exact I |].
  cbn [last_char Str.rstrip_by].
  destruct (Str.rstrip_by p s) as [| c r] eqn:E.
  - destruct (p a) eqn:Ea; [discriminate |].
    intros [= <-]. simpl. exact Ea.
  - intros H. injection H as Hs. specialize (IH Hs).
    destruct (last_char s) eqn:El; [exact IH |].
    apply last_char_none in El. subst s. discriminate.
Qed.

Lemma lstrip_by_first (p : ascii -> bool) (s : string) :
  Str.lstrip_by p s = s ->
  match hd_char s with Some a => p a = false | None => True end.
Proof.
  intros H. destruct (hd_char s) as [a |] eqn:E; [| exact I].
  rewrite <- H in E. eapply lstrip_by_hd, E.
Qed.

(** The ends of a stripped string, and conversely *)
Lemma strip_by_clear (p : ascii -> bool) (s : string) :
  Str.strip_by p s = s <-> clear_ends p s.
Proof.
  unfold clear_ends, Str.strip_by. split.
  - intros H.
    assert (Hl : Str.lstrip_by p s = s).
    { rewrite <- H at 1. rewrite lstrip_rstrip by apply lstrip_by_idem. exact H. }
    rewrite Hl in H. split; [apply lstrip_by_first, Hl | apply rstrip_by_last, H].
  - intros [H1 H2]. rewrite (lstrip_by_fixed p s H1). apply rstrip_by_fixed, H2.
Qed.

Lemma last_char_lstrip (p : ascii -> bool) (s : string) (b : ascii) :
  last_char s = Some b -> p b = false -> last_char (Str.lstrip_by p s) = Some b.
Proof.
  intros H Hb. induction s as [| a s IH]; [discriminate |].
  cbn [Str.lstrip_by]. destruct (p a) eqn:Ea; [| exact H].
  cbn [last_char] in H. destruct (last_char s) as [c |] eqn:E.
  - apply IH. exact H.
  - injection H as ->. congruence.
Qed.

Lemma last_char_lower (s : string) :
  last_char (Str.lower s) = option_map Str.lower_char (last_char s).
Proof.
  induction s as [| a s IH]; [reflexivity |].
  cbn [Str.lower last_char]. rewrite IH.
  destruct (last_char s); reflexivity.
Qed.

Lemma last_char_cons (a : ascii) (s : string) (b : ascii) :
  last_char s = Some b -> last_char (String a s) = Some b.
Proof. intros H. simpl. rewrite H. reflexivity. Qed.

(** The substitution keeps a last character that is not white space. *)
Lemma squeeze_last (c : ascii) (s : string) (b : ascii) :
  Str.is_space c = false ->
  last_char s = Some b -> Str.is_space b = false ->
  last_char (squeeze c s) = Some b.
Proof.
  intros Hc. remember (String.length s) as n eqn:Hn.
  assert (Hle : String.length s <= n) by lia. clear Hn.
  revert s Hle. induction n as [| n IH]; intros s Hle H Hb.
  - destruct s; [discriminate | simpl in Hle; lia].
  - destruct s as [| a s]; [discriminate |]. simpl in Hle.
    destruct (squeeze_cases c Hc a s) as [(t & E & -> & Ht) | [_ ->]].
    + assert (Hl : last_char (String c t) = Some b).
      { rewrite <- E. apply last_char_lstrip; assumption. }
      cbn [last_char] in Hl. destruct (last_char t) as [d |] eqn:Et.
      * apply last_char_cons. apply IH; [lia | | exact Hb].
        apply last_char_lstrip; congruence.
      * apply last_char_none in Et. subst t. cbn [Str.lstrip_by].
        rewrite squeeze_nil by exact Hc. exact Hl.
    + cbn [last_char] in H. destruct (last_char s) as [d |] eqn:Es.
      * apply last_char_cons. apply IH; [lia | congruence | exact Hb].
      * apply last_char_none in Es. subst s.
        rewrite squeeze_nil by exact Hc. exact H.
Qed.

(** It keeps the ends clear of white space and of parentheses. *)
Lemma squeeze_clear (c : ascii) (p : ascii -> bool) (s : string) :
  Str.is_space c = false -> p c = false ->
  clear_ends Str.is_space s -> clear_ends p s ->
  clear_ends Str.is_space (squeeze c s) /\ clear_ends p (squeeze c s).
Proof.
  intros Hc Hp [Hs1 Hs2] [Hp1 Hp2]. unfold clear_ends.
  rewrite (squeeze_hd c Hc).
  assert (Hhd : forall q : ascii -> bool, q c = false ->
            match hd_char s with Some a => q a = false | None => True end ->
            match (if match hd_char (Str.lstrip_by Str.is_space s) with
                      | Some d => Ascii.eqb d c | None => false end
                   then Some c else hd_char s)
            with Some a => q a = false | None => True end).
  { intros q Hq H.
    destruct (match hd_char (Str.lstrip_by Str.is_space s) with
              | Some d => Ascii.eqb d c | None => false end); assumption. }
  assert (Hlast : forall q : ascii -> bool,
            match last_char s with Some b => q b = false | None => True end ->
            match last_char (squeeze c s) with
            | Some b => q b = false | None => True end).
  { intros q H. destruct (last_char s) as [b |] eqn:El.
    - rewrite (squeeze_last c s b Hc El Hs2). exact H.
    - apply last_char_none in El. subst s. rewrite squeeze_nil by exact Hc.
      exact I. }
  split; split;
    [apply (Hhd Str.is_space Hc Hs1) | apply (Hlast _ Hs2)
    | apply (Hhd p Hp Hp1) | apply (Hlast _ Hp2)].
Qed.

Lemma paren_lower_char (a : ascii) :
  Re.one_of "()" (Str.lower_char a) = Re.one_of "()" a.
Proof. destruct a as [[] [] [] [] [] [] [] []]; reflexivity. Qed.

(** An input that, its enclosing parentheses removed, neither begins nor
    ends with white space is normalized to a fixed point of the
    normalization. *)
Lemma normalize_idempotent_on (x : string) :
  Str.strip (strip_parens x) = strip_parens x ->
  _normalize_email (_normalize_email x) = _normalize_email x.
Proof.
  intros Hx. apply normalize_fixed_iff.
  rewrite normalize_unfold. destruct (String.eqb x ""); [reflexivity |].
  assert (Hpar : clear_ends (Re.one_of "()") (strip_parens x)).
  { apply strip_by_clear. unfold strip_parens, Str.strip_by.
    rewrite lstrip_rstrip by apply lstrip_by_idem. apply rstrip_by_idem. }
  apply strip_by_clear in Hx.
  destruct (squeeze_clear "@" (Re.one_of "()") (strip_parens x)
              eq_refl eq_refl Hx Hpar) as [H1 H2].
  destruct (squeeze_clear "." (Re.one_of "()") _ eq_refl eq_refl H1 H2)
    as [H3 H4].
  apply strip_by_clear in H3. unfold Str.strip. rewrite H3.
  apply strip_by_clear. destruct H4 as [H4 H5]. unfold clear_ends.
  rewrite hd_char_lower, last_char_lower. split.
  - destruct (hd_char _); [| exact I]. simpl. rewrite paren_lower_char. exact H4.
  - destruct (last_char _); [| exact I]. simpl. rewrite paren_lower_char. exact H5.
Qed.

(** C7. Normalizing a second time changes nothing exactly when the
    normalized string neither begins nor ends with a parenthesis; this is
    so for every input that, its enclosing parentheses removed, neither
    begins nor ends with white space. *)
Theorem normalize_twice (x : string) :
  (_normalize_email (_normalize_email x) = _normalize_email x
   <-> strip_parens (_normalize_email x) = _normalize_email x) /\
  (Str.strip (strip_parens x) = strip_parens x ->
   _normalize_email (_normalize_email x) = _normalize_email x).
Proof.
  split; [apply normalize_fixed_iff | apply normalize_idempotent_on].
Qed.

Lemma normalize_twice_witness :
  _normalize_email (_normalize_email "(Jane @ Example . COM)")
  = _normalize_email "(Jane @ Example . COM)".
Proof.
  apply (proj2 (normalize_twice "(Jane @ Example . COM)")). reflexivity.
Defined.

End CleanInputs.

(** * Further properties *)

(** ** Letter case and the matcher *)

Section CaseBlind.
Import Re.

Ltac by_char c :=
  destruct c as [[] [] [] [] [] [] [] []]; reflexivity.

Lemma is_word_lower_char (c : ascii) : is_word (Str.lower_char c) = is_word c.
Proof. by_char c. Qed.

Lemma newline_lower_char (c : ascii) :
  Ascii.eqb (Str.lower_char c) "010" = Ascii.eqb c "010".
Proof. by_char c. Qed.

Lemma take_lower (n : nat) (s : string) :
  Str.take n (Str.lower s) = Str.lower (Str.take n s).
Proof.
  revert s. induction n as [| n IH]; intros [| a s]; simpl; try reflexivity.
  rewrite IH. reflexivity.
Qed.

Lemma single_lower (ok : ascii -> bool) (st : mstate) :
  (forall d, ok (Str.lower_char d) = ok d) ->
  single ok (lower_state st) = map lower_state (single ok st).
Proof.
  intros Hok. unfold single, advance, lower_state. cbn [rest caps prev].
  destruct (rest st) as [| d s]; [reflexivity |].
  cbn [Str.lower]. rewrite Hok. destruct (ok d); reflexivity.
Qed.

Lemma shorter_lower (st st' : mstate) :
  shorter (lower_state st) (lower_state st') = shorter st st'.
Proof. unfold shorter, lower_state. cbn [rest]. rewrite !lower_length. reflexivity. Qed.

Lemma filter_shorter_lower (st : mstate) (l : list mstate) :
  List.filter (shorter (lower_state st)) (map lower_state l)
  = map lower_state (List.filter (shorter st) l).
Proof.
  induction l as [| x l IH]; [reflexivity |].
  cbn [map List.filter]. rewrite shorter_lower, IH.
  destruct (shorter st x); reflexivity.
Qed.

Lemma flat_map_lower (f g : mstate -> list mstate) (l : list mstate) :
  (forall st, f (lower_state st) = map lower_state (g st)) ->
  flat_map f (map lower_state l) = map lower_state (flat_map g l).
Proof.
  intros H. induction l as [| x l IH]; [reflexivity |].
  cbn [map flat_map]. rewrite H, IH, map_app. reflexivity.
Qed.

Lemma greedy_lower (step : mstate -> list mstate) (fuel : nat) (st : mstate) :
  (forall st, step (lower_state st) = map lower_state (step st)) ->
  greedy step fuel (lower_state st) = map lower_state (greedy step fuel st).
Proof.
  intros H. revert st. induction fuel as [| fuel IH]; intros st; [reflexivity |].
  cbn [greedy]. rewrite H, filter_shorter_lower.
  rewrite (flat_map_lower _ (greedy step fuel)) by exact IH.
  rewrite map_app. reflexivity.
Qed.

Lemma lazy_lower (step : mstate -> list mstate) (fuel : nat) (st : mstate) :
  (forall st, step (lower_state st) = map lower_state (step st)) ->
  lazy step fuel (lower_state st) = map lower_state (lazy step fuel st).
Proof.
  intros H. revert st. induction fuel as [| fuel IH]; intros st; [reflexivity |].
  cbn [lazy]. rewrite H, filter_shorter_lower.
  rewrite (flat_map_lower _ (lazy step fuel)) by exact IH. reflexivity.
Qed.

(** A case-blind pattern matches the lower-cased text at the same places. *)
Lemma run_lower (r : regex) (st : mstate) :
  case_blind r ->
  run false r (lower_state st) = map lower_state (run false r st).
Proof.
  revert st. induction r as [c | p | | r1 IH1 r2 IH2 | r IH | r IH | r IH | | | | r IH];
    intros st Hr; cbn [run case_blind] in *.
  - apply single_lower. exact Hr.
  - apply single_lower. exact Hr.
  - apply single_lower. intros d. rewrite newline_lower_char. reflexivity.
  - destruct Hr as [H1 H2]. rewrite (IH1 st H1).
    apply flat_map_lower. intros st'. apply IH2, H2.
  - replace (String.length (rest (lower_state st))) with (String.length (rest st))
      by (unfold lower_state; cbn [rest]; rewrite lower_length; reflexivity).
    apply greedy_lower. intros st'. apply IH, Hr.
  - replace (String.length (rest (lower_state st))) with (String.length (rest st))
      by (unfold lower_state; cbn [rest]; rewrite lower_length; reflexivity).
    apply lazy_lower. intros st'. apply IH, Hr.
  - rewrite (IH st Hr), map_app. reflexivity.
  - unfold lower_state at 1. cbn [prev]. destruct (prev st); reflexivity.
  - unfold lower_state at 1. cbn [rest].
    destruct (rest st) as [| a [| b s]]; [reflexivity | |].
    + cbn [Str.lower].
      destruct a as [[] [] [] [] [] [] [] []]; reflexivity.
    + cbn [Str.lower].
      destruct a as [[] [] [] [] [] [] [] []]; reflexivity.
  - unfold at_word, next_char, lower_state. cbn [prev rest].
    assert (Hp : match option_map Str.lower_char (prev st) with
                 | Some c => is_word c | None => false end
                 = match prev st with Some c => is_word c | None => false end).
    { destruct (prev st); [apply is_word_lower_char | reflexivity]. }
    assert (Hn : match match Str.lower (rest st) with
                       | "" => None | String c _ => Some c end with
                 | Some c => is_word c | None => false end
                 = match match rest st with
                         | "" => None | String c _ => Some c end with
                   | Some c => is_word c | None => false end).
    { destruct (rest st); [reflexivity | apply is_word_lower_char]. }
    rewrite Hp, Hn.
    match goal with |- context [if ?b then _ else _] => destruct b end; reflexivity.
  - rewrite (IH st Hr), !map_map. apply map_ext. intros st'.
    unfold lower_state. cbn [prev rest caps].
    rewrite map_app, !lower_length, take_lower. reflexivity.
Qed.

Lemma matches_lower (r : regex) (s : string) :
  case_blind r -> matches false r (Str.lower s) = matches false r s.
Proof.
  intros Hr. unfold matches, match_at.
  change (MState None (Str.lower s) []) with (lower_state (MState None s [])).
  rewrite (run_lower r _ Hr).
  destruct (run false r (MState None s [])); reflexivity.
Qed.

End CaseBlind.

(** ** Letter case and the string operations *)

Section CaseStrings.

Lemma blind_at : blind "@".
Proof. intros d. destruct d as [[] [] [] [] [] [] [] []]; reflexivity. Qed.

Lemma blind_dot : blind ".".
Proof. intros d. destruct d as [[] [] [] [] [] [] [] []]; reflexivity. Qed.

Lemma blind_slash : blind "/".
Proof. intros d. destruct d as [[] [] [] [] [] [] [] []]; reflexivity. Qed.

Lemma blind_flip (c : ascii) :
  blind c -> forall d, Ascii.eqb c (Str.lower_char d) = Ascii.eqb c d.
Proof. intros H d. rewrite (Ascii.eqb_sym c), H. apply Ascii.eqb_sym. Qed.

Lemma eqb_nil_lower (s : string) :
  String.eqb (Str.lower s) "" = String.eqb s "".
Proof. destruct s; reflexivity. Qed.

Lemma count_lower (c : ascii) (s : string) :
  blind c -> Str.count c (Str.lower s) = Str.count c s.
Proof.
  intros Hc. induction s as [| a s IH]; [reflexivity |].
  cbn [Str.lower Str.count]. rewrite Hc, IH. reflexivity.
Qed.

Lemma has_char_lower (c : ascii) (s : string) :
  blind c -> Str.has_char c (Str.lower s) = Str.has_char c s.
Proof.
  intros Hc. unfold Str.has_char. induction s as [| a s IH]; [reflexivity |].
  cbn [Str.lower Str.contains Str.startswith].
  rewrite (blind_flip c Hc), IH. reflexivity.
Qed.

Lemma contains_dots_lower (s : string) :
  Str.contains ".." (Str.lower s) = Str.contains ".." s.
Proof.
  induction s as [| a s IH]; [reflexivity |].
  cbn [Str.lower Str.contains]. rewrite IH. f_equal.
  cbn [Str.startswith]. rewrite (blind_flip "." blind_dot).
  destruct s as [| b s]; [reflexivity |].
  cbn [Str.lower]. rewrite (blind_flip "." blind_dot). reflexivity.
Qed.

Lemma split_lower (c : ascii) (s : string) :
  blind c -> Str.split c (Str.lower s) = map Str.lower (Str.split c s).
Proof.
  intros Hc. induction s as [| a s IH]; [reflexivity |].
  cbn [Str.lower Str.split]. rewrite Hc, IH.
  destruct (Ascii.eqb a c); [reflexivity |].
  destruct (Str.split c s); reflexivity.
Qed.

Lemma item_lower (l : list string) (i : nat) :
  Str.item (map Str.lower l) i = Str.lower (Str.item l i).
Proof. unfold Str.item. apply (map_nth Str.lower l "" i). Qed.

Lemma last_item_lower (l : list string) :
  Str.last_item (map Str.lower l) = Str.lower (Str.last_item l).
Proof.
  unfold Str.last_item. induction l as [| x l IH]; [reflexivity |].
  destruct l as [| y l]; [reflexivity |]. exact IH.
Qed.

Lemma len_lower (s : string) : Str.len (Str.lower s) = Str.len s.
Proof. unfold Str.len. rewrite lower_length. reflexivity. Qed.

End CaseStrings.

(** ** Letter case and the two validators *)

Section CaseValidators.

Ltac blind_class :=
  let d := fresh "d" in
  intros d; destruct d as [[] [] [] [] [] [] [] []]; reflexivity.

Lemma local_pattern_blind :
  case_blind (Re.Seq Re.Bol (Re.Seq (Re.Plus (Re.Set_ Extractor.local_char)) Re.Eol)).
Proof. cbn. repeat split; blind_class. Qed.

Lemma domain_pattern_blind :
  case_blind (Re.Seq Re.Bol (Re.Seq (Re.Plus (Re.Set_ Extractor.domain_char))
                (Re.Seq (Re.Chr ".") (Re.Seq (Re.AtLeast2 (Re.Set_ Re.alpha)) Re.Eol)))).
Proof. cbn. repeat split; blind_class. Qed.

Lemma email_pattern_blind : case_blind Verifier.email_pattern.
Proof. cbn. repeat split; blind_class. Qed.

(** The validator of the extractor gives an address and its lower-case
    form the same verdict. *)
Lemma valid_email_case (email : string) :
  Extractor._is_valid_email (Str.lower email) = Extractor._is_valid_email email.
Proof.
  unfold Extractor._is_valid_email.
  rewrite eqb_nil_lower, (has_char_lower "@" email blind_at).
  rewrite (split_lower "@" email blind_at), length_map, !item_lower.
  rewrite !eqb_nil_lower, !len_lower.
  rewrite (matches_lower _ _ local_pattern_blind).
  rewrite (matches_lower _ _ domain_pattern_blind).
  reflexivity.
Qed.

(** X1. The extractor's validator does not see the letter case of an
    address made of code points below 256, which are the characters of
    the strings of this development. *)
Theorem is_valid_email_lower (email : string) :
  Extractor._is_valid_email (Str.lower email) = Extractor._is_valid_email email.
Proof. apply valid_email_case. Qed.

Lemma validate_email_format_lower (email : string) :
  Verifier._validate_email_format (Str.lower email)
  = Verifier._validate_email_format email.
Proof.
  unfold Verifier._validate_email_format.
  rewrite eqb_nil_lower, (has_char_lower "@" email blind_at).
  rewrite (count_lower "@" email blind_at).
  rewrite (split_lower "@" email blind_at), !item_lower.
  rewrite !eqb_nil_lower, !len_lower, contains_dots_lower.
  rewrite (matches_lower _ _ email_pattern_blind).
  rewrite (has_char_lower "." _ blind_dot).
  rewrite (split_lower "." _ blind_dot), last_item_lower, len_lower.
  reflexivity.
Qed.

(** X2. Verification does not see the letter case of an address made of
    code points below 256, which are the characters of the strings of
    this development: the address in lower case gets the same verdict,
    confidence and reason, whatever the resolver and the settings. *)
Theorem verify_email_lower (dns : string -> bool * string)
    (self : Verifier.EmailVerifier) (email : string) :
  Verifier.verify_email dns self (Str.lower email)
  = Verifier.verify_email dns self email.
Proof.
  unfold Verifier.verify_email.
  rewrite validate_email_format_lower.
  rewrite (split_lower "@" email blind_at), item_lower, lower_idem.
  reflexivity.
Qed.

End CaseValidators.

(** ** What the extractor returns *)

Section Extracted.
Import Extractor.

Lemma normalize_lower (x : string) :
  Str.lower (_normalize_email x) = _normalize_email x.
Proof. apply (normalized_shape x). Qed.

Lemma fold_left_keeps {A} (P : string -> Prop) (f : gset string -> A -> gset string)
    (l : list A) (s : gset string) :
  (forall s x, (forall e, e ∈ s -> P e) -> forall e, e ∈ f s x -> P e) ->
  (forall e, e ∈ s -> P e) ->
  forall e, e ∈ fold_left f l s -> P e.
Proof.
  intros Hf. revert s. induction l as [| x l IH]; intros s Hs; [exact Hs |].
  simpl. apply IH. apply Hf, Hs.
Qed.

Lemma add_clean_well_formed (s : gset string) (x : string) :
  (forall e, e ∈ s -> well_formed e) ->
  forall e, e ∈ add_clean s x -> well_formed e.
Proof.
  intros Hs e. unfold add_clean.
  destruct (negb (String.eqb (_normalize_email x) "")
            && _is_valid_email (_normalize_email x)) eqn:E; [| apply Hs].
  apply andb_true_iff in E as [_ E].
  intros He. apply elem_of_union in He as [He | He]; [| apply Hs, He].
  apply elem_of_singleton in He. subst e.
  split; [exact E | apply normalize_lower].
Qed.

Lemma add_obfuscated_well_formed (s : gset string) (m : string * list string) :
  (forall e, e ∈ s -> well_formed e) ->
  forall e, e ∈ add_obfuscated s m -> well_formed e.
Proof.
  intros Hs e. unfold add_obfuscated.
  destruct (snd m) as [| user [| domain [| tld [| ? ?]]]]; try apply Hs.
  destruct (_is_valid_email (user ++ "@" ++ domain ++ "." ++ tld)) eqn:E;
    [| apply Hs].
  intros He. apply elem_of_union in He as [He | He]; [| apply Hs, He].
  apply elem_of_singleton in He. subst e.
  split; [rewrite valid_email_case; exact E | apply lower_idem].
Qed.

Lemma empty_well_formed (e : string) : e ∈ (∅ : gset string) -> well_formed e.
Proof. intros H. apply not_elem_of_empty in H. destruct H. Qed.

Lemma content_well_formed (content e : string) :
  e ∈ extract_emails_from_content content -> well_formed e.
Proof.
  unfold extract_emails_from_content.
  destruct (String.eqb content ""); [apply empty_well_formed |].
  intros He. apply elem_of_union in He as [He | He];
    [apply elem_of_union in He as [He | He] |].
  - revert e He. apply fold_left_keeps; [| apply empty_well_formed].
    intros s pattern Hs. apply fold_left_keeps; [| exact Hs].
    intros s' x. apply add_clean_well_formed.
  - revert e He. unfold _extract_obfuscated_emails.
    apply fold_left_keeps; [intros s m; apply add_obfuscated_well_formed |].
    apply fold_left_keeps; [intros s m; apply add_obfuscated_well_formed |].
    apply empty_well_formed.
  - revert e He. unfold _extract_emails_from_context.
    apply fold_left_keeps; [| apply empty_well_formed].
    intros s keyword Hs. apply fold_left_keeps; [| exact Hs].
    intros s' x. apply add_clean_well_formed.
Qed.

Lemma links_well_formed (page : soup) (e : string) :
  e ∈ extract_emails_from_links page -> well_formed e.
Proof.
  unfold extract_emails_from_links. revert e.
  apply fold_left_keeps; [| apply empty_well_formed].
  intros s href Hs e.
  destruct (Str.startswith "mailto:" href); [| apply Hs].
  match goal with
  | |- context [_is_valid_email ?c] => destruct (_is_valid_email c) eqn:E
  end; [| apply Hs].
  intros He. apply elem_of_union in He as [He | He]; [| apply Hs, He].
  apply elem_of_singleton in He. subst e.
  split; [exact E | apply lower_idem].
Qed.

(** X3. Whatever the text, the markup and the target domain, every address
    that [extract_all_emails] reports as found passes the extractor's
    validator and is in lower case. *)
Theorem found_emails_well_formed (content : string) (page : option soup)
    (domain : option string) (email : string) :
  email ∈ fst (fst (extract_all_emails content page domain)) ->
  Extractor._is_valid_email email = true /\ Str.lower email = email.
Proof.
  unfold extract_all_emails.
  destruct page as [page |], domain as [domain |];
    try destruct (String.eqb domain ""); cbn [fst snd]; intros H;
    repeat (apply elem_of_union in H as [H | H]);
    first [ apply (empty_well_formed _ H)
          | apply (content_well_formed _ _ H)
          | apply (links_well_formed _ _ H) ].
Qed.

Lemma found_emails_well_formed_witness :
  Extractor._is_valid_email "jane@x.org" = true /\ Str.lower "jane@x.org" = "jane@x.org".
Proof.
  apply (found_emails_well_formed "Mail Jane@X.org" None None "jane@x.org").
  apply (bool_decide_unpack _). vm_compute. exact I.
Defined.

End Extracted.

(** ** The confidence of the extractor *)

Section ExtractorScore.
Import Extractor.

Ltac score_cases :=
  unfold get_email_confidence_score;
  repeat match goal with
         | |- context [if ?b then _ else _] => destruct b
         end.

(** X4. For one address and one target domain, a mailto link scores
    higher than an address found in the text, which scores higher than a
    generated candidate, which scores higher than an address of any other
    source; and every score lies between 0 and 100. *)
Theorem confidence_score_by_source (email domain other : string) :
  other <> "mailto_link" -> other <> "found" -> other <> "generated" ->
  (get_email_confidence_score email other domain
   < get_email_confidence_score email "generated" domain
   < get_email_confidence_score email "found" domain)%Z /\
  (get_email_confidence_score email "found" domain
   < get_email_confidence_score email "mailto_link" domain <= 100)%Z /\
  (0 <= get_email_confidence_score email other domain)%Z.
Proof.
  intros H1 H2 H3.
  apply String.eqb_neq in H1, H2, H3.
  unfold get_email_confidence_score. rewrite H1, H2, H3.
  change (String.eqb "generated" "mailto_link") with false.
  change (String.eqb "generated" "found") with false.
  change (String.eqb "generated" "generated") with true.
  change (String.eqb "found" "mailto_link") with false.
  change (String.eqb "found" "found") with true.
  change (String.eqb "mailto_link" "mailto_link") with true.
  cbv iota.
  repeat match goal with
         | |- context [if ?b then _ else _] => destruct b
         end; lia.
Qed.

Lemma confidence_score_by_source_witness :
  (get_email_confidence_score "info@example.com" "guess" "example.com"
   < get_email_confidence_score "info@example.com" "generated" "example.com"
   < get_email_confidence_score "info@example.com" "found" "example.com")%Z /\
  (get_email_confidence_score "info@example.com" "found" "example.com"
   < get_email_confidence_score "info@example.com" "mailto_link" "example.com"
   <= 100)%Z /\
  (0 <= get_email_confidence_score "info@example.com" "guess" "example.com")%Z.
Proof.
  apply (confidence_score_by_source "info@example.com" "example.com" "guess");
    discriminate.
Defined.

End ExtractorScore.

(** ** Industries and candidates *)

Section Industries.
Import Extractor.

Lemma startswith_split (p s : string) :
  Str.startswith p s = true -> exists t, s = p ++ t.
Proof.
  revert s. induction p as [| a p IH]; intros s H.
  - exists s. reflexivity.
  - destruct s as [| b s]; [discriminate |]. simpl in H.
    apply andb_true_iff in H as [H1 H2]. apply Ascii.eqb_eq in H1. subst b.
    destruct (IH s H2) as [t ->]. exists t. reflexivity.
Qed.

Lemma contains_app_r (a b t : string) :
  Str.contains a b = true -> Str.contains a (b ++ t) = true.
Proof.
  induction b as [| c b IH]; intros H.
  - destruct a as [| x a]; [destruct t; reflexivity | discriminate].
  - change (String c b ++ t) with (String c (b ++ t)).
    cbn [Str.contains] in *. apply orb_true_iff in H as [H | H].
    + apply (startswith_app a (String c b) t) in H.
      change (String c b ++ t) with (String c (b ++ t)) in H.
      rewrite H. reflexivity.
    + rewrite (IH H). apply orb_true_r.
Qed.

(** A part of a part is a part. *)
Lemma contains_trans (a b s : string) :
  Str.contains a b = true -> Str.contains b s = true -> Str.contains a s = true.
Proof.
  intros Hab. induction s as [| c s IH]; intros H.
  - cbn [Str.contains] in H. rewrite orb_false_r in H.
    apply startswith_split in H as [t Ht].
    rewrite Ht. apply contains_app_r, Hab.
  - cbn [Str.contains] in H. apply orb_true_iff in H as [H | H].
    + apply startswith_split in H as [t ->]. apply contains_app_r, Hab.
    + cbn [Str.contains]. rewrite (IH H). apply orb_true_r.
Qed.

(** X5. The keywords "capital", "hospital", "university" and "institute"
    never decide the industry: each holds the technology keyword "it", so
    a domain with one of them is classified as "tech". *)
Theorem industry_keywords_shadowed (domain keyword : string) :
  In keyword ["capital"; "hospital"; "university"; "institute"] ->
  Str.contains keyword domain = true ->
  _detect_industry domain = "tech".
Proof.
  intros Hk Hd.
  assert (Hit : Str.contains "it" domain = true).
  { apply (contains_trans "it" keyword domain); [| exact Hd].
    simpl in Hk. destruct Hk as [<- | [<- | [<- | [<- | []]]]]; reflexivity. }
  unfold _detect_industry.
  assert (Str.any (fun k => Str.contains k domain)
            ["tech"; "software"; "app"; "dev"; "code"; "digital"; "it"; "computer"]
          = true) as ->.
  { apply existsb_exists. exists "it". split; [| exact Hit].
    simpl. tauto. }
  reflexivity.
Qed.

Lemma industry_keywords_shadowed_witness :
  _detect_industry "cityhospital.org" = "tech".
Proof.
  apply (industry_keywords_shadowed "cityhospital.org" "hospital");
    [simpl; tauto | reflexivity].
Defined.

(** The candidates, written out: fourteen generic addresses on the cleaned
    domain, then those of the industry, then those of the company. *)
Lemma generate_unfold (domain : string) :
  generate_common_emails domain
  = List.app
      (map (fun l => l ++ "@" ++ cleaned domain)
         ["info"; "contact"; "hello"; "support"; "sales"; "admin"; "team";
          "office"; "help"; "service"; "inquiry"; "general"; "main"; "primary"])
      (List.app (_generate_industry_emails (cleaned domain))
                (_generate_company_emails (cleaned domain))).
Proof.
  unfold generate_common_emails. fold (cleaned domain).
  generalize (cleaned domain). intros c.
  rewrite <- app_assoc. f_equal.
  cbv - [String.append]. rewrite !append_nil_r. reflexivity.
Qed.

(** X6. When the cleaned domain is its first label followed by ".com", the
    candidates info@, contact@ and hello@ of that domain are generated
    twice: the list has duplicates. *)
Theorem generate_duplicates (domain : string) :
  cleaned domain = first_label (cleaned domain) ++ ".com" ->
  ~ NoDup (generate_common_emails domain).
Proof.
  intros Hc Hnd. rewrite generate_unfold in Hnd.
  apply NoDup_app in Hnd as (_ & Hdis & _).
  apply (Hdis ("info@" ++ cleaned domain)); apply list_elem_of_In.
  - left. reflexivity.
  - apply in_or_app. right. unfold _generate_company_emails.
    fold (first_label (cleaned domain)).
    right. left. rewrite Hc at 2.
    generalize (first_label (cleaned domain)). intros t. reflexivity.
Qed.

Lemma generate_duplicates_witness :
  ~ NoDup (generate_common_emails "www.Example.com").
Proof. apply (generate_duplicates "www.Example.com"). reflexivity. Defined.

End Industries.

Section CandidateCount.
Import Extractor.

(** X7. The candidate list has 18 entries, or 22 when the cleaned domain
    holds a keyword of one of the six industries. *)
Theorem generate_size (domain : string) :
  List.length (generate_common_emails domain)
  = if String.eqb (_detect_industry (Str.lower (cleaned domain))) "general"
    then 18 else 22.
Proof.
  rewrite generate_unfold, !length_app, length_map.
  unfold _generate_industry_emails, _generate_company_emails.
  unfold _detect_industry.
  repeat match goal with
         | |- context [if Str.any ?f ?l then _ else _] => destruct (Str.any f l)
         end; reflexivity.
Qed.

End CandidateCount.

(** ** The outcomes of verification *)

Section Outcomes.
Import Verifier.

Variable _check_mx_record : string -> bool * string.

Lemma reputation_values (domain : string) :
  In (fst (_check_domain_reputation domain)) [90; 20; 30; 40; 60]%Z.
Proof.
  unfold _check_domain_reputation.
  repeat match goal with
         | |- context [if ?b then _ else _] => destruct b
         end; simpl; tauto.
Qed.

Lemma reputation_range (domain : string) :
  (20 <= fst (_check_domain_reputation domain) <= 90)%Z.
Proof.
  pose proof (reputation_values domain) as H. simpl in H.
  destruct H as [<- | [<- | [<- | [<- | [<- | []]]]]]; lia.
Qed.

Lemma final_confidence_range (domain : string) :
  (80 <= final_confidence domain <= 100)%Z.
Proof.
  unfold final_confidence. pose proof (reputation_range domain).
  repeat match goal with
         | |- context [if ?b then _ else _] => destruct b
         end; lia.
Qed.

Lemma append_assoc (a b c : string) : (a ++ b) ++ c = a ++ (b ++ c).
Proof.
  induction a as [| x a IH]; [reflexivity |].
  change (String x a ++ b) with (String x (a ++ b)).
  change (String x (a ++ b) ++ c) with (String x ((a ++ b) ++ c)).
  rewrite IH. reflexivity.
Qed.

Lemma success_reason (n : string) :
  Str.join ", "
    ["Format: OK"; "MX: OK"; "SMTP: OK"; "Reputation: " ++ n ++ "/100";
     "Not disposable"]
  = "Format: OK, MX: OK, SMTP: OK, Reputation: " ++ n ++ "/100, Not disposable".
Proof.
  change (Str.join ", "
            ["Format: OK"; "MX: OK"; "SMTP: OK"; "Reputation: " ++ n ++ "/100";
             "Not disposable"])
    with ("Format: OK, MX: OK, SMTP: OK, Reputation: "
          ++ ((n ++ "/100") ++ ", Not disposable")).
  rewrite append_assoc. reflexivity.
Qed.

(** The four ways in which [verify_email] ends *)
Lemma verify_email_cases (self : EmailVerifier) (email : string) :
  let result := verify_email _check_mx_record self email in
  let domain := domain_of email in
  (fst (_validate_email_format email) = false /\
   result = (false, 0%Z,
             "Format invalid: " ++ snd (_validate_email_format email))) \/
  (fst (_validate_email_format email) = true /\
   fst (_check_disposable_email domain) = true /\
   result = (false, 10%Z,
             "Disposable email: " ++ snd (_check_disposable_email domain))) \/
  (fst (_validate_email_format email) = true /\
   fst (_check_disposable_email domain) = false /\
   mock_dns self = false /\ fst (_check_mx_record domain) = false /\
   result = (false, 0%Z,
             "MX check failed: " ++ snd (_check_mx_record domain))) \/
  (fst (_validate_email_format email) = true /\
   fst (_check_disposable_email domain) = false /\
   (mock_dns self = true \/ fst (_check_mx_record domain) = true) /\
   result = (true, final_confidence domain,
             "Format: OK, MX: OK, SMTP: OK, Reputation: "
             ++ Str.of_Z (fst (_check_domain_reputation domain))
             ++ "/100, Not disposable")).
Proof.
  cbv zeta. unfold verify_email. fold (domain_of email).
  destruct (_validate_email_format email) as [[|] fr]; cbn [negb fst snd];
    [| left; split; reflexivity].
  right.
  destruct (_check_disposable_email (domain_of email)) as [[|] dr];
    cbn [fst snd]; [left; repeat split |].
  right.
  pose proof (final_confidence_range (domain_of email)) as Hc.
  pose proof (reputation_range (domain_of email)) as Hr.
  assert (Hconf : forall rep rr, _check_domain_reputation (domain_of email) = (rep, rr) ->
            _calculate_enhanced_confidence true true true rep (domain_of email)
            = final_confidence (domain_of email)).
  { intros rep rr E. unfold _calculate_enhanced_confidence, final_confidence.
    rewrite E. cbn [negb fst].
    repeat match goal with
           | |- context [if ?b then _ else _] => destruct b
           end; f_equal; lia. }
  destruct (_check_domain_reputation (domain_of email)) as [rep rr] eqn:Erep.
  cbn [fst] in Hr. specialize (Hconf rep rr eq_refl).
  assert (Hpos : (0 <? rep)%Z = true) by (apply Z.ltb_lt; lia).
  assert (Hthr : (30 <? final_confidence (domain_of email))%Z = true)
    by (apply Z.ltb_lt; lia).
  destruct (mock_dns self) eqn:Em.
  - right. cbn [negb]. rewrite Hconf, Hthr, Hpos.
    repeat split; auto. cbn [andb List.app fst]. rewrite success_reason. reflexivity.
  - destruct (_check_mx_record (domain_of email)) as [[|] mr]; cbn [negb fst snd].
    + right. rewrite Hconf, Hthr, Hpos. repeat split; auto.
      cbn [andb List.app fst]. rewrite success_reason. reflexivity.
    + left. repeat split.
Qed.

(** X8. An address is valid exactly when it passes the format stage, its
    domain is not disposable, and the MX stage succeeds or is mocked: the
    threshold on the confidence rejects nothing. *)
Theorem verify_email_valid_iff (self : EmailVerifier) (email : string) :
  fst (fst (verify_email _check_mx_record self email)) = true <->
  fst (_validate_email_format email) = true /\
  fst (_check_disposable_email (domain_of email)) = false /\
  (mock_dns self = true \/ fst (_check_mx_record (domain_of email)) = true).
Proof.
  destruct (verify_email_cases self email)
    as [(Hf & ->) | [(Hf & Hd & ->) | [(Hf & Hd & Hm & Hx & ->) | (Hf & Hd & Hm & ->)]]];
    cbn [fst snd]; split; try discriminate; try tauto.
  - intros (Hf' & _). congruence.
  - intros (_ & Hd' & _). congruence.
  - intros (_ & _ & [Hm' | Hx']); congruence.
Qed.

(** X9. The confidence is 0 (format or MX failure), 10 (disposable
    domain) or between 80 and 100, and the address is valid exactly in the
    last case. *)
Theorem verify_email_confidence_levels (self : EmailVerifier) (email : string) :
  let result := verify_email _check_mx_record self email in
  (snd (fst result) = 0%Z /\ fst (fst result) = false) \/
  (snd (fst result) = 10%Z /\ fst (fst result) = false /\
   fst (_check_disposable_email (domain_of email)) = true) \/
  ((80 <= snd (fst result) <= 100)%Z /\ fst (fst result) = true).
Proof.
  cbv zeta.
  destruct (verify_email_cases self email)
    as [(Hf & ->) | [(Hf & Hd & ->) | [(Hf & Hd & Hm & Hx & ->) | (Hf & Hd & Hm & ->)]]];
    cbn [fst snd]; auto.
  right. right. split; [apply final_confidence_range | reflexivity].
Qed.

(** X10. A successful verification always reports the same five outcomes:
    its reason is "Format: OK, MX: OK, SMTP: OK, Reputation: N/100, Not
    disposable", N being the reputation of the domain, one of 20, 30, 40,
    60 and 90. *)
Theorem verify_email_success_reason (self : EmailVerifier) (email : string) :
  fst (fst (verify_email _check_mx_record self email)) = true ->
  let reputation := fst (_check_domain_reputation (domain_of email)) in
  snd (verify_email _check_mx_record self email)
  = "Format: OK, MX: OK, SMTP: OK, Reputation: " ++ Str.of_Z reputation
    ++ "/100, Not disposable" /\
  In reputation [90; 20; 30; 40; 60]%Z.
Proof.
  intros Hv. cbv zeta. split; [| apply reputation_values].
  destruct (verify_email_cases self email)
    as [(Hf & E) | [(Hf & Hd & E) | [(Hf & Hd & Hm & Hx & E) | (Hf & Hd & Hm & E)]]];
    rewrite E in Hv |- *; cbn [fst snd] in *; try discriminate.
  reflexivity.
Qed.

(** X11. When the format is right, the domain is not disposable, DNS is
    not mocked and the resolver finds no MX record, the address is
    rejected with confidence 0 and the resolver's reason. *)
Theorem verify_email_mx_failure (self : EmailVerifier) (email : string) :
  fst (_validate_email_format email) = true ->
  fst (_check_disposable_email (domain_of email)) = false ->
  mock_dns self = false ->
  fst (_check_mx_record (domain_of email)) = false ->
  verify_email _check_mx_record self email
  = (false, 0%Z, "MX check failed: " ++ snd (_check_mx_record (domain_of email))).
Proof.
  intros Hf Hd Hm Hx.
  destruct (verify_email_cases self email)
    as [(Hf' & E) | [(Hf' & Hd' & E) | [(_ & _ & _ & _ & E) | (_ & _ & [Hm' | Hx'] & E)]]];
    try congruence.
Qed.

End Outcomes.

(** C10. With mock DNS on, the result of [verify_email] does not depend on
    the resolver, and the MX stage counts as passed: the result is the
    rejection of the format stage, or the rejection of a disposable
    domain, or else the address is valid, with the confidence of the
    formula and the reason that reports "MX: OK". It is the triple that a
    resolver which finds MX records for every domain gives without
    mocking. *)
Theorem verify_email_mock_pure (self : Verifier.EmailVerifier) (email : string) :
  Verifier.mock_dns self = true ->
  let domain := domain_of email in
  (forall dns1 dns2 : string -> bool * string,
     Verifier.verify_email dns1 self email = Verifier.verify_email dns2 self email) /\
  (forall dns : string -> bool * string,
     Verifier.verify_email dns self email
     = Verifier.verify_email (fun _ => (true, "Found 1 MX records"))
         {| Verifier.timeout := Verifier.timeout self; Verifier.mock_dns := false |}
         email) /\
  (forall dns : string -> bool * string,
     let result := Verifier.verify_email dns self email in
     (fst (Verifier._validate_email_format email) = false /\
      result = (false, 0%Z,
                "Format invalid: " ++ snd (Verifier._validate_email_format email))) \/
     (fst (Verifier._validate_email_format email) = true /\
      fst (Verifier._check_disposable_email domain) = true /\
      result = (false, 10%Z,
                "Disposable email: " ++ snd (Verifier._check_disposable_email domain))) \/
     (fst (Verifier._validate_email_format email) = true /\
      fst (Verifier._check_disposable_email domain) = false /\
      result = (true, final_confidence domain,
                "Format: OK, MX: OK, SMTP: OK, Reputation: "
                ++ Str.of_Z (fst (Verifier._check_domain_reputation domain))
                ++ "/100, Not disposable"))).
Proof.
  intros Hm. cbv zeta.
  assert (H : forall dns,
     Verifier.verify_email dns self email
     = Verifier.verify_email (fun _ => (true, "Found 1 MX records"))
         {| Verifier.timeout := Verifier.timeout self; Verifier.mock_dns := false |}
         email).
  { intros dns. unfold Verifier.verify_email. rewrite Hm. cbn [Verifier.mock_dns].
    reflexivity. }
  split; [| split; [exact H |]].
  - intros dns1 dns2. rewrite (H dns1), (H dns2). reflexivity.
  - intros dns.
    destruct (verify_email_cases dns self email)
      as [(Hf & E) | [(Hf & Hd & E) | [(Hf & Hd & Hn & _) | (Hf & Hd & _ & E)]]].
    + left. split; assumption.
    + right. left. repeat split; assumption.
    + rewrite Hm in Hn. discriminate.
    + right. right. repeat split; assumption.
Qed.

Lemma verify_email_mock_pure_witness :
  Verifier.verify_email (fun _ => (false, "Domain does not exist"))
    {| Verifier.timeout := 1; Verifier.mock_dns := true |} "info@example.com"
  = (true, 100%Z,
     "Format: OK, MX: OK, SMTP: OK, Reputation: 60/100, Not disposable").
Proof.
  destruct (verify_email_mock_pure
              {| Verifier.timeout := 1; Verifier.mock_dns := true |}
              "info@example.com" eq_refl) as (_ & _ & H).
  destruct (H (fun _ => (false, "Domain does not exist")))
    as [(Hf & _) | [(_ & Hd & _) | (_ & _ & E)]].
  - vm_compute in Hf. discriminate.
  - vm_compute in Hd. discriminate.
  - exact E.
Defined.

Lemma verify_email_valid_witness :
  fst (fst (Verifier.verify_email (fun _ => (true, "Found 2 MX records"))
              {| Verifier.timeout := 1; Verifier.mock_dns := false |}
              "info@example.com")) = true.
Proof.
  apply (proj2 (verify_email_valid_iff (fun _ => (true, "Found 2 MX records"))
                  {| Verifier.timeout := 1; Verifier.mock_dns := false |}
                  "info@example.com")).
  repeat split. right. reflexivity.
Defined.

Lemma verify_email_success_reason_witness :
  snd (Verifier.verify_email (fun _ => (true, "Found 2 MX records"))
         {| Verifier.timeout := 1; Verifier.mock_dns := false |} "info@example.com")
  = "Format: OK, MX: OK, SMTP: OK, Reputation: 60/100, Not disposable".
Proof.
  apply (verify_email_success_reason (fun _ => (true, "Found 2 MX records"))
           {| Verifier.timeout := 1; Verifier.mock_dns := false |}
           "info@example.com" eq_refl).
Defined.

Lemma verify_email_mx_failure_witness :
  Verifier.verify_email (fun _ => (false, "Domain does not exist"))
    {| Verifier.timeout := 1; Verifier.mock_dns := false |} "info@example.com"
  = (false, 0%Z, "MX check failed: Domain does not exist").
Proof.
  apply (verify_email_mx_failure (fun _ => (false, "Domain does not exist"))
           {| Verifier.timeout := 1; Verifier.mock_dns := false |}
           "info@example.com"); reflexivity.
Defined.

(** X12. The confidence computed by [_calculate_enhanced_confidence] lies
    between 0 and 100 for any reputation score, also a negative or a huge
    one, and a higher reputation never gives a lower confidence. *)
Theorem enhanced_confidence_monotone (format_valid mx_valid smtp_valid : bool)
    (r1 r2 : Z) (domain : string) :
  (r1 <= r2)%Z ->
  let c1 := Verifier._calculate_enhanced_confidence
              format_valid mx_valid smtp_valid r1 domain in
  let c2 := Verifier._calculate_enhanced_confidence
              format_valid mx_valid smtp_valid r2 domain in
  (0 <= c1)%Z /\ (c1 <= c2)%Z /\ (c2 <= 100)%Z.
Proof.
  intros H. cbv zeta. unfold Verifier._calculate_enhanced_confidence.
  destruct format_valid, mx_valid, smtp_valid; cbn [negb];
    repeat match goal with
           | |- context [if ?b then _ else _] => destruct b
           end; lia.
Qed.

Lemma enhanced_confidence_monotone_witness :
  let c1 := Verifier._calculate_enhanced_confidence true true true (-500) "a.io" in
  let c2 := Verifier._calculate_enhanced_confidence true true true 20 "a.io" in
  (0 <= c1)%Z /\ (c1 <= c2)%Z /\ (c2 <= 100)%Z.
Proof. apply enhanced_confidence_monotone. lia. Defined.

(** ** The sets of a crawl *)

Section CrawlSets.
Import Crawler.

Variable self : WebCrawler.
Variable web : Web.
Variable seed : string.

Lemma crawl_sets_size (batch : list string) (v : vars) :
  crawl_sets seed batch v ->
  trace v <> [] -> size (discovered_urls v) = List.length (trace v).
Proof.
  intros H Hne. pose proof (cs_sizes _ _ _ H) as Hs.
  pose proof (cs_last _ _ _ H) as Hl.
  destruct (trace v) as [| d tr] eqn:E using rev_ind; [congruence |].
  clear IHtr. rewrite last_last in Hl. subst d.
  rewrite map_app, length_app, Nat.add_1_r, seq_S in Hs. cbn [map] in Hs.
  apply app_inj_tail in Hs as [_ Hs]. rewrite length_app, Nat.add_1_r.
  simpl in Hs. exact Hs.
Qed.

Lemma crawl_sets_rest (url : string) (batch : list string) (v : vars) :
  crawl_sets seed (url :: batch) v -> crawl_sets seed batch v.
Proof.
  intros [H1 H2 H3 H4 H5 H6 H7 H8 H9]. constructor; try assumption.
  - cbn [app] in H6. apply NoDup_cons in H6 as [_ H6]. exact H6.
  - intros u Hu. apply H7. cbn [app]. right. exact Hu.
Qed.

Lemma crawl_sets_done (batch : list string) (v : vars) :
  crawl_sets seed batch v -> crawl_sets seed [] v.
Proof.
  induction batch as [| url batch IH]; [trivial |].
  intros H. apply IH, (crawl_sets_rest url), H.
Qed.

Lemma add_link_sets (depth : Z) (batch : list string) (v : vars) (link : string) :
  trace v <> [] ->
  crawl_sets seed batch v ->
  crawl_sets seed batch (add_link self depth v link)
  /\ trace (add_link self depth v link) <> [].
Proof.
  intros Hne H. unfold add_link.
  destruct (bool_decide (link ∈ discovered_urls v)) eqn:Hin; cbn [negb andb];
    [split; assumption |].
  destruct (size_Z (discovered_urls v) <? max_pages self)%Z;
    [| split; assumption].
  apply bool_decide_eq_false in Hin.
  pose proof (crawl_sets_size batch v H Hne) as Hsize.
  destruct H as [H1 H2 H3 H4 H5 H6 H7 H8 H9].
  assert (Hfresh : link ∉ List.app batch (urls_to_crawl v)).
  { intros Hl. apply H7 in Hl. tauto. }
  split; [| cbn [trace]; intros E; apply app_eq_nil in E as [_ E]; discriminate].
  constructor; cbn [visited_urls failed_urls crawled_urls discovered_urls
                    urls_to_crawl trace]; try assumption.
  - set_solver.
  - set_solver.
  - set_solver.
  - destruct (depth <? max_depth self)%Z; [| exact H6].
    rewrite app_assoc. apply NoDup_app. split; [exact H6 |].
    split; [| apply NoDup_singleton].
    intros u Hu Hu'. apply list_elem_of_singleton in Hu'. subst u. tauto.
  - intros u Hu.
    assert (Hcase : u ∈ List.app batch (urls_to_crawl v) \/ u = link).
    { destruct (depth <? max_depth self)%Z; [| left; exact Hu].
      rewrite app_assoc in Hu. apply elem_of_app in Hu as [Hu | Hu];
        [left; exact Hu | right].
      apply list_elem_of_singleton in Hu. exact Hu. }
    destruct Hcase as [Hu' | ->].
    + destruct (H7 u Hu') as (Ha & Hb & Hc). repeat split; try assumption.
      set_solver.
    + repeat split; [set_solver | set_solver | set_solver].
  - rewrite map_app, length_app, Nat.add_1_r, seq_S, H8. cbn [map].
    f_equal. f_equal. rewrite size_union by set_solver.
    rewrite size_singleton, Hsize. reflexivity.
  - apply last_last.
Qed.

Lemma add_links_sets (depth : Z) (batch links : list string) (v : vars) :
  trace v <> [] ->
  crawl_sets seed batch v ->
  crawl_sets seed batch (fold_left (add_link self depth) links v)
  /\ trace (fold_left (add_link self depth) links v) <> [].
Proof.
  revert v. induction links as [| link links IH]; intros v Hne H;
    [split; assumption |].
  simpl. destruct (add_link_sets depth batch v link Hne H) as [H' Hne'].
  apply IH; assumption.
Qed.

Lemma process_batch_sets (depth : Z) (batch : list string) (v : vars) :
  trace v <> [] ->
  crawl_sets seed batch v ->
  crawl_sets seed [] (vars_of (process_batch self web seed depth batch v))
  /\ trace (vars_of (process_batch self web seed depth batch v)) <> [].
Proof.
  revert v. induction batch as [| url batch IH]; intros v Hne H;
    [split; assumption |].
  cbn [process_batch].
  destruct (max_pages self <=? size_Z (discovered_urls v))%Z;
    [split; [eapply crawl_sets_done, H | exact Hne] |].
  destruct (bool_decide (url ∈ visited_urls v));
    [apply IH; [exact Hne | eapply crawl_sets_rest, H] |].
  pose proof (crawl_sets_rest url batch v H) as Hrest.
  assert (Hurl : url ∈ discovered_urls v /\
                 (url ∉ visited_urls v) /\ (url ∉ failed_urls v)).
  { apply (cs_queue _ _ _ H). cbn [app]. left. }
  assert (Hother : forall u, u ∈ List.app batch (urls_to_crawl v) -> u <> url).
  { intros u Hu ->. pose proof (cs_nodup _ _ _ H) as Hn.
    cbn [app] in Hn. apply NoDup_cons in Hn as [Hn _]. tauto. }
  destruct Hrest as [H1 H2 H3 H4 H5 H6 H7 H8 H9].
  destruct (fetch web url) as [content | |].
  - match goal with
    | |- context [Raised ?v1] =>
        assert (Hv1 : crawl_sets seed batch v1 /\ trace v1 <> [])
    end.
    { split; [| exact Hne].
      constructor; cbn [visited_urls failed_urls crawled_urls discovered_urls
                        urls_to_crawl trace]; try assumption.
      - set_solver.
      - set_solver.
      - rewrite H4. reflexivity.
      - intros u Hu. destruct (H7 u Hu) as (Ha & Hb & Hc).
        pose proof (Hother u Hu). repeat split; [assumption | set_solver | assumption]. }
    destruct Hv1 as [Hv1 Hne1].
    destruct (_extract_links web content seed) as [page_links |];
      [| split; [eapply crawl_sets_done, Hv1 | exact Hne1]].
    match goal with
    | |- context [fold_left ?f ?ls ?v1] =>
        destruct (add_links_sets depth batch ls v1 Hne1 Hv1) as [Hv2 Hne2]
    end.
    apply IH; assumption.
  - apply IH; [exact Hne |].
    constructor; cbn [visited_urls failed_urls crawled_urls discovered_urls
                      urls_to_crawl trace]; try assumption.
    + set_solver.
    + set_solver.
    + intros u Hu. destruct (H7 u Hu) as (Ha & Hb & Hc).
      pose proof (Hother u Hu). repeat split; [assumption | assumption | set_solver].
  - split; [| exact Hne]. eapply crawl_sets_done, H.
Qed.

Lemma crawl_levels_sets (levels : nat) (depth : Z) (v : vars) :
  trace v <> [] ->
  crawl_sets seed [] v ->
  crawl_sets seed [] (vars_of (crawl_levels self web seed levels depth v)).
Proof.
  revert depth v. induction levels as [| levels IH]; intros depth v Hne H;
    [exact H |].
  cbn [crawl_levels].
  destruct (match urls_to_crawl v with [] => true | _ => false end
            || (max_pages self <=? size_Z (discovered_urls v))%Z); [exact H |].
  match goal with
  | |- context [process_batch self web seed depth ?b ?v0] =>
      destruct (process_batch_sets depth b v0) as [Hb Hneb]
  end.
  - exact Hne.
  - destruct H as [H1 H2 H3 H4 H5 H6 H7 H8 H9].
    constructor; cbn [visited_urls failed_urls crawled_urls discovered_urls
                      urls_to_crawl trace]; try assumption.
    + rewrite app_nil_r. exact H6.
    + intros u Hu. apply H7. rewrite app_nil_r in Hu. exact Hu.
  - destruct (process_batch self web seed depth (urls_to_crawl v) _) as [v' | v'];
      cbn [vars_of] in *; [apply IH; assumption | exact Hb].
Qed.

Lemma crawl_frontier_crawl_sets :
  crawl_sets seed [] (vars_of (crawl_frontier self web seed)).
Proof.
  unfold crawl_frontier. apply crawl_levels_sets; [discriminate |].
  constructor; cbn [visited_urls failed_urls crawled_urls discovered_urls
                    urls_to_crawl trace].
  - set_solver.
  - set_solver.
  - set_solver.
  - reflexivity.
  - set_solver.
  - apply NoDup_singleton.
  - intros u Hu. cbn [app] in Hu. apply list_elem_of_singleton in Hu. subst u.
    set_solver.
  - cbn. rewrite size_singleton. reflexivity.
  - reflexivity.
Qed.

(** X13. At the end of a crawl, also of one cut short by an exception, no
    URL is both visited and failed, every visited or failed URL is a
    discovered one, the crawled URLs are the visited ones, and the seed is
    discovered. *)
Theorem crawl_frontier_sets :
  let v := vars_of (crawl_frontier self web seed) in
  visited_urls v ## failed_urls v /\
  visited_urls v ∪ failed_urls v ⊆ discovered_urls v /\
  crawled_urls v = visited_urls v /\
  seed ∈ discovered_urls v.
Proof.
  cbv zeta. destruct crawl_frontier_crawl_sets as [H1 H2 H3 H4 H5 H6 H7 H8 H9].
  repeat split; try assumption. set_solver.
Qed.

(** X14. Every step of a crawl adds exactly one URL to the discovered set:
    the successive values of the set have 1, 2, 3, ... elements. *)
Theorem crawl_frontier_steps :
  let steps := trace (vars_of (crawl_frontier self web seed)) in
  map size steps = seq 1 (List.length steps).
Proof. cbv zeta. apply (cs_sizes _ _ _ crawl_frontier_crawl_sets). Qed.

End CrawlSets.

(** ** What a crawl returns *)

Section CrawlResult.
Import Crawler.

Lemma unique_from_nodup (seen : gset string) (urls : list string) :
  NoDup (unique_from seen urls) /\
  forall u, In u (unique_from seen urls) -> u ∉ seen.
Proof.
  revert seen. induction urls as [| url urls IH]; intros seen.
  - split; [constructor | intros u []].
  - cbn [unique_from]. destruct (bool_decide (url ∈ seen)) eqn:E; [apply IH |].
    apply bool_decide_eq_false in E.
    destruct (IH ({[url]} ∪ seen)) as [Hn Hs]. split.
    + apply NoDup_cons. split; [| exact Hn].
      intros Hin. apply list_elem_of_In, Hs in Hin. set_solver.
    + intros u [<- | Hu]; [exact E |]. apply Hs in Hu. set_solver.
Qed.

Lemma unique_from_complete (seen : gset string) (urls : list string) (u : string) :
  In u urls -> u ∉ seen -> In u (unique_from seen urls).
Proof.
  revert seen. induction urls as [| url urls IH]; intros seen Hin Hs; [destruct Hin |].
  cbn [unique_from]. destruct (decide (u = url)) as [-> | Hne].
  - rewrite bool_decide_eq_false_2 by exact Hs. left. reflexivity.
  - destruct Hin as [-> | Hin]; [congruence |].
    destruct (bool_decide (url ∈ seen)); [apply IH; assumption |].
    right. apply IH; [exact Hin | set_solver].
Qed.

Lemma unique_from_id (seen : gset string) (urls : list string) :
  NoDup urls -> (forall u, In u urls -> u ∉ seen) -> unique_from seen urls = urls.
Proof.
  revert seen. induction urls as [| url urls IH]; intros seen Hn Hs; [reflexivity |].
  apply NoDup_cons in Hn as [Hu Hn]. cbn [unique_from].
  rewrite bool_decide_eq_false_2 by (apply Hs; left; reflexivity).
  f_equal. apply IH; [exact Hn |].
  intros u Hin. specialize (Hs u (or_intror Hin)).
  assert (u <> url) by (intros ->; apply Hu, list_elem_of_In, Hin).
  set_solver.
Qed.

Lemma slice_to_nodup {A} (n : Z) (l : list A) : NoDup l -> NoDup (slice_to n l).
Proof.
  intros H. unfold slice_to.
  destruct (0 <=? n)%Z;
    match goal with
    | |- NoDup (firstn ?k l) =>
        rewrite <- (firstn_skipn k l) in H; apply NoDup_app in H; tauto
    end.
Qed.

Lemma slice_to_all {A} (n : Z) (l : list A) :
  (Z.of_nat (List.length l) <= n)%Z -> slice_to n l = l.
Proof.
  intros H. unfold slice_to.
  destruct (0 <=? n)%Z eqn:E; [| apply Z.leb_gt in E; lia].
  apply firstn_all2. lia.
Qed.

Lemma sorted_desc_length {A} (key : A -> Z) (l : list A) :
  List.length (sorted_desc key l) = List.length l.
Proof. symmetry. apply Permutation_length, sorted_desc_perm. Qed.

(** X15. [_prioritize_urls] returns no URL twice and only URLs it was
    given, at most [max_pages] of them when that is not negative; and when
    the list it was given has at most [max_pages] entries, every one of
    them is returned. *)
Theorem prioritize_urls_contract (self : WebCrawler) (urls : list string)
    (domain : string) :
  let result := _prioritize_urls self urls domain in
  NoDup result /\
  (forall url, In url result -> In url urls) /\
  ((0 <= max_pages self)%Z ->
   (Z.of_nat (List.length result) <= max_pages self)%Z) /\
  ((Z.of_nat (List.length urls) <= max_pages self)%Z ->
   forall url, In url urls -> In url result).
Proof.
  cbv zeta. unfold _prioritize_urls, _prioritize_links_by_relevance.
  destruct (unique_from_nodup ∅ urls) as [Hn _].
  split; [| split; [| split]].
  - apply slice_to_nodup.
    rewrite <- (sorted_desc_perm link_priority _). exact Hn.
  - intros url H. apply slice_to_In in H.
    apply (Permutation_in _ (Permutation_sym (sorted_desc_perm link_priority _))) in H.
    eapply unique_from_In, H.
  - apply slice_to_length.
  - intros Hlen url Hin.
    assert (Hu : List.length (unique_from ∅ urls) <= List.length urls).
    { clear. generalize (∅ : gset string).
      induction urls as [| u urls IH]; intros seen; [simpl; lia |].
      cbn [unique_from]. pose proof (IH seen). pose proof (IH ({[u]} ∪ seen)).
      destruct (bool_decide (u ∈ seen)); simpl; lia. }
    rewrite slice_to_all by (rewrite sorted_desc_length; lia).
    apply (Permutation_in _ (sorted_desc_perm link_priority _)).
    apply unique_from_complete; [exact Hin | set_solver].
Qed.

Lemma prioritize_urls_contract_witness :
  In "https://a.io"
     (_prioritize_urls {| bypass_robots := true; max_depth := 2; max_pages := 5 |}
        ["https://a.io/x"; "https://a.io"; "https://a.io/x"] "https://a.io").
Proof.
  apply (prioritize_urls_contract
           {| bypass_robots := true; max_depth := 2; max_pages := 5 |}
           ["https://a.io/x"; "https://a.io"; "https://a.io/x"] "https://a.io").
  - simpl. lia.
  - simpl. tauto.
Defined.

Section OneCrawl.
Variable self : WebCrawler.
Variable web : Web.
Variable domain : string.

Lemma discovered_bounded :
  (1 <= max_pages self)%Z ->
  (size_Z (discovered_urls
             (vars_of (crawl_frontier self web (with_protocol domain))))
   <= max_pages self)%Z.
Proof.
  intros Hp.
  destruct (crawl_frontier_inv self web (with_protocol domain)) as [_ Ht Hl].
  specialize (Ht Hp). rewrite <- Hl.
  destruct (trace _) as [| d tr] using rev_ind.
  - simpl. unfold size_Z. rewrite size_empty. lia.
  - rewrite last_last. apply Forall_app in Ht as [_ Ht].
    inversion Ht; assumption.
Qed.

(** The result of a crawl that was allowed and came to its end, when
    [max_pages] is at least 1: the discovered URLs, ranked. *)
Lemma crawl_result_completed (v : vars) :
  (1 <= max_pages self)%Z ->
  _check_robots_txt self web (with_protocol domain) = true ->
  crawl_frontier self web (with_protocol domain) = Completed v ->
  crawl_company_website self web domain
  = sorted_desc link_priority (elements (discovered_urls v)).
Proof.
  intros Hp Hr Hc. unfold crawl_company_website. rewrite Hr, Hc. cbn [negb].
  unfold _prioritize_urls, _prioritize_links_by_relevance.
  rewrite unique_from_id by (apply NoDup_elements || (intros; set_solver)).
  apply slice_to_all. rewrite sorted_desc_length.
  pose proof (discovered_bounded Hp) as Hb. rewrite Hc in Hb.
  cbn [vars_of] in Hb. unfold size_Z in Hb. exact Hb.
Qed.

(** X16. When [max_pages] is at least 1, a crawl that robots.txt allows
    and that no exception cuts short returns every discovered URL exactly
    once, ranked by relevance with nothing cut off, and the seed URL is
    among them. *)
Theorem crawl_returns_discovered (v : vars) :
  (1 <= max_pages self)%Z ->
  _check_robots_txt self web (with_protocol domain) = true ->
  crawl_frontier self web (with_protocol domain) = Completed v ->
  let result := crawl_company_website self web domain in
  NoDup result /\
  (forall url, In url result <-> url ∈ discovered_urls v) /\
  In (with_protocol domain) result /\
  StronglySorted (fun a b => (link_priority b <= link_priority a)%Z) result.
Proof.
  intros Hp Hr Hc. cbv zeta. rewrite (crawl_result_completed v Hp Hr Hc).
  assert (Hmem : forall url, In url (sorted_desc link_priority
                                       (elements (discovered_urls v)))
                             <-> url ∈ discovered_urls v).
  { intros url.
    rewrite <- list_elem_of_In, <- (sorted_desc_perm link_priority _).
    apply elem_of_elements. }
  split; [| split; [exact Hmem | split]].
  - rewrite <- (sorted_desc_perm link_priority _). apply NoDup_elements.
  - apply Hmem.
    pose proof (cs_seed _ _ _ (crawl_frontier_crawl_sets self web (with_protocol domain)))
      as Hs.
    rewrite Hc in Hs. exact Hs.
  - apply (sorted_desc_sorted link_priority).
Qed.

(** X17. When [max_pages] is at least 1, a crawl returns the empty list
    only if robots.txt forbids it or an exception cut it short. *)
Theorem crawl_empty_iff :
  (1 <= max_pages self)%Z ->
  crawl_company_website self web domain = [] <->
  _check_robots_txt self web (with_protocol domain) = false \/
  exists v, crawl_frontier self web (with_protocol domain) = Raised v.
Proof.
  intros Hp. split.
  - intros He.
    destruct (_check_robots_txt self web (with_protocol domain)) eqn:Hr;
      [| left; reflexivity].
    destruct (crawl_frontier self web (with_protocol domain)) as [v | v] eqn:Hc;
      [| right; exists v; reflexivity].
    exfalso. rewrite (crawl_result_completed v Hp Hr Hc) in He.
    pose proof (cs_seed _ _ _ (crawl_frontier_crawl_sets self web (with_protocol domain)))
      as Hs.
    rewrite Hc in Hs. cbn [vars_of] in Hs.
    apply elem_of_elements, list_elem_of_In in Hs.
    apply (Permutation_in _ (sorted_desc_perm link_priority _)) in Hs.
    rewrite He in Hs. destruct Hs.
  - intros [Hr | [v Hc]]; unfold crawl_company_website.
    + rewrite Hr. reflexivity.
    + destruct (negb _); [reflexivity |]. rewrite Hc. reflexivity.
Qed.

End OneCrawl.

End CrawlResult.

Lemma crawl_returns_discovered_witness :
  let self := {| Crawler.bypass_robots := true; Crawler.max_depth := 2;
                 Crawler.max_pages := 10 |} in
  let result := Crawler.crawl_company_website self small_web "example.com" in
  NoDup result /\
  In "https://example.com/team" result /\
  In "https://example.com" result /\
  StronglySorted
    (fun a b => (Crawler.link_priority b <= Crawler.link_priority a)%Z) result.
Proof.
  cbv zeta.
  destruct (crawl_returns_discovered
              {| Crawler.bypass_robots := true; Crawler.max_depth := 2;
                 Crawler.max_pages := 10 |} small_web "example.com"
              (Crawler.vars_of
                 (Crawler.crawl_frontier
                    {| Crawler.bypass_robots := true; Crawler.max_depth := 2;
                       Crawler.max_pages := 10 |} small_web "https://example.com")))
    as (Hnd & Hin & Hseed & Hsorted);
    [simpl; lia | reflexivity | vm_compute; reflexivity |].
  split; [exact Hnd | split; [| split; [exact Hseed | exact Hsorted]]].
  refine (proj2 (Hin "https://example.com/team") _). vm_compute. reflexivity.
Defined.

Lemma crawl_empty_iff_witness :
  Crawler.crawl_company_website
    {| Crawler.bypass_robots := false; Crawler.max_depth := 2;
       Crawler.max_pages := 4 |} blocked_web "example.com" = [].
Proof.
  apply (proj2 (crawl_empty_iff
                  {| Crawler.bypass_robots := false; Crawler.max_depth := 2;
                     Crawler.max_pages := 4 |} blocked_web "example.com"
                  ltac:(simpl; lia))).
  left. reflexivity.
Defined.

Section NoRequest.
Import Crawler.

(** X18. With a negative [max_depth], or with [max_pages] at most 1, a
    crawl fetches no page: whatever the web holds, it returns the seed
    URL alone when robots.txt allows the crawl and [max_pages] is 1 or
    more, and nothing otherwise. *)
Theorem crawl_without_request (self : WebCrawler) (web : Web) (domain : string) :
  (max_depth self < 0)%Z \/ (max_pages self <= 1)%Z ->
  crawl_company_website self web domain
  = if _check_robots_txt self web (with_protocol domain)
       && (1 <=? max_pages self)%Z
    then [with_protocol domain] else [].
Proof.
  intros H. unfold crawl_company_website.
  destruct (_check_robots_txt self web (with_protocol domain)); [| reflexivity].
  cbn [negb andb].
  assert (Hf : crawl_frontier self web (with_protocol domain)
               = Completed (Vars ∅ ∅ ∅ [with_protocol domain]
                                 {[with_protocol domain]}
                                 [ {[with_protocol domain]} ])).
  { unfold crawl_frontier.
    destruct (Z.to_nat (max_depth self + 1)) as [| levels] eqn:El; [reflexivity |].
    cbn [crawl_levels urls_to_crawl discovered_urls orb].
    destruct H as [H | H]; [lia |].
    unfold size_Z. rewrite size_singleton.
    replace (max_pages self <=? Z.of_nat 1)%Z with true
      by (symmetry; apply Z.leb_le; lia).
    reflexivity. }
  rewrite Hf. unfold _prioritize_urls, _prioritize_links_by_relevance.
  cbn [discovered_urls]. rewrite elements_singleton.
  cbn [unique_from]. rewrite bool_decide_eq_false_2 by set_solver.
  cbn [unique_from sorted_desc fold_right insert_desc].
  unfold slice_to.
  destruct (1 <=? max_pages self)%Z eqn:E1.
  - apply Z.leb_le in E1.
    replace (0 <=? max_pages self)%Z with true by (symmetry; apply Z.leb_le; lia).
    replace (Z.to_nat (max_pages self)) with (S (Z.to_nat (max_pages self - 1))) by lia.
    cbn [firstn]. rewrite firstn_nil. reflexivity.
  - apply Z.leb_gt in E1. destruct (0 <=? max_pages self)%Z eqn:E0.
    + apply Z.leb_le in E0. replace (max_pages self) with 0%Z by lia. reflexivity.
    + apply Z.leb_gt in E0. cbn [List.length].
      replace (1 - Z.to_nat (- max_pages self)) with 0 by lia. reflexivity.
Qed.

Lemma crawl_without_request_witness :
  crawl_company_website
    {| bypass_robots := true; max_depth := 2; max_pages := 1 |}
    small_web "example.com"
  = ["https://example.com"].
Proof.
  apply (crawl_without_request
           {| bypass_robots := true; max_depth := 2; max_pages := 1 |}
           small_web "example.com").
  right. simpl. lia.
Defined.

(** X19. A domain may be given with or without its protocol: the crawl of
    a domain is the crawl of that domain with its protocol. *)
Theorem crawl_with_protocol (self : WebCrawler) (web : Web) (domain : string) :
  with_protocol (with_protocol domain) = with_protocol domain /\
  crawl_company_website self web (with_protocol domain)
  = crawl_company_website self web domain.
Proof.
  assert (H : with_protocol (with_protocol domain) = with_protocol domain).
  { unfold with_protocol.
    destruct (Str.startswith "http://" domain || Str.startswith "https://" domain)
      eqn:E; [rewrite E; reflexivity |].
    reflexivity. }
  split; [exact H |]. unfold crawl_company_website. rewrite H. reflexivity.
Qed.

End NoRequest.

(** ** The score of a link, in closed form *)

Section Score.
Import Crawler.

Lemma keyword_score (ll : string) (kws : list string) (score : Z) :
  fold_left (fun score keyword =>
               if Str.contains keyword ll then (score + 10)%Z else score) kws score
  = (score + 10 * Z.of_nat (List.length
                              (List.filter (fun keyword => Str.contains keyword ll) kws)))%Z.
Proof.
  revert score. induction kws as [| k kws IH]; intros score; [simpl; lia |].
  cbn [fold_left List.filter]. rewrite IH.
  destruct (Str.contains k ll); cbn [List.length]; lia.
Qed.

Lemma count_nonneg (c : ascii) (s : string) : (0 <= Str.count c s)%Z.
Proof.
  induction s as [| a s IH]; simpl; [lia |]. destruct (Ascii.eqb a c); lia.
Qed.

Lemma has_char_count (c : ascii) (s : string) :
  Str.has_char c s = negb (Str.count c s =? 0)%Z.
Proof.
  unfold Str.has_char. induction s as [| a s IH]; [reflexivity |].
  cbn [Str.contains Str.startswith Str.count]. rewrite IH.
  pose proof (count_nonneg c s) as Hc.
  rewrite (Ascii.eqb_sym c a). destruct (Ascii.eqb a c); cbn [andb orb].
  - symmetry. apply negb_true_iff, Z.eqb_neq. lia.
  - reflexivity.
Qed.

(** X20. The score of a link is ten times the number of priority keywords
    that occur in it, plus 2 when it has no slash and plus 7 minus the
    number of its slashes when it has one: the bonus of 5 goes to every
    link with a slash. *)
Theorem link_priority_closed_form (link : string) :
  let keywords :=
    Z.of_nat (List.length
                (List.filter (fun keyword => Str.contains keyword (Str.lower link))
                             priority_keywords)) in
  let slashes := Str.count "/" link in
  link_priority link
  = if (slashes =? 0)%Z then (10 * keywords + 2)%Z
    else (10 * keywords + 7 - slashes)%Z.
Proof.
  cbv zeta. unfold link_priority. rewrite keyword_score.
  assert (Hany : Str.any (fun section => Str.contains section (Str.lower link))
                         ["/"; "/home"; "/index"]
                 = negb (Str.count "/" link =? 0)%Z).
  { rewrite <- (has_char_count "/" link), <- (has_char_lower "/" link blind_slash).
    unfold Str.has_char, Str.any. cbn [existsb].
    destruct (Str.contains "/" (Str.lower link)) eqn:E; [reflexivity |].
    cbn [orb].
    destruct (Str.contains "/home" (Str.lower link)) eqn:E1.
    { rewrite (contains_trans "/" "/home" _ eq_refl E1) in E. discriminate. }
    destruct (Str.contains "/index" (Str.lower link)) eqn:E2.
    { rewrite (contains_trans "/" "/index" _ eq_refl E2) in E. discriminate. }
    reflexivity. }
  rewrite Hany. destruct (Str.count "/" link =? 0)%Z eqn:E; cbn [negb].
  - apply Z.eqb_eq in E. lia.
  - lia.
Qed.

(** X21. A link is returned by [_filter_and_prioritize_links] exactly when
    it is among the links given, is neither visited nor failed, holds the
    host of the domain, and matches no denylisted path pattern or file
    extension. *)
Theorem filter_links_iff (v : vars) (links : list string) (domain link : string) :
  In link (_filter_and_prioritize_links v links domain) <->
  In link links /\
  (link ∉ visited_urls v) /\ (link ∉ failed_urls v) /\
  same_domain domain link = true /\ denylisted link = false.
Proof.
  unfold _filter_and_prioritize_links, _prioritize_links_by_relevance.
  rewrite <- !list_elem_of_In, <- (sorted_desc_perm link_priority _),
    !list_elem_of_In, filter_In.
  unfold keeps, same_domain, denylisted.
  destruct (bool_decide (link ∈ visited_urls v)) eqn:Ev;
    [apply bool_decide_eq_true in Ev | apply bool_decide_eq_false in Ev];
    cbn [orb]; [split; [intros [_ ?]; discriminate | tauto] |].
  destruct (bool_decide (link ∈ failed_urls v)) eqn:Ef;
    [apply bool_decide_eq_true in Ef | apply bool_decide_eq_false in Ef];
    [split; [intros [_ ?]; discriminate | tauto] |].
  destruct (Str.contains (domain_parts domain) link); cbn [negb];
    [| split; [intros [_ ?]; discriminate | intros (_ & _ & _ & ? & _); discriminate]].
  destruct (Str.any (fun pattern => Str.contains pattern (Str.lower link)) skip_patterns);
    cbn [orb];
    [split; [intros [_ ?]; discriminate | intros (_ & _ & _ & _ & ?); discriminate] |].
  destruct (Str.any (fun ext => Str.endswith ext (Str.lower link)) skip_extensions);
    [split; [intros [_ ?]; discriminate | intros (_ & _ & _ & _ & ?); discriminate] |].
  tauto.
Qed.

End Score.

Lemma filter_links_iff_witness :
  In "https://example.com/team"
     (Crawler._filter_and_prioritize_links
        (Crawler.Vars ∅ ∅ ∅ [] ∅ [])
        ["https://example.com/a.pdf"; "https://example.com/team"]
        "https://example.com").
Proof.
  apply (proj2 (filter_links_iff (Crawler.Vars ∅ ∅ ∅ [] ∅ [])
                  ["https://example.com/a.pdf"; "https://example.com/team"]
                  "https://example.com" "https://example.com/team")).
  split; [simpl; tauto |]. cbn [Crawler.visited_urls Crawler.failed_urls].
  repeat split; set_solver.
Defined.

(** ** The source label stored by the dashboard *)

Section StoredSource.
Import Extractor.

(** X22. Six of the candidates that the processing of a page generates for
    a domain (help@, service@, inquiry@, general@, main@ and primary@ on
    the cleaned domain) are stored with the source "found": the label is
    chosen by eight prefixes, the candidate list has fourteen. *)
Theorem generated_stored_as_found (content original_domain local : string) :
  content <> "" -> original_domain <> "" ->
  In local ["help"; "service"; "inquiry"; "general"; "main"; "primary"] ->
  let email := local ++ "@" ++ cleaned original_domain in
  email ∈ snd (Dashboard._process_page_concurrent (Some content) original_domain) /\
  Dashboard.stored_source email = "found".
Proof.
  intros Hc Hd Hl email. split.
  - unfold Dashboard._process_page_concurrent, extract_all_emails.
    apply String.eqb_neq in Hc, Hd. rewrite Hc, Hd. cbn [snd].
    apply elem_of_union_r, elem_of_list_to_set, list_elem_of_In.
    rewrite generate_unfold. apply in_or_app. left.
    apply (in_map (fun l => l ++ "@" ++ cleaned original_domain)).
    simpl in Hl |- *. tauto.
  - subst email. generalize (cleaned original_domain). intros c.
    simpl in Hl.
    destruct Hl as [<- | [<- | [<- | [<- | [<- | [<- | []]]]]]]; reflexivity.
Qed.

End StoredSource.

Lemma generated_stored_as_found_witness :
  "help@example.com"
    ∈ snd (Dashboard._process_page_concurrent (Some "Welcome") "example.com") /\
  Dashboard.stored_source "help@example.com" = "found".
Proof.
  apply (generated_stored_as_found "Welcome" "example.com" "help").
  - discriminate.
  - discriminate.
  - simpl. tauto.
Defined.

(** ** The format stage of the verifier *)

Section Splitting.

Lemma all_in_app (p : ascii -> bool) (u v : string) :
  all_in p (u ++ v) = all_in p u && all_in p v.
Proof.
  induction u as [| a u IH]; [reflexivity |].
  change (String a u ++ v) with (String a (u ++ v)). cbn [all_in].
  rewrite IH, andb_assoc. reflexivity.
Qed.

Lemma all_in_impl (p q : ascii -> bool) (s : string) :
  (forall d, p d = true -> q d = true) -> all_in p s = true -> all_in q s = true.
Proof.
  intros Hpq. induction s as [| a s IH]; [reflexivity |]. cbn [all_in].
  intros H. apply andb_true_iff in H as [Ha Hs].
  rewrite (Hpq a Ha), (IH Hs). reflexivity.
Qed.

Lemma split_nonempty (c : ascii) (s : string) : Str.split c s <> [].
Proof.
  destruct s as [| a s]; cbn [Str.split]; [discriminate |].
  destruct (Ascii.eqb a c); [discriminate |].
  destruct (Str.split c s); discriminate.
Qed.

Lemma split_app_sep (c : ascii) (u v : string) :
  Str.split c (u ++ String c v) = (Str.split c u ++ Str.split c v)%list.
Proof.
  induction u as [| a u IH].
  - change ("" ++ String c v) with (String c v). cbn [Str.split].
    rewrite Ascii.eqb_refl. reflexivity.
  - change (String a u ++ String c v) with (String a (u ++ String c v)).
    cbn [Str.split]. rewrite IH.
    destruct (Ascii.eqb a c); [reflexivity |].
    pose proof (split_nonempty c u) as Hne.
    destruct (Str.split c u) as [| h l]; [congruence | reflexivity].
Qed.

Lemma split_free (c : ascii) (s : string) :
  free c s = true -> Str.split c s = [s].
Proof.
  unfold free. induction s as [| a s IH]; [reflexivity |].
  cbn [all_in Str.split]. intros H. apply andb_true_iff in H as [Ha Hs].
  apply negb_true_iff in Ha. rewrite Ha, (IH Hs). reflexivity.
Qed.

Lemma last_app_ne {A : Type} (l l' : list A) (d : A) :
  l' <> [] -> List.last (l ++ l')%list d = List.last l' d.
Proof.
  intros Hne. induction l as [| x l IH]; [reflexivity |].
  change ((x :: l) ++ l')%list with (x :: (l ++ l')%list).
  cbn [List.last]. destruct (l ++ l')%list eqn:E; [| exact IH].
  apply app_eq_nil in E as [_ E]. congruence.
Qed.

Lemma has_char_app (c : ascii) (u v : string) :
  Str.has_char c (u ++ String c v) = true.
Proof.
  unfold Str.has_char. induction u as [| a u IH].
  - change ("" ++ String c v) with (String c v).
    cbn [Str.contains Str.startswith]. rewrite Ascii.eqb_refl. reflexivity.
  - change (String a u ++ String c v) with (String a (u ++ String c v)).
    cbn [Str.contains]. rewrite IH. apply orb_true_r.
Qed.

(** A text with exactly one [c] is cut by it in two parts without [c]. *)
Lemma count_one_split (c : ascii) (s : string) :
  Str.count c s = 1%Z ->
  exists u v, s = u ++ String c v /\ free c u = true /\ free c v = true.
Proof.
  assert (Hzero : forall s, Str.count c s = 0%Z -> free c s = true).
  { intros t. unfold free. induction t as [| a t IH]; [reflexivity |].
    cbn [Str.count all_in]. pose proof (count_nonneg c t).
    destruct (Ascii.eqb a c); [lia |]. intros H0. apply IH. lia. }
  induction s as [| a s IH]; cbn [Str.count]; [discriminate |].
  pose proof (count_nonneg c s).
  destruct (Ascii.eqb a c) eqn:E; intros H1.
  - apply Ascii.eqb_eq in E. subst a. exists "", s.
    repeat split. apply Hzero. lia.
  - destruct IH as (u & v & -> & Hu & Hv); [lia |].
    exists (String a u), v. repeat split; [| exact Hv].
    unfold free. cbn [all_in]. rewrite E. exact Hu.
Qed.

(** The text after the last [c] of a text that has one *)
Lemma has_char_last (c : ascii) (s : string) :
  Str.has_char c s = true ->
  exists u v, s = u ++ String c v /\ free c v = true.
Proof.
  rewrite has_char_count. intros H. apply negb_true_iff, Z.eqb_neq in H.
  induction s as [| a s IH]; [contradiction H; reflexivity |].
  destruct (Z.eq_dec (Str.count c s) 0%Z) as [H0 | H0].
  - cbn [Str.count] in H. rewrite H0 in H.
    destruct (Ascii.eqb a c) eqn:E; [| contradiction H; reflexivity].
    apply Ascii.eqb_eq in E. subst a. exists "", s. split; [reflexivity |].
    clear H IH. unfold free. induction s as [| b s IH]; [reflexivity |].
    cbn [Str.count all_in] in *. pose proof (count_nonneg c s).
    destruct (Ascii.eqb b c); [lia |]. apply IH. lia.
  - destruct (IH H0) as (u & v & -> & Hv).
    exists (String a u), v. split; [reflexivity | exact Hv].
Qed.

Lemma free_app (c : ascii) (u v : string) :
  free c (u ++ v) = free c u && free c v.
Proof. apply all_in_app. Qed.

Lemma endswith_app (w suf : string) : Str.endswith suf (w ++ suf) = true.
Proof.
  induction w as [| a w IH].
  - change ("" ++ suf) with suf. destruct suf; cbn [Str.endswith];
      rewrite String.eqb_refl; reflexivity.
  - change (String a w ++ suf) with (String a (w ++ suf)).
    cbn [Str.endswith]. rewrite IH. apply orb_true_r.
Qed.

Lemma contains_dots_newline (s : string) :
  Str.contains ".." (s ++ String "010" "") = Str.contains ".." s.
Proof.
  induction s as [| a s IH]; [reflexivity |].
  change (String a s ++ String "010" "") with (String a (s ++ String "010" "")).
  cbn [Str.contains]. rewrite IH. f_equal.
  cbn [Str.startswith]. f_equal.
  destruct s as [| b s]; [reflexivity |].
  change (String b s ++ String "010" "") with (String b (s ++ String "010" "")).
  reflexivity.
Qed.

End Splitting.

Section Forward.
Import Re.

Lemma seq_inv (ic : bool) (r1 r2 : regex) (st st' : mstate) :
  In st' (run ic (Seq r1 r2) st) ->
  exists st1, In st1 (run ic r1 st) /\ In st' (run ic r2 st1).
Proof. cbn [run]. intros H. apply in_flat_map in H. exact H. Qed.

Lemma single_inv (ok : ascii -> bool) (st st' : mstate) :
  In st' (single ok st) ->
  exists d, rest st = String d (rest st') /\ ok d = true.
Proof.
  unfold single, advance. destruct (rest st) as [| d s]; [intros [] |].
  destruct (ok d) eqn:E; [| intros []].
  intros [<- | []]. exists d. split; [reflexivity | exact E].
Qed.

Lemma set_inv (p : ascii -> bool) (st st' : mstate) :
  In st' (run false (Set_ p) st) ->
  exists d, rest st = String d (rest st') /\ p d = true.
Proof. apply single_inv. Qed.

Lemma chr_inv (c : ascii) (st st' : mstate) :
  In st' (run false (Chr c) st) -> rest st = String c (rest st').
Proof.
  intros H. apply single_inv in H as (d & -> & Hd).
  apply Ascii.eqb_eq in Hd. subst d. reflexivity.
Qed.

Lemma star_set_inv (p : ascii -> bool) (fuel : nat) (st st' : mstate) :
  In st' (greedy (run false (Set_ p)) fuel st) ->
  exists w, rest st = w ++ rest st' /\ all_in p w = true.
Proof.
  revert st. induction fuel as [| fuel IH]; intros st; cbn [greedy].
  - intros [<- | []]. exists "". split; reflexivity.
  - intros H. apply in_app_or in H as [H | [<- | []]].
    + apply in_flat_map in H as (st1 & H1 & H).
      apply filter_In in H1 as [H1 _].
      apply set_inv in H1 as (d & -> & Hd).
      apply IH in H as (w & -> & Hw).
      exists (String d w). split; [reflexivity |].
      cbn [all_in]. rewrite Hd, Hw. reflexivity.
    + exists "". split; reflexivity.
Qed.

(** The text consumed by ([p]*[q])? *)
Lemma opt_group_inv (p q : ascii -> bool) (st st' : mstate) :
  In st' (run false (Opt (Group (Seq (Star (Set_ p)) (Set_ q)))) st) ->
  exists w, rest st = w ++ rest st' /\ all_in (fun d => p d || q d) w = true.
Proof.
  cbn [run]. intros H. apply in_app_or in H as [H | [<- | []]].
  - apply in_map_iff in H as (st2 & <- & H). cbn [rest].
    apply in_flat_map in H as (st1 & H1 & H).
    apply star_set_inv in H1 as (w & -> & Hw).
    apply (single_inv _ st1 st2) in H as (d & -> & Hd).
    exists (w ++ String d ""). split.
    + rewrite append_assoc. reflexivity.
    + rewrite all_in_app. cbn [all_in].
      rewrite (all_in_impl p _ w (fun d H => orb_true_intro _ _ (or_introl H)) Hw).
      change (set_matches false q d) with (q d) in Hd.
      rewrite Hd, orb_true_r. reflexivity.
  - exists "". split; reflexivity.
Qed.

Lemma eol_inv (st st' : mstate) :
  In st' (run false Eol st) ->
  st' = st /\ (rest st = "" \/ rest st = String "010" "").
Proof.
  cbn [run]. destruct (rest st) as [| a [| b s]].
  - intros [<- | []]. auto.
  - destruct a as [[] [] [] [] [] [] [] []]; cbn; intros H;
      try contradiction; destruct H as [<- | []]; auto.
  - destruct a as [[] [] [] [] [] [] [] []]; cbn; intros H; contradiction.
Qed.

(** The shape of a text that [email_pattern] matches *)
Lemma email_pattern_shape (email : string) :
  matches false Verifier.email_pattern email = true ->
  exists a w1 b w2 t e,
    email = String a (w1 ++ String "@" (String b (w2 ++ String "." (t ++ e)))) /\
    alnum a = true /\
    all_in (fun c => (alnum c || one_of "._+-" c) || alnum c) w1 = true /\
    alnum b = true /\
    all_in (fun c => (alnum c || one_of ".-" c) || alnum c) w2 = true /\
    all_in alpha t = true /\ 2 <= String.length t /\
    (e = "" \/ e = String "010" "").
Proof.
  unfold matches, match_at.
  destruct (run false Verifier.email_pattern (MState None email [])) as [| st l] eqn:E;
    [discriminate |]. intros _.
  assert (H : In st (run false Verifier.email_pattern (MState None email [])))
    by (rewrite E; left; reflexivity).
  clear E l. unfold Verifier.email_pattern, AtLeast2 in H.
  apply seq_inv in H as (s0 & H0 & H).
  cbn [run prev] in H0. destruct H0 as [<- | []].
  apply seq_inv in H as (s1 & H1 & H). apply set_inv in H1 as (a & E1 & Ha).
  apply seq_inv in H as (s2 & H2 & H). apply opt_group_inv in H2 as (w1 & E2 & Hw1).
  apply seq_inv in H as (s3 & H3 & H). apply chr_inv in H3.
  apply seq_inv in H as (s4 & H4 & H). apply set_inv in H4 as (b & E4 & Hb).
  apply seq_inv in H as (s5 & H5 & H). apply opt_group_inv in H5 as (w2 & E5 & Hw2).
  apply seq_inv in H as (s6 & H6 & H). apply chr_inv in H6.
  apply seq_inv in H as (s7 & H7 & H).
  apply seq_inv in H7 as (s8 & H8 & H7). apply set_inv in H8 as (x & E8 & Hx).
  apply seq_inv in H7 as (s9 & H9 & H7). apply set_inv in H9 as (y & E9 & Hy).
  cbn [run] in H7. apply star_set_inv in H7 as (z & E7 & Hz).
  apply eol_inv in H as [-> He].
  exists a, w1, b, w2, (String x (String y z)), (rest s7).
  cbn [rest] in E1. rewrite E1, E2, H3, E4, E5, H6, E8, E9, E7.
  repeat split; auto.
  - cbn [all_in]. rewrite Hx, Hy, Hz. reflexivity.
  - cbn [String.length]. lia.
Qed.

(** The matcher only moves forward. *)
Lemma greedy_suffix (step : mstate -> list mstate) (fuel : nat) :
  (forall st st', In st' (step st) -> exists w, rest st = w ++ rest st') ->
  forall st st', In st' (greedy step fuel st) -> exists w, rest st = w ++ rest st'.
Proof.
  intros Hstep. induction fuel as [| fuel IH]; intros st st'; cbn [greedy].
  - intros [<- | []]. exists "". reflexivity.
  - intros H. apply in_app_or in H as [H | [<- | []]]; [| exists ""; reflexivity].
    apply in_flat_map in H as (st1 & H1 & H). apply filter_In in H1 as [H1 _].
    apply Hstep in H1 as (w1 & ->). apply IH in H as (w & ->).
    exists (w1 ++ w). rewrite append_assoc. reflexivity.
Qed.

Lemma lazy_suffix (step : mstate -> list mstate) (fuel : nat) :
  (forall st st', In st' (step st) -> exists w, rest st = w ++ rest st') ->
  forall st st', In st' (lazy step fuel st) -> exists w, rest st = w ++ rest st'.
Proof.
  intros Hstep. induction fuel as [| fuel IH]; intros st st'; cbn [lazy].
  - intros [<- | []]. exists "". reflexivity.
  - intros [<- | H]; [exists ""; reflexivity |].
    apply in_flat_map in H as (st1 & H1 & H). apply filter_In in H1 as [H1 _].
    apply Hstep in H1 as (w1 & ->). apply IH in H as (w & ->).
    exists (w1 ++ w). rewrite append_assoc. reflexivity.
Qed.

Lemma run_suffix (ic : bool) (r : regex) (st st' : mstate) :
  In st' (run ic r st) -> exists w, rest st = w ++ rest st'.
Proof.
  revert st st'.
  induction r as [c | p | | r1 IH1 r2 IH2 | r IH | r IH | r IH | | | | r IH];
    intros st st'; cbn [run].
  - intros H. apply single_inv in H as (d & -> & _). exists (String d ""). reflexivity.
  - intros H. apply single_inv in H as (d & -> & _). exists (String d ""). reflexivity.
  - intros H. apply single_inv in H as (d & -> & _). exists (String d ""). reflexivity.
  - intros H. apply in_flat_map in H as (st1 & H1 & H).
    apply IH1 in H1 as (w1 & ->). apply IH2 in H as (w & ->).
    exists (w1 ++ w). rewrite append_assoc. reflexivity.
  - apply greedy_suffix. exact IH.
  - apply lazy_suffix. exact IH.
  - intros H. apply in_app_or in H as [H | [<- | []]];
      [apply IH, H | exists ""; reflexivity].
  - destruct (prev st); [intros [] | intros [<- | []]; exists ""; reflexivity].
  - intros H. apply eol_inv in H as [-> _]. exists "". reflexivity.
  - destruct (xorb _ _); [intros [<- | []]; exists ""; reflexivity | intros []].
  - intros H. apply in_map_iff in H as (st2 & <- & H). cbn [rest]. apply IH, H.
Qed.

(** A plain pattern matches the same way when the text goes on. *)
Lemma single_ext (ok : ascii -> bool) (t : string) (st st' : mstate) :
  In st' (single ok st) -> In (ext t st') (single ok (ext t st)).
Proof.
  unfold single, advance, ext. destruct st as [p s c]. cbn [rest prev caps].
  destruct s as [| d s]; [intros [] |].
  change (String d s ++ t) with (String d (s ++ t)).
  cbn beta iota. intros H. destruct (ok d); [| destruct H].
  destruct H as [<- | []]. left. reflexivity.
Qed.

Lemma shorter_ext (t : string) (st st' : mstate) :
  shorter (ext t st) (ext t st') = shorter st st'.
Proof.
  unfold shorter, ext. cbn [rest]. rewrite !append_length.
  destruct (Nat.ltb_spec (String.length (rest st')) (String.length (rest st)));
    [apply Nat.ltb_lt | apply Nat.ltb_ge]; lia.
Qed.

Lemma greedy_ext (step : mstate -> list mstate) (t : string) :
  (forall st st', In st' (step st) -> In (ext t st') (step (ext t st))) ->
  forall fuel fuel' st st', fuel <= fuel' ->
    In st' (greedy step fuel st) -> In (ext t st') (greedy step fuel' (ext t st)).
Proof.
  intros Hstep. induction fuel as [| fuel IH]; intros fuel' st st' Hle; cbn [greedy].
  - intros [<- | []]. destruct fuel'; cbn [greedy]; [left; reflexivity |].
    apply in_or_app. right. left. reflexivity.
  - destruct fuel' as [| fuel']; [lia |]. cbn [greedy].
    intros H. apply in_app_or in H as [H | [<- | []]]; apply in_or_app;
      [left | right; left; reflexivity].
    apply in_flat_map in H as (st1 & H1 & H). apply filter_In in H1 as [H1 Hs].
    apply in_flat_map. exists (ext t st1). split.
    + apply filter_In. split; [apply Hstep, H1 | rewrite shorter_ext; exact Hs].
    + apply (IH fuel'); [lia | exact H].
Qed.

Lemma lazy_ext (step : mstate -> list mstate) (t : string) :
  (forall st st', In st' (step st) -> In (ext t st') (step (ext t st))) ->
  forall fuel fuel' st st', fuel <= fuel' ->
    In st' (lazy step fuel st) -> In (ext t st') (lazy step fuel' (ext t st)).
Proof.
  intros Hstep. induction fuel as [| fuel IH]; intros fuel' st st' Hle; cbn [lazy].
  - intros [<- | []]. destruct fuel'; cbn [lazy]; left; reflexivity.
  - destruct fuel' as [| fuel']; [lia |]. cbn [lazy].
    intros [<- | H]; [left; reflexivity | right].
    apply in_flat_map in H as (st1 & H1 & H). apply filter_In in H1 as [H1 Hs].
    apply in_flat_map. exists (ext t st1). split.
    + apply filter_In. split; [apply Hstep, H1 | rewrite shorter_ext; exact Hs].
    + apply (IH fuel'); [lia | exact H].
Qed.

Lemma take_app_le (n : nat) (u t : string) :
  n <= String.length u -> Str.take n (u ++ t) = Str.take n u.
Proof.
  revert u. induction n as [| n IH]; intros u Hn.
  - destruct u; destruct t; reflexivity.
  - destruct u as [| a u]; cbn [String.length] in Hn; [lia |].
    change (String a u ++ t) with (String a (u ++ t)). cbn [Str.take].
    rewrite IH by lia. reflexivity.
Qed.

Lemma run_ext (ic : bool) (t : string) (r : regex) (st st' : mstate) :
  plain r = true ->
  In st' (run ic r st) -> In (ext t st') (run ic r (ext t st)).
Proof.
  revert st st'.
  induction r as [c | p | | r1 IH1 r2 IH2 | r IH | r IH | r IH | | | | r IH];
    intros st st' Hr; cbn [run plain] in *; try discriminate.
  - apply single_ext.
  - apply single_ext.
  - apply single_ext.
  - apply andb_true_iff in Hr as [Hr1 Hr2]. intros H.
    apply in_flat_map in H as (st1 & H1 & H). apply in_flat_map.
    exists (ext t st1). split; [apply IH1 | apply IH2]; assumption.
  - apply greedy_ext; [intros; apply IH; assumption |].
    unfold ext. cbn [rest]. rewrite append_length. lia.
  - apply lazy_ext; [intros; apply IH; assumption |].
    unfold ext. cbn [rest]. rewrite append_length. lia.
  - intros H. apply in_app_or in H as [H | [<- | []]]; apply in_or_app;
      [left; apply IH; assumption | right; left; reflexivity].
  - unfold ext at 2. cbn [prev].
    destruct (prev st); [intros [] | intros [<- | []]; left; reflexivity].
  - intros H. apply in_map_iff in H as (st2 & <- & H). apply in_map_iff.
    exists (ext t st2). split; [| apply IH; assumption].
    unfold ext. cbn [prev rest caps]. f_equal. f_equal. f_equal.
    destruct (run_suffix ic r st st2 H) as (w & Hw).
    rewrite !append_length. rewrite Hw, append_length.
    replace (String.length w + String.length (rest st2) + String.length t
             - (String.length (rest st2) + String.length t))
      with (String.length w) by lia.
    replace (String.length w + String.length (rest st2) - String.length (rest st2))
      with (String.length w) by lia.
    rewrite append_assoc.
    rewrite !take_app_le by lia. reflexivity.
Qed.

(** A pattern closed by [$] that matches a text without a final newline
    matches the text followed by a newline. *)
Lemma run_newline (r : regex) (st st' : mstate) :
  ends_eol r = true ->
  In st' (run false r st) ->
  In (ext (String "010" "") st') (run false r (ext (String "010" "") st)) \/
  exists w, rest st = w ++ String "010" "".
Proof.
  revert st st'.
  induction r as [c | p | | r1 IH1 r2 IH2 | r IH | r IH | r IH | | | | r IH];
    intros st st' Hr; cbn [ends_eol] in Hr; try discriminate.
  - apply andb_true_iff in Hr as [Hr1 Hr2]. intros H.
    apply seq_inv in H as (st1 & H1 & H).
    destruct (IH2 st1 st' Hr2 H) as [Hin | (w & Hw)].
    + left. cbn [run]. apply in_flat_map. exists (ext (String "010" "") st1).
      split; [apply run_ext; assumption | exact Hin].
    + right. destruct (run_suffix false r1 st st1 H1) as (w1 & ->).
      exists (w1 ++ w). rewrite Hw, append_assoc. reflexivity.
  - intros H. apply eol_inv in H as [-> [He | He]].
    + left. cbn [run]. unfold ext at 2. cbn [rest]. rewrite He.
      left. reflexivity.
    + right. exists "". exact He.
Qed.

Lemma matches_newline (r : regex) (s : string) :
  ends_eol r = true -> Str.endswith (String "010" "") s = false ->
  matches false r s = true -> matches false r (s ++ String "010" "") = true.
Proof.
  intros Hr Hs. unfold matches, match_at.
  destruct (run false r (MState None s [])) as [| st l] eqn:E; [discriminate |].
  intros _.
  assert (H : In st (run false r (MState None s []))) by (rewrite E; left; reflexivity).
  destruct (run_newline r _ _ Hr H) as [Hin | (w & Hw)].
  - unfold ext at 2 in Hin. cbn [prev rest caps] in Hin.
    destruct (run false r (MState None (s ++ String "010" "") [])); [destruct Hin |].
    reflexivity.
  - cbn [rest] in Hw. rewrite Hw, endswith_app in Hs. discriminate.
Qed.

End Forward.

Section FormatStage.
Import Re Verifier.

Lemma alnum_not_at (d : ascii) :
  alnum d = true -> negb (Ascii.eqb d "@") = true.
Proof. destruct d as [[] [] [] [] [] [] [] []]; vm_compute; congruence. Qed.

Lemma local_class_not_at (d : ascii) :
  (alnum d || one_of "._+-" d) || alnum d = true -> negb (Ascii.eqb d "@") = true.
Proof. destruct d as [[] [] [] [] [] [] [] []]; vm_compute; congruence. Qed.

Lemma domain_class_not_at (d : ascii) :
  (alnum d || one_of ".-" d) || alnum d = true -> negb (Ascii.eqb d "@") = true.
Proof. destruct d as [[] [] [] [] [] [] [] []]; vm_compute; congruence. Qed.

Lemma alpha_not_at (d : ascii) :
  alpha d = true -> negb (Ascii.eqb d "@") = true.
Proof. destruct d as [[] [] [] [] [] [] [] []]; vm_compute; congruence. Qed.

Lemma alpha_not_dot (d : ascii) :
  alpha d = true -> negb (Ascii.eqb d ".") = true.
Proof. destruct d as [[] [] [] [] [] [] [] []]; vm_compute; congruence. Qed.

(** X23. The format stage never answers "Domain must have TLD" nor "TLD
    too short": a text that [email_pattern] matches has a dot in its
    domain and at least two characters after the last one, so the two
    checks that follow the pattern reject nothing. *)
Theorem validate_format_unused_reasons (email : string) :
  snd (_validate_email_format email) <> "Domain must have TLD" /\
  snd (_validate_email_format email) <> "TLD too short".
Proof.
  unfold _validate_email_format.
  destruct (String.eqb email ""); [split; discriminate |].
  destruct (negb (Str.has_char "@" email) || negb (Str.count "@" email =? 1)%Z);
    [split; discriminate |].
  destruct (String.eqb (Str.item (Str.split "@" email) 0) ""
            || (64 <? Str.len (Str.item (Str.split "@" email) 0))%Z);
    [split; discriminate |].
  destruct (String.eqb (Str.item (Str.split "@" email) 1) ""
            || (253 <? Str.len (Str.item (Str.split "@" email) 1))%Z);
    [split; discriminate |].
  destruct (Str.contains ".." email); [split; discriminate |].
  destruct (matches false email_pattern email) eqn:Em; cbn [negb];
    [| split; discriminate].
  apply email_pattern_shape in Em
    as (a & w1 & b & w2 & t & e & -> & Ha & Hw1 & Hb & Hw2 & Ht & Hlen & He).
  assert (Hfe : forall c, c = "@"%char \/ c = "."%char -> free c e = true).
  { intros c Hc. destruct He as [-> | ->]; [reflexivity |].
    destruct Hc as [-> | ->]; reflexivity. }
  assert (Hlocal : free "@" (String a w1) = true).
  { unfold free. cbn [all_in]. rewrite (alnum_not_at a Ha).
    apply (all_in_impl _ _ w1 local_class_not_at Hw1). }
  assert (Htld : free "." (t ++ e) = true).
  { rewrite free_app, (Hfe "."%char) by auto. unfold free.
    rewrite (all_in_impl _ _ t alpha_not_dot Ht). reflexivity. }
  assert (Hdomain : free "@" (String b (w2 ++ String "." (t ++ e))) = true).
  { unfold free. cbn [all_in]. rewrite (alnum_not_at b Hb).
    rewrite all_in_app. cbn [all_in]. rewrite all_in_app.
    rewrite (all_in_impl _ _ w2 domain_class_not_at Hw2).
    rewrite (all_in_impl _ _ t alpha_not_at Ht).
    fold (free "@" e). rewrite (Hfe "@"%char) by auto. reflexivity. }
  change (String a (w1 ++ String "@" (String b (w2 ++ String "." (t ++ e)))))
    with (String a w1 ++ String "@" (String b (w2 ++ String "." (t ++ e)))).
  rewrite split_app_sep, (split_free _ _ Hlocal), (split_free _ _ Hdomain).
  cbn [List.app Str.item nth].
  change (String b (w2 ++ String "." (t ++ e)))
    with (String b w2 ++ String "." (t ++ e)).
  rewrite has_char_app. cbn [negb].
  unfold Str.last_item. rewrite split_app_sep, last_app_ne by apply split_nonempty.
  rewrite (split_free _ _ Htld). cbn [List.last].
  unfold Str.len. rewrite append_length.
  destruct (Z.ltb_spec (Z.of_nat (String.length t + String.length e)) 2); [lia |].
  split; discriminate.
Qed.

(** X24. The format stage accepts an address followed by one newline
    whenever it accepts the address itself, the address does not end
    with a newline already and its domain has fewer than 253
    characters: the [$] of [email_pattern] also matches before a final
    newline. *)
Theorem validate_format_trailing_newline (email : string) :
  fst (_validate_email_format email) = true ->
  Str.endswith (String "010" "") email = false ->
  (Str.len (Str.item (Str.split "@" email) 1) < 253)%Z ->
  _validate_email_format (email ++ String "010" "") = (true, "Valid format").
Proof.
  intros Hv Hnl Hlen. unfold _validate_email_format in Hv.
  destruct (String.eqb email "") eqn:E0; [discriminate |].
  destruct (negb (Str.has_char "@" email) || negb (Str.count "@" email =? 1)%Z) eqn:E1;
    [discriminate |].
  apply orb_false_iff in E1 as [_ E1]. apply negb_false_iff, Z.eqb_eq in E1.
  destruct (count_one_split _ _ E1) as (u & v & -> & Hu & Hv').
  rewrite split_app_sep, (split_free _ _ Hu), (split_free _ _ Hv') in Hv, Hlen.
  cbn [List.app Str.item nth] in Hv, Hlen.
  destruct (String.eqb u "" || (64 <? Str.len u)%Z) eqn:E2; [discriminate |].
  destruct (String.eqb v "" || (253 <? Str.len v)%Z) eqn:E3; [discriminate |].
  destruct (Str.contains ".." (u ++ String "@" v)) eqn:E4; [discriminate |].
  destruct (matches false email_pattern (u ++ String "@" v)) eqn:E5;
    cbn [negb] in Hv; [| discriminate].
  destruct (Str.has_char "." v) eqn:E6; cbn [negb] in Hv; [| discriminate].
  destruct (Str.len (Str.last_item (Str.split "." v)) <? 2)%Z eqn:E7; [discriminate |].
  clear Hv.
  destruct (has_char_last _ _ E6) as (p & q & -> & Hq).
  unfold Str.last_item in E7.
  rewrite split_app_sep, last_app_ne, (split_free _ _ Hq) in E7
    by apply split_nonempty.
  cbn [List.last] in E7.
  set (nl := String "010" "") in *.
  assert (Hq' : free "." (q ++ nl) = true)
    by (rewrite free_app, Hq; reflexivity).
  assert (Hv2 : free "@" ((p ++ String "." q) ++ nl) = true)
    by (rewrite free_app, Hv'; reflexivity).
  unfold _validate_email_format.
  assert (A0 : String.eqb ((u ++ String "@" (p ++ String "." q)) ++ nl) "" = false).
  { destruct u; [reflexivity | reflexivity]. }
  rewrite A0.
  assert (Eq : (u ++ String "@" (p ++ String "." q)) ++ nl
               = u ++ String "@" ((p ++ String "." q) ++ nl)).
  { rewrite append_assoc. reflexivity. }
  assert (A1 : Str.count "@" ((u ++ String "@" (p ++ String "." q)) ++ nl) = 1%Z).
  { clear - E1. revert E1. generalize (u ++ String "@" (p ++ String "." q)).
    intros s. induction s as [| a s IH]; [discriminate |].
    change (String a s ++ nl) with (String a (s ++ nl)). cbn [Str.count].
    destruct (Ascii.eqb a "@").
    - intros H. f_equal.
      assert (H0 : Str.count "@" s = 0%Z) by lia. clear - H0.
      induction s as [| b s IH]; [reflexivity |].
      change (String b s ++ nl) with (String b (s ++ nl)).
      cbn [Str.count] in *. pose proof (count_nonneg "@" s).
      destruct (Ascii.eqb b "@"); [lia |]. apply IH. lia.
    - intros H. rewrite IH by lia. reflexivity. }
  assert (Hhas : Str.has_char "@" ((u ++ String "@" (p ++ String "." q)) ++ nl) = true)
    by (rewrite Eq; apply has_char_app).
  assert (Hsp : Str.split "@" ((u ++ String "@" (p ++ String "." q)) ++ nl)
                = [u; (p ++ String "." q) ++ nl]).
  { rewrite Eq, split_app_sep, (split_free _ _ Hu), (split_free _ _ Hv2).
    reflexivity. }
  rewrite A1, Hhas, Hsp. cbn [negb orb Z.eqb Pos.eqb Str.item nth]. rewrite E2.
  assert (A3 : String.eqb ((p ++ String "." q) ++ nl) ""
               || (253 <? Str.len ((p ++ String "." q) ++ nl))%Z = false).
  { apply orb_false_iff. split.
    - destruct p; reflexivity.
    - apply Z.ltb_ge. unfold Str.len in *. rewrite append_length.
      subst nl. cbn [String.length]. lia. }
  rewrite A3.
  rewrite (contains_dots_newline (u ++ String "@" (p ++ String "." q))
           : Str.contains ".." (_ ++ nl) = _), E4.
  rewrite (matches_newline email_pattern _ eq_refl Hnl E5
           : matches false email_pattern (_ ++ nl) = true).
  cbn [negb].
  replace ((p ++ String "." q) ++ nl) with (p ++ String "." (q ++ nl))
    by (rewrite append_assoc; reflexivity).
  rewrite has_char_app. cbn [negb].
  unfold Str.last_item.
  rewrite split_app_sep, last_app_ne, (split_free _ _ Hq') by apply split_nonempty.
  cbn [List.last].
  assert (A7 : (Str.len (q ++ nl) <? 2)%Z = false).
  { apply Z.ltb_ge in E7. apply Z.ltb_ge. unfold Str.len in *.
    rewrite append_length. lia. }
  rewrite A7. reflexivity.
Qed.

End FormatStage.

Lemma validate_format_trailing_newline_witness :
  Verifier._validate_email_format ("info@example.com" ++ String "010" "")
  = (true, "Valid format").
Proof.
  apply (validate_format_trailing_newline "info@example.com").
  - vm_compute. reflexivity.
  - vm_compute. reflexivity.
  - vm_compute. reflexivity.
Defined.

(** ** A crawl of depth zero *)

Section DepthZero.
Import Crawler.
Variable self : WebCrawler.
Variable web : Web.
Variable seed : string.

Lemma add_link_fetched (depth : Z) (v : vars) (link : string) :
  visited_urls (add_link self depth v link) = visited_urls v /\
  failed_urls (add_link self depth v link) = failed_urls v.
Proof.
  unfold add_link.
  destruct (negb (bool_decide (link ∈ discovered_urls v))
            && (size_Z (discovered_urls v) <? max_pages self)%Z);
    split; reflexivity.
Qed.

Lemma add_link_discovered (depth : Z) (v : vars) (link url : string) :
  url ∈ discovered_urls (add_link self depth v link) ->
  url ∈ discovered_urls v \/ url = link.
Proof.
  unfold add_link.
  destruct (negb (bool_decide (link ∈ discovered_urls v))
            && (size_Z (discovered_urls v) <? max_pages self)%Z);
    cbn [discovered_urls]; [| auto].
  intros H. apply elem_of_union in H as [H | H]; [| auto].
  apply elem_of_singleton in H. auto.
Qed.

Lemma add_links_fetched (depth : Z) (links : list string) (v : vars) :
  visited_urls (fold_left (add_link self depth) links v) = visited_urls v /\
  failed_urls (fold_left (add_link self depth) links v) = failed_urls v.
Proof.
  revert v. induction links as [| link links IH]; intros v; [split; reflexivity |].
  cbn [fold_left]. destruct (IH (add_link self depth v link)) as [-> ->].
  apply add_link_fetched.
Qed.

Lemma add_links_discovered (depth : Z) (links : list string) (v : vars)
    (url : string) :
  url ∈ discovered_urls (fold_left (add_link self depth) links v) ->
  url ∈ discovered_urls v \/ In url links.
Proof.
  revert v. induction links as [| link links IH]; intros v; [auto |].
  cbn [fold_left]. intros H. apply IH in H as [H | H]; [| right; right; exact H].
  apply add_link_discovered in H as [H | ->]; [auto | right; left; reflexivity].
Qed.

(** X25. With [max_depth] equal to 0 only the homepage is ever requested,
    and every discovered URL is the homepage or a link read off it: one
    of the links that [_extract_links] finds in the homepage. *)
Theorem crawl_depth_zero :
  max_depth self = 0%Z ->
  let v := vars_of (crawl_frontier self web seed) in
  visited_urls v ∪ failed_urls v ⊆ {[seed]} /\
  (forall url, url ∈ discovered_urls v ->
     url = seed \/
     exists content page_links,
       fetch web seed = Page content /\
       _extract_links web content seed = Some page_links /\
       In url page_links).
Proof.
  intros Hd. unfold crawl_frontier. rewrite Hd.
  change (Z.to_nat (0 + 1)) with 1%nat.
  cbn [crawl_levels urls_to_crawl discovered_urls visited_urls crawled_urls
       failed_urls trace orb].
  assert (Hseed : forall url : string, url ∈ ({[seed]} : gset string) -> url = seed)
    by (intros url H; apply elem_of_singleton in H; exact H).
  destruct (max_pages self <=? size_Z {[seed]})%Z eqn:E0;
    [cbn [vars_of visited_urls failed_urls discovered_urls]; split;
     [set_solver | intros url H; left; apply Hseed, H] |].
  cbn [process_batch discovered_urls visited_urls]. rewrite E0.
  rewrite bool_decide_eq_false_2 by set_solver.
  destruct (fetch web seed) as [content | |] eqn:Ef.
  - destruct (_extract_links web content seed) as [page_links |] eqn:Ex.
    + cbn [process_batch crawl_levels].
      match goal with
      | |- context [fold_left (add_link self 0) ?l ?v0] =>
          set (ls := l); set (v1 := v0)
      end.
      cbn [vars_of].
      destruct (add_links_fetched 0 ls v1) as [Hv Hf].
      split.
      * rewrite Hv, Hf. subst v1. cbn [visited_urls failed_urls]. set_solver.
      * intros url H. apply add_links_discovered in H as [H | H].
        -- left. apply Hseed, H.
        -- right. exists content, page_links.
           split; [reflexivity | split; [exact Ex |]].
           subst ls. unfold _filter_and_prioritize_links,
             _prioritize_links_by_relevance in H.
           apply (Permutation_in _
                    (Permutation_sym (sorted_desc_perm link_priority _))) in H.
           apply filter_In in H as [H _]. exact H.
    + cbn [vars_of visited_urls failed_urls discovered_urls].
      split; [set_solver | intros url H; left; apply Hseed, H].
  - cbn [process_batch crawl_levels vars_of visited_urls failed_urls
         discovered_urls].
    split; [set_solver | intros url H; left; apply Hseed, H].
  - cbn [vars_of visited_urls failed_urls discovered_urls].
    split; [set_solver | intros url H; left; apply Hseed, H].
Qed.

End DepthZero.

Lemma crawl_depth_zero_witness :
  let v := Crawler.vars_of
             (Crawler.crawl_frontier
                {| Crawler.bypass_robots := true; Crawler.max_depth := 0;
                   Crawler.max_pages := 10 |} small_web "https://example.com") in
  Crawler.visited_urls v ∪ Crawler.failed_urls v ⊆ {["https://example.com"]} /\
  (forall url, url ∈ Crawler.discovered_urls v ->
     url = "https://example.com" \/
     exists content page_links,
       Crawler.fetch small_web "https://example.com" = Crawler.Page content /\
       Crawler._extract_links small_web content "https://example.com"
       = Some page_links /\
       In url page_links).
Proof.
  apply (crawl_depth_zero
           {| Crawler.bypass_robots := true; Crawler.max_depth := 0;
              Crawler.max_pages := 10 |} small_web "https://example.com").
  reflexivity.
Defined.

(** ** The two validators *)

Section Validators.
Import Re.

Lemma seq_intro (ic : bool) (r1 r2 : regex) (st st1 st' : mstate) :
  In st1 (run ic r1 st) -> In st' (run ic r2 st1) ->
  In st' (run ic (Seq r1 r2) st).
Proof. intros H1 H2. cbn [run]. apply in_flat_map. exists st1. auto. Qed.

Lemma set_intro (p : ascii -> bool) (o : option ascii) (d : ascii)
    (s : string) (c : list string) :
  p d = true ->
  In (MState (Some d) s c) (run false (Set_ p) (MState o (String d s) c)).
Proof.
  intros Hd. cbn [run]. unfold single, advance, set_matches. cbn [rest caps].
  rewrite Hd. left. reflexivity.
Qed.

Lemma chr_intro (o : option ascii) (d : ascii) (s : string) (c : list string) :
  In (MState (Some d) s c) (run false (Chr d) (MState o (String d s) c)).
Proof.
  cbn [run]. unfold single, advance, chr_matches. cbn [rest caps].
  rewrite Ascii.eqb_refl. left. reflexivity.
Qed.

Lemma greedy_self (step : mstate -> list mstate) (fuel : nat) (st : mstate) :
  In st (greedy step fuel st).
Proof.
  destruct fuel; cbn [greedy]; [left; reflexivity |].
  apply in_or_app. right. left. reflexivity.
Qed.

(** A run of characters of the class is among the texts that the
    iteration of the class consumes. *)
Lemma star_set_intro (p : ascii -> bool) (w : string) :
  all_in p w = true ->
  forall (fuel : nat) (o : option ascii) (s : string) (c : list string),
    String.length w <= fuel ->
    In (MState (prev_after o w) s c)
       (greedy (run false (Set_ p)) fuel (MState o (w ++ s) c)).
Proof.
  induction w as [| d w IH]; intros Hw fuel o s c Hf.
  - apply greedy_self.
  - cbn [all_in] in Hw. apply andb_true_iff in Hw as [Hd Hw].
    cbn [String.length] in Hf. destruct fuel as [| fuel]; [lia |].
    change (String d w ++ s) with (String d (w ++ s)).
    cbn [greedy prev_after]. apply in_or_app. left. apply in_flat_map.
    exists (MState (Some d) (w ++ s) c). split.
    + apply filter_In. split; [apply set_intro, Hd |].
      unfold shorter. cbn [rest String.length]. apply Nat.ltb_lt. lia.
    + apply IH; [exact Hw | lia].
Qed.

Lemma star_intro (p : ascii -> bool) (w : string) (o : option ascii)
    (s : string) (c : list string) :
  all_in p w = true ->
  In (MState (prev_after o w) s c)
     (run false (Star (Set_ p)) (MState o (w ++ s) c)).
Proof.
  intros Hw. cbn [run rest]. apply star_set_intro; [exact Hw |].
  rewrite append_length. lia.
Qed.

Lemma eol_intro (o : option ascii) (e : string) (c : list string) :
  e = "" \/ e = String "010" "" ->
  In (MState o e c) (run false Eol (MState o e c)).
Proof. intros [-> | ->]; left; reflexivity. Qed.

Lemma matches_intro (r : regex) (s : string) (st : mstate) :
  In st (run false r (MState None s [])) -> matches false r s = true.
Proof.
  unfold matches, match_at.
  destruct (run false r (MState None s [])); [intros [] | reflexivity].
Qed.

Lemma alnum_local (d : ascii) : alnum d = true -> Extractor.local_char d = true.
Proof. destruct d as [[] [] [] [] [] [] [] []]; vm_compute; congruence. Qed.

Lemma class_local (d : ascii) :
  (alnum d || one_of "._+-" d) || alnum d = true -> Extractor.local_char d = true.
Proof. destruct d as [[] [] [] [] [] [] [] []]; vm_compute; congruence. Qed.

Lemma alnum_domain (d : ascii) : alnum d = true -> Extractor.domain_char d = true.
Proof. destruct d as [[] [] [] [] [] [] [] []]; vm_compute; congruence. Qed.

Lemma class_domain (d : ascii) :
  (alnum d || one_of ".-" d) || alnum d = true -> Extractor.domain_char d = true.
Proof. destruct d as [[] [] [] [] [] [] [] []]; vm_compute; congruence. Qed.

(** X26. Every address that the format stage of the verifier accepts
    passes the validator of the extractor. *)
Theorem format_valid_is_valid_email (email : string) :
  fst (Verifier._validate_email_format email) = true ->
  Extractor._is_valid_email email = true.
Proof.
  intros Hv. unfold Verifier._validate_email_format in Hv.
  destruct (String.eqb email "") eqn:E0; [discriminate |].
  destruct (negb (Str.has_char "@" email) || negb (Str.count "@" email =? 1)%Z) eqn:E1;
    [discriminate |].
  apply orb_false_iff in E1 as [E1 _]. apply negb_false_iff in E1.
  destruct (String.eqb (Str.item (Str.split "@" email) 0) ""
            || (64 <? Str.len (Str.item (Str.split "@" email) 0))%Z) eqn:E2;
    [discriminate |].
  destruct (String.eqb (Str.item (Str.split "@" email) 1) ""
            || (253 <? Str.len (Str.item (Str.split "@" email) 1))%Z) eqn:E3;
    [discriminate |].
  destruct (Str.contains ".." email); [discriminate |].
  destruct (matches false Verifier.email_pattern email) eqn:Em; [| discriminate].
  clear Hv. unfold Extractor._is_valid_email. rewrite E0, E1. cbn [orb negb].
  apply email_pattern_shape in Em
    as (a & w1 & b & w2 & t & e & -> & Ha & Hw1 & Hb & Hw2 & Ht & Hlen & He).
  assert (Hfe : forall c, c = "@"%char \/ c = "."%char -> free c e = true).
  { intros c Hc. destruct He as [-> | ->]; [reflexivity |].
    destruct Hc as [-> | ->]; reflexivity. }
  assert (Hlocal : free "@" (String a w1) = true).
  { unfold free. cbn [all_in]. rewrite (alnum_not_at a Ha).
    apply (all_in_impl _ _ w1 local_class_not_at Hw1). }
  assert (Hdomain : free "@" (String b (w2 ++ String "." (t ++ e))) = true).
  { unfold free. cbn [all_in]. rewrite (alnum_not_at b Hb).
    rewrite all_in_app. cbn [all_in]. rewrite all_in_app.
    rewrite (all_in_impl _ _ w2 domain_class_not_at Hw2).
    rewrite (all_in_impl _ _ t alpha_not_at Ht).
    fold (free "@" e). rewrite (Hfe "@"%char) by auto. reflexivity. }
  change (String a (w1 ++ String "@" (String b (w2 ++ String "." (t ++ e)))))
    with (String a w1 ++ String "@" (String b (w2 ++ String "." (t ++ e)))) in *.
  rewrite split_app_sep, (split_free _ _ Hlocal), (split_free _ _ Hdomain) in *.
  cbn [List.app Str.item nth List.length Nat.eqb negb] in *.
  rewrite E2.
  apply orb_false_iff in E3 as [E3 E3'].
  rewrite E3. cbn [orb].
  assert (E4 : (255 <? Str.len (String b (w2 ++ String "." (t ++ e))))%Z = false).
  { apply Z.ltb_ge in E3'. apply Z.ltb_ge. lia. }
  rewrite E4.
  assert (M1 : matches false (Seq Bol (Seq (Plus (Set_ Extractor.local_char)) Eol))
                 (String a w1) = true).
  { apply (matches_intro _ _ (MState (prev_after (Some a) w1) "" [])).
    apply (seq_intro _ _ _ _ (MState None (String a w1) []));
      [left; reflexivity |].
    apply (seq_intro _ _ _ _ (MState (prev_after (Some a) w1) "" []));
      [| apply eol_intro; auto].
    unfold Plus.
    apply (seq_intro _ _ _ _ (MState (Some a) w1 []));
      [apply set_intro, alnum_local, Ha |].
    rewrite <- (append_nil_r w1) at 2.
    apply star_intro. apply (all_in_impl _ _ w1 class_local Hw1). }
  rewrite M1. cbn [negb].
  assert (M2 : matches false
                 (Seq Bol (Seq (Plus (Set_ Extractor.domain_char))
                    (Seq (Chr ".") (Seq (AtLeast2 (Set_ alpha)) Eol))))
                 (String b (w2 ++ String "." (t ++ e))) = true).
  { destruct t as [| x [| y z]]; cbn [String.length] in Hlen; try lia.
    cbn [all_in] in Ht. apply andb_true_iff in Ht as [Hx Ht].
    apply andb_true_iff in Ht as [Hy Hz].
    change (String x (String y z) ++ e) with (String x (String y (z ++ e))).
    apply (matches_intro _ _ (MState (prev_after (Some y) z) e [])).
    apply (seq_intro _ _ _ _
             (MState None (String b (w2 ++ String "." (String x (String y (z ++ e))))) []));
      [left; reflexivity |].
    apply (seq_intro _ _ _ _
             (MState (prev_after (Some b) w2)
                     (String "." (String x (String y (z ++ e)))) [])).
    { unfold Plus.
      apply (seq_intro _ _ _ _
               (MState (Some b) (w2 ++ String "." (String x (String y (z ++ e)))) []));
        [apply set_intro, alnum_domain, Hb |].
      apply star_intro. apply (all_in_impl _ _ w2 class_domain Hw2). }
    apply (seq_intro _ _ _ _ (MState (Some "."%char) (String x (String y (z ++ e))) []));
      [apply chr_intro |].
    apply (seq_intro _ _ _ _ (MState (prev_after (Some y) z) e []));
      [| apply eol_intro; exact He].
    unfold AtLeast2.
    apply (seq_intro _ _ _ _ (MState (Some x) (String y (z ++ e)) []));
      [apply set_intro, Hx |].
    apply (seq_intro _ _ _ _ (MState (Some y) (z ++ e) []));
      [apply set_intro, Hy |].
    apply star_intro, Hz. }
  rewrite M2. reflexivity.
Qed.

End Validators.

Lemma format_valid_is_valid_email_witness :
  Extractor._is_valid_email "first.last+tag@mail.example.org" = true.
Proof.
  apply (format_valid_is_valid_email "first.last+tag@mail.example.org").
  vm_compute. reflexivity.
Defined.
